(** * Link-prediction evaluation and distributed training of a
      knowledge-graph embedding framework

    A shallow embedding of [executer.py] (class [Execute]: the filtered
    ranking evaluators [evaluate_lp] and [evaluate_lp_k_vs_all], the
    configuration check [config_kge_sanity_checking], the batch builders,
    the training methods and their dispatch in [train_and_eval]) and of
    [dicee/trainer/torch_trainer_ddp.py] (the [TorchDDPTrainer] coordinator
    and the per-process [DDPTrainer]).

    Conventions.
    - Python exceptions are values of [exn]; a computation that may raise
      has type [result A]. The batch builders, the training methods and
      [train_and_eval] raise further exceptions ([py_exn], [outcome A]) and
      call [trainer.fit]; their computations have type [exec A], which
      records the calls next to how the computation ended.
    - Entity and relation ids are dense indices, modelled as [nat].
    - A score is a float: a number, modelled as a rational [Qc], one of
      the two infinities or not-a-number (type [score]). A model may return
      any of them, and the mask writes [-inf].
    - Metrics are computed in exact rational arithmetic. *)

From stdpp Require Import base list sorting numbers strings gmap.
From Stdlib Require Import QArith Qcanon.

Local Open Scope Qc_scope.

(** ** Exceptions *)

Inductive exn : Type :=
  | IndexError
  | ZeroDivisionError
  | NameError (name : string)
  | ValueError (msg : string)
  | FileNotFoundError (path : string)
  | ProcessRaisedException (rank : nat) (cause : exn).

Inductive result (A : Type) : Type :=
  | Ok (a : A)
  | Raise (e : exn).
Arguments Ok {A} a.
Arguments Raise {A} e.

Global Instance exn_eq_dec : EqDecision exn.
Proof.
  intros e1 e2. unfold Decision.
  decide equality; first [apply String.string_dec | apply Nat.eq_dec].
Defined.

Global Instance result_eq_dec {A} `{EqDecision A} : EqDecision (result A).
Proof. solve_decision. Defined.

Definition result_bind {A B} (f : A → result B) (r : result A) : result B :=
  match r with
  | Ok a => f a
  | Raise e => Raise e
  end.

Global Instance result_ret : MRet result := λ A a, Ok a.
Global Instance result_mbind : MBind result := λ A B f r, result_bind f r.
Global Instance result_fmap : FMap result :=
  λ A B f r, result_bind (λ a, Ok (f a)) r.

(** [for x in xs: acc = body(acc, x)], stopping at the first exception. *)
Fixpoint for_each {A S} (body : S → A → result S) (xs : list A) (acc : S)
    : result S :=
  match xs with
  | [] => Ok acc
  | x :: xs => acc' ← body acc x; for_each body xs acc'
  end.

(** ** Numbers *)

(** [float(n)] for a count [n]. *)
Definition qn (n : nat) : Qc := Qc_of_Z (Z.of_nat n).

(** Python's [sum] over a list of numbers. *)
Definition qsum (l : list Qc) : Qc := foldr Qcplus 0 l.

(** [x / y] on floats with Python's check of the divisor. *)
Definition py_div (x y : Qc) : result Qc :=
  if decide (y = 0) then Raise ZeroDivisionError else Ok (x / y).

(** ** Scores and score tensors *)

(** The value of an entry of a score tensor: a float. It is a number, one
    of the two infinities or not a number. *)
Inductive score : Type :=
  | NegInf
  | Fin (q : Qc)
  | PosInf
  | NaN.

Global Instance score_inhabited : Inhabited score := populate NegInf.

Global Instance score_eq_dec : EqDecision score.
Proof. solve_decision. Defined.

(** The order in which [torch.sort] arranges values: the numbers in their
    order between the infinities, and not-a-number above everything. *)
Definition score_level (a : score) : nat :=
  match a with
  | NegInf => 0
  | Fin _ => 1
  | PosInf => 2
  | NaN => 3
  end.

Definition score_le (a b : score) : Prop :=
  match a, b with
  | Fin x, Fin y => x ≤ y
  | _, _ => (score_level a ≤ score_level b)%nat
  end.

Definition score_lt (a b : score) : Prop :=
  match a, b with
  | Fin x, Fin y => x < y
  | _, _ => (score_level a < score_level b)%nat
  end.

Global Instance score_le_dec : RelDecision score_le.
Proof. intros [|x| |] [|y| |]; simpl; apply _. Defined.

Global Instance score_lt_dec : RelDecision score_lt.
Proof. intros [|x| |] [|y| |]; simpl; apply _. Defined.

(** [t[i]] on a one-dimensional tensor, for an index [i >= 0]. *)
Definition tensor_get {A} (t : list A) (i : nat) : result A :=
  match t !! i with
  | Some x => Ok x
  | None => Raise IndexError
  end.

(** [t[idxs] = v]: every position listed in [idxs] is overwritten; an index
    outside the tensor raises. *)
Fixpoint index_fill {A} (t : list A) (idxs : list nat) (v : A)
    : result (list A) :=
  match idxs with
  | [] => Ok t
  | i :: idxs =>
      if decide (i < length t)%nat then index_fill (<[i:=v]> t) idxs v
      else Raise IndexError
  end.

(** [np.where(sort_idxs == x)[0][0]]: the first position holding [x]. *)
Definition where_first (sort_idxs : list nat) (x : nat) : result nat :=
  match list_find (λ y, y = x) sort_idxs with
  | Some (i, _) => Ok i
  | None => Raise IndexError
  end.

(** ** Sorting

    [torch.sort(t, descending=True)] returns the indices of [t] in an order
    in which the values do not increase, entries that are not a number
    first. How equal values are ordered is left to the library, so the
    evaluators are stated against this interface. *)

Class TorchSort : Type := {
  argsort_desc : list score → list nat;
  argsort_desc_perm : ∀ t, argsort_desc t ≡ₚ seq 0 (length t);
  argsort_desc_sorted : ∀ t i j a b x y,
    (i < j)%nat →
    argsort_desc t !! i = Some a → argsort_desc t !! j = Some b →
    t !! a = Some x → t !! b = Some y →
    score_le y x
}.

(** One implementation: merge sort of the indices by decreasing value. *)
Definition ge_at (t : list score) (a b : nat) : Prop :=
  score_le (t !!! b) (t !!! a).

Global Instance ge_at_dec t : RelDecision (ge_at t).
Proof. intros a b. unfold ge_at. apply _. Defined.

Definition merge_argsort (t : list score) : list nat :=
  merge_sort (ge_at t) (seq 0 (length t)).

(** ** Data model *)

(** A triple [(subject, relation, object)] of ids. *)
Definition triple : Type := nat * nat * nat.

Definition subject (t : triple) : nat := t.1.1.
Definition relation (t : triple) : nat := t.1.2.
Definition object (t : triple) : nat := t.2.

(** The experiment folder holds up to three indexed frames. *)
Record storage : Type := Storage {
  idx_train_df : option (list triple);
  idx_valid_df : option (list triple);
  idx_test_df : option (list triple)
}.

(** A trained model, seen through the two scoring entry points the
    evaluators call. Each takes the module's mode ([training]) first: a
    module may score differently in training mode (dropout, batch norm).
    A score is any float. *)
Record model : Type := Model {
  training : bool;
  (* the score of one row of forward_triples *)
  score_triple : bool → nat → nat → nat → score;
  (* forward_k_vs_all(e1_idx=[s], rel_idx=[p])[0]: one score per entity *)
  score_k_vs_all_rel : bool → nat → nat → list score;
  (* forward_k_vs_all(e1_idx=[s], e2_idx=[o])[0]: one score per relation *)
  score_k_vs_all_e2 : bool → nat → nat → list score
}.

(** [model.eval()] *)
Definition eval (m : model) : model :=
  {| training := false;
     score_triple := score_triple m;
     score_k_vs_all_rel := score_k_vs_all_rel m;
     score_k_vs_all_e2 := score_k_vs_all_e2 m |}.

(** [model.forward_triples(e1_idx, rel_idx, e2_idx)]: row-wise scores. *)
Definition forward_triples (m : model) (e1_idx rel_idx e2_idx : list nat)
    : list score :=
  zip_with (λ sp o, score_triple m (training m) sp.1 sp.2 o)
           (zip e1_idx rel_idx) e2_idx.

(** [model.forward_k_vs_all(e1_idx=[s], rel_idx=[p])[0]] and
    [model.forward_k_vs_all(e1_idx=[s], e2_idx=[o])[0]]. *)
Definition forward_k_vs_all_rel (m : model) (e1_idx rel_idx : nat)
    : list score :=
  score_k_vs_all_rel m (training m) e1_idx rel_idx.

Definition forward_k_vs_all_e2 (m : model) (e1_idx e2_idx : nat)
    : list score :=
  score_k_vs_all_e2 m (training m) e1_idx e2_idx.

(** The metrics dictionary [{'H@1':..,'H@3':..,'H@10':..,'MRR':..}]. *)
Record results : Type := Results {
  H_at_1 : Qc;
  H_at_3 : Qc;
  H_at_10 : Qc;
  MRR : Qc
}.

(** ** [Execute.deserialize_index_data] *)

Definition deserialize_index_data (st : storage) : result (list triple) :=
  let m := option_list (idx_train_df st) ++ option_list (idx_valid_df st)
           ++ option_list (idx_test_df st) in
  match m with
  | [] => Raise (ValueError "No objects to concatenate")
  | _ => Ok (concat m)
  end.

(** Selections by boolean mask on the frame, such as
    [data[(data['subject'] == s) & (data['relation'] == p)]['object']]. *)
Definition objects_of (data : list triple) (s p : nat) : list nat :=
  object <$> filter (λ t, subject t = s ∧ relation t = p) data.

Definition subjects_of (data : list triple) (p o : nat) : list nat :=
  subject <$> filter (λ t, relation t = p ∧ object t = o) data.

Definition relations_of (data : list triple) (s o : nat) : list nat :=
  relation <$> filter (λ t, subject t = s ∧ object t = o) data.

(** ** The filtering and ranking steps shared by the evaluators

    [[
      target_value = predictions[target].item()
      predictions[filt] = -inf
      predictions[target] = target_value
      _, sort_idxs = torch.sort(predictions, descending=True)
      rank = np.where(sort_idxs == target)[0][0]
    ]] *)
Definition mask_scores (predictions : list score) (filt : list nat)
    (target : nat) : result (list score) :=
  target_value ← tensor_get predictions target;
  predictions ← index_fill predictions filt NegInf;
  Ok (<[target := target_value]> predictions).

Definition filtered_rank `{TorchSort} (predictions : list score)
    (filt : list nat) (target : nat) : result nat :=
  predictions ← mask_scores predictions filt target;
  let sort_idxs := argsort_desc predictions in
  where_first sort_idxs target.

(** ** [Execute.evaluate_lp] *)

(** The score tensors of step 2 of the loop body. *)
Definition predictions_tails (m : model) (num_entities : nat) (s p : nat)
    : list score :=
  let all_entities := seq 0 num_entities in
  forward_triples m (replicate num_entities s) (replicate num_entities p)
    all_entities.

Definition predictions_heads (m : model) (num_entities : nat) (p o : nat)
    : list score :=
  let all_entities := seq 0 num_entities in
  forward_triples m all_entities (replicate num_entities p)
    (replicate num_entities o).

(** Steps 1 to 4 of the loop body: the pair
    [(filt_head_entity_rank, filt_tail_entity_rank)], both already
    incremented. *)
Definition lp_ranks `{TorchSort} (m : model) (data : list triple)
    (num_entities : nat) (data_point : triple) : result (nat * nat) :=
  let s := subject data_point in
  let p := relation data_point in
  let o := object data_point in
  let filt_tails := objects_of data s p in
  filt_tail_entity_rank ←
    filtered_rank (predictions_tails m num_entities s p) filt_tails o;
  let filt_heads := subjects_of data p o in
  filt_head_entity_rank ←
    filtered_rank (predictions_heads m num_entities p o) filt_heads s;
  Ok ((filt_head_entity_rank + 1)%nat, (filt_tail_entity_rank + 1)%nat).

(** The accumulators of the loop: the dictionary [hits] and the list
    [reciprocal_ranks]. *)
Record lp_acc : Type := LpAcc {
  hits : gmap nat (list nat);
  reciprocal_ranks : list Qc
}.

(** One round of [for hits_level in range(1, 11)]. *)
Definition hits_add (head_rank tail_rank : nat) (hits : gmap nat (list nat))
    (hits_level : nat) : gmap nat (list nat) :=
  let I := ((if decide (head_rank ≤ hits_level)%nat then 1 else 0)
            + (if decide (tail_rank ≤ hits_level)%nat then 1 else 0))%nat in
  if decide (0 < I)%nat
  then <[hits_level := default [] (hits !! hits_level) ++ [I]]> hits
  else hits.

(** Step 5 and the Hit@N step of the loop body. *)
Definition lp_update (acc : lp_acc)
    (filt_head_entity_rank filt_tail_entity_rank : nat) : lp_acc :=
  {| reciprocal_ranks :=
       reciprocal_ranks acc
       ++ [1 / qn filt_head_entity_rank + 1 / qn filt_tail_entity_rank];
     hits := foldl (hits_add filt_head_entity_rank filt_tail_entity_rank)
               (hits acc) (seq 1 10) |}.

Definition lp_body `{TorchSort} (m : model) (data : list triple)
    (num_entities : nat) (acc : lp_acc) (data_point : triple)
    : result lp_acc :=
  ranks ← lp_ranks m data num_entities data_point;
  Ok (lp_update acc ranks.1 ranks.2).

(** [sum(hits[k]) / float(len(triple_idx) * 2) if k in hits else 0] *)
Definition lp_hit (hits : gmap nat (list nat)) (k : nat) (denom : Qc) : Qc :=
  match hits !! k with
  | Some l => qn (sum_list l) / denom
  | None => 0
  end.

Definition lp_aggregate (acc : lp_acc) (num_triples : nat) : result results :=
  let denom := qn (num_triples * 2) in
  mean_reciprocal_rank ← py_div (qsum (reciprocal_ranks acc)) denom;
  Ok {| H_at_1 := lp_hit (hits acc) 1 denom;
        H_at_3 := lp_hit (hits acc) 3 denom;
        H_at_10 := lp_hit (hits acc) 10 denom;
        MRR := mean_reciprocal_rank |}.

(** The whole method. It returns the model as it leaves it (evaluation
    mode) next to what the call returns or raises. *)
Definition evaluate_lp `{TorchSort} (st : storage) (num_entities : nat)
    (m : model) (triple_idx : list triple) : model * result results :=
  let m := eval m in
  (m,
   data ← deserialize_index_data st;
   acc ← for_each (lp_body m data num_entities) triple_idx
           {| hits := ∅; reciprocal_ranks := [] |};
   lp_aggregate acc (length triple_idx)).

(** ** [Execute.evaluate_lp_k_vs_all] *)

(** The accumulators of the loop: the ten lists [hits] and the list
    [ranks]. *)
Record kvsall_acc : Type := KvsAllAcc {
  hits_lists : list (list Qc);
  ranks : list nat
}.

(** Both branches compute one zero-based [rank] per triple: over the
    relations when [form_of_labelling == 'RelationPrediction'], over the
    candidate objects otherwise. *)
Definition kvsall_rank `{TorchSort} (m : model) (data : list triple)
    (form_of_labelling : string) (i : triple) : result nat :=
  let e1_idx := subject i in
  let r_idx := relation i in
  let e2_idx := object i in
  if decide (form_of_labelling = "RelationPrediction") then
    let predictions := forward_k_vs_all_e2 m e1_idx e2_idx in
    let filt := relations_of data e1_idx e2_idx in
    filtered_rank predictions filt r_idx
  else
    let predictions := forward_k_vs_all_rel m e1_idx r_idx in
    let filt := objects_of data e1_idx r_idx in
    filtered_rank predictions filt e2_idx.

(** One round of [for hits_level in range(10)]. *)
Definition hits_append (rank : nat) (hits : list (list Qc)) (hits_level : nat)
    : list (list Qc) :=
  if decide (rank ≤ hits_level)%nat
  then alter (λ l, l ++ [1]) hits_level hits
  else hits.

(** What the loop body does with the [rank] it computed. *)
Definition kvsall_update (acc : kvsall_acc) (rank : nat) : kvsall_acc :=
  {| ranks := ranks acc ++ [(rank + 1)%nat];
     hits_lists := foldl (hits_append rank) (hits_lists acc) (seq 0 10) |}.

Definition kvsall_body `{TorchSort} (m : model) (data : list triple)
    (form_of_labelling : string) (acc : kvsall_acc) (i : triple)
    : result kvsall_acc :=
  rank ← kvsall_rank m data form_of_labelling i;
  Ok (kvsall_update acc rank).

(** [np.mean(1. / np.array(ranks))] *)
Definition np_mean_reciprocal (ranks : list nat) : Qc :=
  qsum ((λ r, 1 / qn r) <$> ranks) / qn (length ranks).

Definition kvsall_aggregate (acc : kvsall_acc) (num_triples : nat)
    : result results :=
  let denom := qn num_triples in
  hit_1 ← py_div (qsum (hits_lists acc !!! 0%nat)) denom;
  hit_3 ← py_div (qsum (hits_lists acc !!! 2%nat)) denom;
  hit_10 ← py_div (qsum (hits_lists acc !!! 9%nat)) denom;
  let mean_reciprocal_rank := np_mean_reciprocal (ranks acc) in
  Ok {| H_at_1 := hit_1; H_at_3 := hit_3; H_at_10 := hit_10;
        MRR := mean_reciprocal_rank |}.

Definition evaluate_lp_k_vs_all `{TorchSort} (st : storage) (m : model)
    (triple_idx : list triple) (form_of_labelling : string)
    : model * result results :=
  let m := eval m in
  (m,
   data ← deserialize_index_data st;
   acc ← for_each (kvsall_body m data form_of_labelling) triple_idx
           {| hits_lists := replicate 10 []; ranks := [] |};
   kvsall_aggregate acc (length triple_idx)).

(** ** [Execute.config_kge_sanity_checking] *)

(** The attributes of [Execute] that the check reads or writes:
    [self.args.batch_size], [self.args.model], [self.dataset.train_set],
    [self.scoring_technique] and [self.neg_ratio] ([None] is [None]). *)
Record execute : Type := Execute {
  batch_size : Z;
  model_name : string;
  train_set : list triple;
  scoring_technique : string;
  neg_ratio : option Z
}.

Definition config_kge_sanity_checking (self : execute) : execute :=
  let self :=
    if decide (batch_size self > Z.of_nat (length (train_set self)))%Z
    then {| batch_size := Z.of_nat (length (train_set self));
            model_name := model_name self;
            train_set := train_set self;
            scoring_technique := scoring_technique self;
            neg_ratio := neg_ratio self |}
    else self in
  let self :=
    if decide (model_name self = "Shallom"
               ∧ scoring_technique self = "NegSample")
    then {| batch_size := batch_size self;
            model_name := model_name self;
            train_set := train_set self;
            scoring_technique := "KvsAll";
            neg_ratio := neg_ratio self |}
    else self in
  if decide (scoring_technique self = "KvsAll")
  then {| batch_size := batch_size self;
          model_name := model_name self;
          train_set := train_set self;
          scoring_technique := scoring_technique self;
          neg_ratio := None |}
  else self.

(** ** Tensors, modules and the training backend *)

Inductive device : Type :=
  | Cpu
  | Cuda (index : nat).

Record tensor : Type := Tensor {
  values : list Qc;
  on_device : device
}.

(** [t.to(gpu_id)] *)
Definition tensor_to (t : tensor) (gpu_id : nat) : tensor :=
  {| values := values t; on_device := Cuda gpu_id |}.

(** A model as the trainers see it: its [state_dict()], the attribute
    [loss_history] and the device it lives on. *)
Record nn_module : Type := NnModule {
  state_dict : list Qc;
  loss_history : list Qc;
  module_device : device
}.

(** [model.to(gpu_id)] *)
Definition module_to (m : nn_module) (gpu_id : nat) : nn_module :=
  {| state_dict := state_dict m; loss_history := loss_history m;
     module_device := Cuda gpu_id |}.

(** [model.load_state_dict(sd)] *)
Definition load_state_dict (m : nn_module) (sd : list Qc) : nn_module :=
  {| state_dict := sd; loss_history := loss_history m;
     module_device := module_device m |}.

(** [DistributedDataParallel(model, device_ids=[gpu_id])]; an attribute
    [loss_history] may be set on the wrapper itself. *)
Record ddp : Type := Ddp {
  module : nn_module;
  device_ids : list nat;
  wrapper_loss_history : option (list Qc)
}.

(** What a batch is unpacked into: [x_batch] or [(x_batch, y_idx_batch)]. *)
Inductive batch_input : Type :=
  | Plain (x_batch : tensor)
  | WithIndex (x_batch y_idx_batch : tensor).

(** The numerical side of [_run_batch] (forward pass, loss, backward pass
    with gradient averaging, optimizer step) belongs to torch. On the worker
    of rank [rank] it takes the parameters before the batch to the
    parameters after it and the scalar [loss.item()]. Gradient averaging
    makes the step of one worker depend on what the other workers
    contribute to the same round, so both also take the number of rounds
    the process group has completed. *)
Class Backend : Type := {
  optimizer_step : nat → nat → list Qc → batch_input → tensor → list Qc;
  loss_item : nat → nat → list Qc → batch_input → tensor → Qc
}.

(** A data loader with a [DistributedSampler]: the batches a rank iterates
    over in an epoch (after [sampler.set_epoch(epoch)]). *)
Record data_loader : Type := DataLoader {
  batches_for : nat → nat → list (list tensor)
}.

(** Callbacks are opaque observers; what is recorded is which hook was
    invoked on which callback with which model argument. *)
Inductive hook_call : Type :=
  | OnTrainEpochEnd (c : string) (trainer : option unit) (m : nn_module).

(** ** [DDPTrainer] *)

Record ddp_trainer : Type := DDPTrainer {
  gpu_id : nat;
  trainer_model : ddp;
  train_dataset_loader : data_loader;
  callbacks : list string;
  num_epochs : nat;
  trainer_loss_history : list Qc;
  (* not attributes of the class: the hook calls made so far, and the
     number of optimizer steps taken so far *)
  hook_calls : list hook_call;
  steps_done : nat
}.

(** [DDPTrainer.__init__] *)
Definition ddp_trainer_init (model : nn_module) (loader : data_loader)
    (gpu_id : nat) (callbacks : list string) (num_epochs : nat)
    : ddp_trainer :=
  {| gpu_id := gpu_id;
     trainer_model := {| module := module_to model gpu_id;
                         device_ids := [gpu_id];
                         wrapper_loss_history := None |};
     train_dataset_loader := loader;
     callbacks := callbacks;
     num_epochs := num_epochs;
     trainer_loss_history := [];
     hook_calls := [];
     steps_done := 0 |}.

Definition set_module (self : ddp_trainer) (m : nn_module) : ddp_trainer :=
  {| gpu_id := gpu_id self;
     trainer_model := {| module := m;
                         device_ids := device_ids (trainer_model self);
                         wrapper_loss_history :=
                           wrapper_loss_history (trainer_model self) |};
     train_dataset_loader := train_dataset_loader self;
     callbacks := callbacks self;
     num_epochs := num_epochs self;
     trainer_loss_history := trainer_loss_history self;
     hook_calls := hook_calls self;
     steps_done := steps_done self |}.

Definition add_hook_calls (self : ddp_trainer) (cs : list hook_call)
    : ddp_trainer :=
  {| gpu_id := gpu_id self;
     trainer_model := trainer_model self;
     train_dataset_loader := train_dataset_loader self;
     callbacks := callbacks self;
     num_epochs := num_epochs self;
     trainer_loss_history := trainer_loss_history self;
     hook_calls := hook_calls self ++ cs;
     steps_done := steps_done self |}.

Definition step_done (self : ddp_trainer) : ddp_trainer :=
  {| gpu_id := gpu_id self;
     trainer_model := trainer_model self;
     train_dataset_loader := train_dataset_loader self;
     callbacks := callbacks self;
     num_epochs := num_epochs self;
     trainer_loss_history := trainer_loss_history self;
     hook_calls := hook_calls self;
     steps_done := S (steps_done self) |}.

(** [DDPTrainer._run_batch] *)
Definition _run_batch `{Backend} (self : ddp_trainer) (source : batch_input)
    (targets : tensor) : ddp_trainer * Qc :=
  let m := module (trainer_model self) in
  let batch_loss :=
    loss_item (gpu_id self) (steps_done self) (state_dict m) source targets in
  let sd :=
    optimizer_step (gpu_id self) (steps_done self) (state_dict m) source
      targets in
  (step_done (set_module self (load_state_dict m sd)), batch_loss).

(** The names bound at module level in [torch_trainer_ddp.py] and the
    builtins the file uses. A name that a function neither assigns nor
    finds here is unbound. *)
Definition module_globals : list string :=
  ["os"; "sys"; "torch"; "time"; "mp"; "DDP"; "ZeroRedundancyOptimizer";
   "dist"; "np"; "AbstractTrainer"; "efficient_zero_grad"; "Dataset";
   "DataLoader"; "pd"; "print_peak_memory"; "TorchDDPTrainer";
   "distributed_training"; "DDPTrainer"].

Definition builtins : list string :=
  ["len"; "print"; "range"; "enumerate"; "super"; "int"; "list";
   "ValueError"].

Definition load_global (name : string) : result unit :=
  if decide (name ∈ module_globals ++ builtins) then Ok ()
  else Raise (NameError name).

(** [DDPTrainer.extract_input_outputs] *)
Definition extract_input_outputs (gpu_id : nat) (z : list tensor)
    : result (batch_input * tensor) :=
  match z with
  | [x_batch; y_batch] =>
      Ok (Plain (tensor_to x_batch gpu_id), tensor_to y_batch gpu_id)
  | [x_batch; y_idx_batch; y_batch] =>
      Ok (WithIndex (tensor_to x_batch gpu_id) (tensor_to y_idx_batch gpu_id),
          tensor_to y_batch gpu_id)
  | _ =>
      (* print(len(batch)) *)
      _ ← load_global "batch";
      Raise (ValueError "Unexpected batch shape..")
  end.

(** [enumerate(xs)] *)
Definition enumerate {A} (xs : list A) : list (nat * A) :=
  zip (seq 0 (length xs)) xs.

(** The state of the loop in [_run_epoch]: the trainer, [epoch_loss] and
    the loop index [i]. *)
Definition epoch_body `{Backend} (st : ddp_trainer * Qc * nat)
    (iz : nat * list tensor) : result (ddp_trainer * Qc * nat) :=
  let '(self, epoch_loss, _) := st in
  let '(i, z) := iz in
  '(source, targets) ← extract_input_outputs (gpu_id self) z;
  let '(self, batch_loss) := _run_batch self source targets in
  Ok (self, epoch_loss + batch_loss, i).

(** [DDPTrainer._run_epoch] *)
Definition _run_epoch `{Backend} (self : ddp_trainer) (epoch : nat)
    : result (ddp_trainer * Qc) :=
  let batches := batches_for (train_dataset_loader self) (gpu_id self) epoch in
  '(self, epoch_loss, i) ←
    for_each epoch_body (enumerate batches) (self, 0, 0%nat);
  Ok (self, epoch_loss / qn (i + 1)).

(** The body of the loop in [DDPTrainer.train]. *)
Definition train_epoch `{Backend} (self : ddp_trainer) (epoch : nat)
    : result ddp_trainer :=
  '(self, epoch_loss) ← _run_epoch self epoch;
  if decide (gpu_id self = 0%nat) then
    let m := module (trainer_model self) in
    let m := {| state_dict := state_dict m;
                loss_history := loss_history m ++ [epoch_loss];
                module_device := module_device m |} in
    let self := set_module self m in
    Ok (add_hook_calls self
          ((λ c, OnTrainEpochEnd c None m) <$> callbacks self))
  else Ok self.

(** [DDPTrainer.train] *)
Definition train `{Backend} (self : ddp_trainer) : result ddp_trainer :=
  for_each train_epoch (seq 0 (num_epochs self)) self.

(** ** [distributed_training] and [TorchDDPTrainer.fit] *)

(** The files of the working directory that hold a saved [state_dict]. *)
Abbreviation files := (gmap string (list Qc)).

(** [trainer.model.loss_history = trainer.loss_history] sets an attribute of
    the wrapper. *)
Definition set_wrapper_loss_history (self : ddp_trainer) (h : list Qc)
    : ddp_trainer :=
  {| gpu_id := gpu_id self;
     trainer_model := {| module := module (trainer_model self);
                         device_ids := device_ids (trainer_model self);
                         wrapper_loss_history := Some h |};
     train_dataset_loader := train_dataset_loader self;
     callbacks := callbacks self;
     num_epochs := num_epochs self;
     trainer_loss_history := trainer_loss_history self;
     hook_calls := hook_calls self;
     steps_done := steps_done self |}.

(** The entry point of one spawned process. It works on its own copy of
    [model]; what outlives the process is the file it may write. The final
    trainer is returned so that the process can be inspected. *)
Definition distributed_training `{Backend} (rank world_size : nat)
    (model : nn_module) (train_dataset_loader : data_loader)
    (callbacks : list string) (args_num_epochs : nat) (fs : files)
    : result (ddp_trainer * files) :=
  let trainer :=
    ddp_trainer_init model train_dataset_loader rank callbacks
      args_num_epochs in
  trainer ← train trainer;
  if decide (rank = 0%nat) then
    let trainer :=
      set_wrapper_loss_history trainer (trainer_loss_history trainer) in
    Ok (trainer,
        <["model.pt" := state_dict (module (trainer_model trainer))]> fs)
  else Ok (trainer, fs).

(** [mp.spawn(fn, args, nprocs, join=True)]: every rank below [nprocs] runs
    [fn] in a process of its own; a process that raises fails the call. The
    processes share nothing but the file system, which only rank 0 writes. *)
Definition spawn (fn : nat → files → result files) (nprocs : nat)
    (fs : files) : result files :=
  for_each (λ fs rank,
              match fn rank fs with
              | Ok fs => Ok fs
              | Raise e => Raise (ProcessRaisedException rank e)
              end)
           (seq 0 nprocs) fs.

(** [torch.load(path)] *)
Definition torch_load (fs : files) (path : string) : result (list Qc) :=
  match fs !! path with
  | Some sd => Ok sd
  | None => Raise (FileNotFoundError path)
  end.

(** The attributes of [TorchDDPTrainer] that [fit] reads, and the number of
    devices [torch.cuda.device_count()] reports. *)
Record torch_ddp_trainer : Type := TorchDDPTrainer {
  attributes_num_nodes : nat;
  attributes_num_epochs : nat;
  fit_callbacks : list string;
  cuda_device_count : nat
}.

(** [TorchDDPTrainer.fit]. The hooks [on_fit_start] and [on_fit_end] are
    inherited from [AbstractTrainer]; they are taken to leave the model and
    the files as they are. The result is the caller's model object and the
    files after the call. *)
Definition fit `{Backend} (self : torch_ddp_trainer) (model : nn_module)
    (train_dataloaders : data_loader) (fs : files)
    : result (nn_module * files) :=
  let world_size := (attributes_num_nodes self * cuda_device_count self)%nat in
  fs ← spawn (λ rank fs,
                snd <$> distributed_training rank world_size model
                          train_dataloaders (fit_callbacks self)
                          (attributes_num_epochs self) fs)
             world_size fs;
  sd ← torch_load fs "model.pt";
  let model := load_state_dict model sd in
  let fs := delete "model.pt" fs in
  Ok (model, fs).

(** * The rest of [Execute]: batches, training and dispatch *)

(** ** Exceptions of these methods *)

(** The exceptions of the evaluators and the further ones these methods
    can raise. *)
Inductive py_exn : Type :=
  | Builtin (e : exn)
  | KeyError (key : nat * nat)
  | AssertionError
  | TypeError (msg : string)
  | AttributeError (msg : string)
  | UnboundLocalError (name : string)
  | SystemExit (code : Z).

Inductive outcome (A : Type) : Type :=
  | Returns (a : A)
  | Raises (e : py_exn).
Arguments Returns {A} a.
Arguments Raises {A} e.

Definition outcome_bind {A B} (f : A → outcome B) (r : outcome A)
    : outcome B :=
  match r with
  | Returns a => f a
  | Raises e => Raises e
  end.

Global Instance outcome_ret : MRet outcome := λ A a, Returns a.
Global Instance outcome_mbind : MBind outcome :=
  λ A B f r, outcome_bind f r.

(** An exception of the evaluators travels up unchanged. *)
Definition of_result {A} (r : result A) : outcome A :=
  match r with
  | Ok a => Returns a
  | Raise e => Raises (Builtin e)
  end.

Fixpoint for_each_outcome {A S} (body : S → A → outcome S) (xs : list A)
    (acc : S) : outcome S :=
  match xs with
  | [] => Returns acc
  | x :: xs => acc' ← body acc x; for_each_outcome body xs acc'
  end.

(** ** [Execute.old_get_batch_1_to_N] and [Execute.get_batch_1_to_N] *)

(** The bound [i] of a slice of a sequence of [len] elements: a negative
    bound counts from the end, and the result is clipped to the
    sequence. *)
Definition slice_bound (len : nat) (i : Z) : nat :=
  if decide (i < 0)%Z then Z.to_nat (Z.max (i + Z.of_nat len) 0)
  else Z.to_nat (Z.min i (Z.of_nat len)).

(** [l[start:stop]] *)
Definition py_slice {A} (l : list A) (start stop : Z) : list A :=
  let lo := slice_bound (length l) start in
  let hi := slice_bound (length l) stop in
  take (hi - lo) (drop lo l).

(** [targets[idx, er_vocab[pair]] = 1]. [er_vocab] maps a pair to the list
    of the indices that complete it. *)
Definition set_targets (er_vocab : gmap (nat * nat) (list nat))
    (targets : list (list Qc)) (idx_pair : nat * (nat * nat))
    : outcome (list (list Qc)) :=
  let '(idx, er_pair) := idx_pair in
  match er_vocab !! er_pair with
  | None => Raises (KeyError er_pair)
  | Some cols =>
      row ← of_result (tensor_get targets idx);
      row ← of_result (index_fill row cols 1);
      Returns (<[idx := row]> targets)
  end.

(** [np.zeros((rows, output_dim))] *)
Definition np_zeros (rows output_dim : nat) : list (list Qc) :=
  replicate rows (replicate output_dim 0).

(** [Execute.old_get_batch_1_to_N]: the batch of pairs that starts at
    [idx], and one multi-hot row of [output_dim] targets per pair. *)
Definition old_get_batch_1_to_N (self : execute)
    (er_vocab : gmap (nat * nat) (list nat))
    (er_vocab_pairs : list (nat * nat)) (idx : Z) (output_dim : nat)
    : outcome (list (nat * nat) * list (list Qc)) :=
  let batch := py_slice er_vocab_pairs idx (idx + batch_size self) in
  let targets := np_zeros (length batch) output_dim in
  targets ← for_each_outcome (set_targets er_vocab) (enumerate batch) targets;
  Returns (batch, targets).

(** [exit(code)] *)
Definition py_exit (code : Z) : outcome unit := Raises (SystemExit code).

(** [Execute.get_batch_1_to_N]: the same method with three prints and
    [exit(1)] in front of the assignment in the loop. *)
Definition get_batch_1_to_N (self : execute)
    (er_vocab : gmap (nat * nat) (list nat))
    (er_vocab_pairs : list (nat * nat)) (idx : Z) (output_dim : nat)
    : outcome (list (nat * nat) * list (list Qc)) :=
  let batch := py_slice er_vocab_pairs idx (idx + batch_size self) in
  let targets := np_zeros (length batch) output_dim in
  targets ← for_each_outcome
               (λ targets idx_pair,
                  _ ← py_exit 1;
                  set_targets er_vocab targets idx_pair)
               (enumerate batch) targets;
  Returns (batch, targets).

(** ** Training and dispatch *)

(** A [pl.Trainer], created with or without the DDP plugin. *)
Inductive pl_trainer : Type :=
  | PlTrainer (ddp_plugin : bool).

(** The arguments of [StandardDataModule] that are modelled. *)
Record standard_data_module : Type := StandardDataModule {
  train_set_idx : list triple;
  valid_set_idx : list triple;
  test_set_idx : list triple;
  form : string;
  neg_sample_ratio : option Z;
  dm_batch_size : Z
}.

(** What the methods use from outside the file. [select_model (args.model)
    n] is the [n]-th call of [select_model(self.args)] of the run and gives
    a fresh model and its form of labelling; [name] is [model.name];
    [trainer_fit] gives the model as [trainer.fit] leaves it; [kf_split] is
    [KFold(n_splits, shuffle=True).split(train_set)], a list of index
    lists for training and testing. The calls of [pl.Trainer], of
    [StandardDataModule], of [trainer.fit] and the prints are taken to
    return. *)
Class Lightning : Type := {
  select_model : string → nat → model * string;
  name : model → string;
  trainer_fit : pl_trainer → model → standard_data_module → model;
  kf_split : Z → list triple → result (list (list nat * list nat))
}.

(** A call of [trainer.fit]. *)
Inductive event : Type :=
  | Fit (trainer : pl_trainer) (m : model) (dataset : standard_data_module).

(** A computation that calls [trainer.fit] along the way: the calls it
    made, in order, and how it ended. *)
Record exec (A : Type) : Type := Exec {
  calls : list event;
  ending : outcome A
}.
Arguments Exec {A} calls ending.
Arguments calls {A} _.
Arguments ending {A} _.

Definition exec_bind {A B} (f : A → exec B) (x : exec A) : exec B :=
  match ending x with
  | Returns a => Exec (calls x ++ calls (f a)) (ending (f a))
  | Raises e => Exec (calls x) (Raises e)
  end.

Global Instance exec_ret : MRet exec := λ A a, Exec [] (Returns a).
Global Instance exec_mbind : MBind exec := λ A B f x, exec_bind f x.

Global Instance exec_fmap : FMap exec :=
  λ A B f x, exec_bind (λ a, Exec [] (Returns (f a))) x.

Definition raise {A} (e : py_exn) : exec A := Exec [] (Raises e).

Definition lift {A} (r : result A) : exec A := Exec [] (of_result r).

Fixpoint for_each_exec {A S} (body : S → A → exec S) (xs : list A)
    (acc : S) : exec S :=
  match xs with
  | [] => mret acc
  | x :: xs => acc' ← body acc x; for_each_exec body xs acc'
  end.

(** The attributes of an [Execute] object that these methods read. [kge]
    holds [args.batch_size], [args.model], [dataset.train_set],
    [scoring_technique] and [neg_ratio]; [args_eval] and [args_gpus] are the
    truth values of [args.eval] and [args.gpus]. *)
Record executor : Type := Executor {
  kge : execute;
  dataset_valid_set : list triple;
  dataset_test_set : list triple;
  dataset_num_entities : nat;
  dataset_is_valid_test_available : bool;
  args_eval : bool;
  args_gpus : bool;
  args_num_folds_for_cv : Z;
  storage_path : storage;
  trainer : option pl_trainer
}.

(** [self.trainer = t] *)
Definition set_trainer (self : executor) (t : pl_trainer) : executor :=
  {| kge := kge self;
     dataset_valid_set := dataset_valid_set self;
     dataset_test_set := dataset_test_set self;
     dataset_num_entities := dataset_num_entities self;
     dataset_is_valid_test_available := dataset_is_valid_test_available self;
     args_eval := args_eval self;
     args_gpus := args_gpus self;
     args_num_folds_for_cv := args_num_folds_for_cv self;
     storage_path := storage_path self;
     trainer := Some t |}.

(** [t.fit(model, train_dataloaders=dataset.train_dataloader())] *)
Definition fit_with `{Lightning} (t : pl_trainer) (m : model)
    (dataset : standard_data_module) : exec model :=
  Exec [Fit t m dataset] (Returns (trainer_fit t m dataset)).

(** [self.trainer.fit(model, train_dataloaders=...)]; [self.trainer] is
    [None] until [train_and_eval] sets it. *)
Definition self_trainer_fit `{Lightning} (self : executor) (m : model)
    (dataset : standard_data_module) : exec model :=
  match trainer self with
  | Some t => fit_with t m dataset
  | None => raise (AttributeError "'NoneType' object has no attribute 'fit'")
  end.

(** A call of [evaluate_lp_k_vs_all] whose result is dropped: the model
    it leaves, unless it raises. *)
Definition call_evaluate_lp_k_vs_all `{TorchSort} (self : executor)
    (m : model) (triple_idx : list triple) (form_of_labelling : string)
    : exec (model * results) :=
  let '(m, res) :=
    evaluate_lp_k_vs_all (storage_path self) m triple_idx form_of_labelling in
  res ← lift res;
  mret (m, res).

Definition call_evaluate_lp `{TorchSort} (self : executor) (m : model)
    (triple_idx : list triple) : exec (model * results) :=
  let '(m, res) :=
    evaluate_lp (storage_path self) (dataset_num_entities self) m
      triple_idx in
  res ← lift res;
  mret (m, res).

(** [Execute.training_kvsall] *)
Definition training_kvsall `{TorchSort, Lightning} (self : executor)
    : exec model :=
  let '(m, form_of_labelling) := select_model (model_name (kge self)) 0 in
  let dataset :=
    {| train_set_idx := train_set (kge self);
       valid_set_idx := dataset_valid_set self;
       test_set_idx := dataset_test_set self;
       form := form_of_labelling;
       neg_sample_ratio := neg_ratio (kge self);
       dm_batch_size := batch_size (kge self) |} in
  m ← self_trainer_fit self m dataset;
  if args_eval self then
    m ← (if decide (0 < length (dataset_valid_set self))%nat
         then fst <$> call_evaluate_lp_k_vs_all self m
                        (dataset_valid_set self) form_of_labelling
         else mret m);
    m ← (if decide (0 < length (dataset_test_set self))%nat
         then fst <$> call_evaluate_lp_k_vs_all self m
                        (dataset_test_set self) form_of_labelling
         else mret m);
    mret m
  else mret m.

(** [assert self.neg_ratio > 0] *)
Definition assert_positive (neg_ratio : option Z) : exec unit :=
  match neg_ratio with
  | None =>
      raise (TypeError
               "'>' not supported between instances of 'NoneType' and 'int'")
  | Some r => if decide (r > 0)%Z then mret () else raise AssertionError
  end.

(** [Execute.training_negative_sampling] *)
Definition training_negative_sampling `{TorchSort, Lightning}
    (self : executor) : exec model :=
  _ ← assert_positive (neg_ratio (kge self));
  let '(m, _) := select_model (model_name (kge self)) 0 in
  let form_of_labelling := "NegativeSampling" in
  let dataset :=
    {| train_set_idx := train_set (kge self);
       valid_set_idx := dataset_valid_set self;
       test_set_idx := dataset_test_set self;
       form := form_of_labelling;
       neg_sample_ratio := neg_ratio (kge self);
       dm_batch_size := batch_size (kge self) |} in
  m ← self_trainer_fit self m dataset;
  if args_eval self then
    m ← (if decide (0 < length (dataset_valid_set self))%nat
         then fst <$> call_evaluate_lp self m (dataset_valid_set self)
         else mret m);
    m ← (if decide (0 < length (dataset_test_set self))%nat
         then fst <$> call_evaluate_lp self m (dataset_test_set self)
         else mret m);
    mret m
  else mret m.

(** [train_set[index]] for a list of row numbers. *)
Definition take_rows (train_set : list triple) (index : list nat)
    : result (list triple) :=
  mapM (tensor_get train_set) index.

(** The variables of the loop of [k_fold_cross_validation] that outlive a
    round: [model], [res] (unbound before its first assignment) and
    [eval_folds]. *)
Record cv_state : Type := CvState {
  cv_model : option model;
  cv_res : option results;
  eval_folds : list (list Qc)
}.

Definition cv_body `{TorchSort, Lightning} (self : executor)
    (st : cv_state) (fold : nat * (list nat * list nat)) : exec cv_state :=
  let '(ith, (train_index, test_index)) := fold in
  let trainer := PlTrainer false in
  let '(m, form_of_labelling) := select_model (model_name (kge self)) ith in
  train_set_for_i_th_fold ← lift (take_rows (train_set (kge self)) train_index);
  test_set_for_i_th_fold ← lift (take_rows (train_set (kge self)) test_index);
  let dataset :=
    {| train_set_idx := train_set_for_i_th_fold;
       valid_set_idx := dataset_valid_set self;
       test_set_idx := dataset_test_set self;
       form := form_of_labelling;
       neg_sample_ratio := neg_ratio (kge self);
       dm_batch_size := batch_size (kge self) |} in
  m ← fit_with trainer m dataset;
  '(m, res) ←
    (if decide (scoring_technique (kge self) = "KvsAll" ∨ name m = "Shallom")
     then '(m, res) ← call_evaluate_lp_k_vs_all self m test_set_for_i_th_fold
                         form_of_labelling;
          mret (m, Some res)
     else if decide (scoring_technique (kge self) = "NegSample")
     then '(m, res) ← call_evaluate_lp self m test_set_for_i_th_fold;
          mret (m, Some res)
     else mret (m, cv_res st));
  match res with
  | None => raise (UnboundLocalError "res")
  | Some r =>
      mret {| cv_model := Some m;
              cv_res := Some r;
              eval_folds :=
                eval_folds st ++ [[MRR r; H_at_1 r; H_at_3 r; H_at_10 r]] |}
  end.

(** [Execute.k_fold_cross_validation]: the model of the last fold, [None]
    when there was no fold. *)
Definition k_fold_cross_validation `{TorchSort, Lightning} (self : executor)
    : exec (option model) :=
  folds ← lift (kf_split (args_num_folds_for_cv self) (train_set (kge self)));
  st ← for_each_exec (cv_body self) (enumerate folds)
         {| cv_model := None; cv_res := None; eval_folds := [] |};
  mret (cv_model st).

(** [Execute.train_and_eval] *)
Definition train_and_eval `{TorchSort, Lightning} (self : executor)
    : exec (option model) :=
  let self := set_trainer self (PlTrainer (args_gpus self)) in
  if dataset_is_valid_test_available self then
    if decide (scoring_technique (kge self) = "NegSample")
    then Some <$> training_negative_sampling self
    else if decide (scoring_technique (kge self) = "KvsAll")
    then Some <$> training_kvsall self
    else raise (Builtin (ValueError ("Invalid argument: "
                                       +:+ scoring_technique (kge self))))
  else
    if decide (args_num_folds_for_cv self < 2)%Z then
      if decide (scoring_technique (kge self) = "NegSample")
      then Some <$> training_negative_sampling self
      else if decide (scoring_technique (kge self) = "KvsAll")
      then Some <$> training_kvsall self
      else raise (Builtin (ValueError ("Invalid argument: "
                                         +:+ scoring_technique (kge self))))
    else k_fold_cross_validation self.

(** * Specification-side definitions *)

(** The ids of a triple lie in the vocabulary. *)
Definition in_vocab (num_entities num_relations : nat) (t : triple) : Prop :=
  (subject t < num_entities)%nat ∧ (relation t < num_relations)%nat
  ∧ (object t < num_entities)%nat.

(** Every row of the known-true frame lies in the vocabulary. *)
Definition table_in_vocab (num_entities num_relations : nat)
    (data : list triple) : Prop :=
  Forall (in_vocab num_entities num_relations) data.

(** How many of the ranks are at most [k]. *)
Definition count_le (k : nat) (rs : list nat) : nat :=
  length (filter (λ r, (r ≤ k)%nat) rs).

(** Entity ranking as the specification words it: every triple contributes
    a head rank and a tail rank, Hits@K counts both and divides by twice the
    number of triples, and MRR sums both reciprocals and divides by the
    same. *)
Definition spec_hits_entity (k : nat) (pairs : list (nat * nat)) : Qc :=
  qn (count_le k pairs.*1 + count_le k pairs.*2) / qn (2 * length pairs).

Definition spec_mrr_entity (pairs : list (nat * nat)) : Qc :=
  qsum ((λ ht, 1 / qn ht.1 + 1 / qn ht.2) <$> pairs)
  / qn (2 * length pairs).

(** One rank per triple: the fraction of ranks at most [k], and the
    arithmetic mean of the reciprocal ranks. *)
Definition spec_hits_single (k : nat) (rs : list nat) : Qc :=
  qn (count_le k rs) / qn (length rs).

Definition spec_mrr_single (rs : list nat) : Qc :=
  qsum ((λ r, 1 / qn r) <$> rs) / qn (length rs).

(** The evaluator of the specification in entity-ranking mode: two ranks per
    query triple, aggregated as above. *)
Definition spec_entity_ranking `{TorchSort} (st : storage)
    (num_entities : nat) (m : model) (triple_idx : list triple)
    : result results :=
  data ← deserialize_index_data st;
  pairs ← mapM (lp_ranks (eval m) data num_entities) triple_idx;
  if decide (pairs = []) then Raise ZeroDivisionError
  else Ok {| H_at_1 := spec_hits_entity 1 pairs;
             H_at_3 := spec_hits_entity 3 pairs;
             H_at_10 := spec_hits_entity 10 pairs;
             MRR := spec_mrr_entity pairs |}.

(** Ranking with one rank per query triple (the relation of the triple
    among the relations, or its object among the entities): every metric
    divides by the number of triples. *)
Definition spec_single_ranking `{TorchSort} (st : storage) (m : model)
    (triple_idx : list triple) (form_of_labelling : string)
    : result results :=
  data ← deserialize_index_data st;
  rs ← mapM (kvsall_rank (eval m) data form_of_labelling) triple_idx;
  let ranks := (λ r, (r + 1)%nat) <$> rs in
  if decide (ranks = []) then Raise ZeroDivisionError
  else Ok {| H_at_1 := spec_hits_single 1 ranks;
             H_at_3 := spec_hits_single 3 ranks;
             H_at_10 := spec_hits_single 10 ranks;
             MRR := spec_mrr_single ranks |}.

(** The filtering property of one ranking step over the raw scores [raw],
    the known-true candidates [filt] and the true answer [target], for the
    zero-based [rank] the step computes: the tensor that is sorted holds
    [-inf] at every known-true candidate other than the target and the raw
    score at the target, the rank is the target's position in the sorted
    order of that tensor, and it is the first position when the target's raw
    score is strictly above that of every other candidate that is not
    filtered. *)
(** [a < b] as floats compare: false when either side is not a number. *)
Definition float_lt (a b : score) : Prop :=
  a ≠ NaN ∧ b ≠ NaN ∧ score_lt a b.

Global Instance float_lt_dec : RelDecision float_lt.
Proof. intros a b. unfold float_lt. apply _. Defined.

(** The raw score [x] of the target is strictly above the raw score of
    every other candidate that is not filtered. *)
Definition strictly_maximal (raw : list score) (filt : list nat)
    (target : nat) (x : score) : Prop :=
  ∀ j y, raw !! j = Some y → j ≠ target → j ∉ filt → float_lt y x.

Definition filtering_property `{TorchSort} (raw : list score)
    (filt : list nat) (target rank : nat) : Prop :=
  ∃ masked x,
    raw !! target = Some x
    ∧ mask_scores raw filt target = Ok masked
    ∧ (∀ j, j ∈ filt → j ≠ target → masked !! j = Some NegInf)
    ∧ masked !! target = Some x
    ∧ where_first (argsort_desc masked) target = Ok rank
    ∧ (x ≠ NegInf → strictly_maximal raw filt target x → rank = 0%nat).

(** Two models score alike in evaluation mode. *)
Definition eval_equivalent (m1 m2 : model) : Prop :=
  (∀ s p o, score_triple m1 false s p o = score_triple m2 false s p o)
  ∧ (∀ s p, score_k_vs_all_rel m1 false s p = score_k_vs_all_rel m2 false s p)
  ∧ (∀ s o, score_k_vs_all_e2 m1 false s o = score_k_vs_all_e2 m2 false s o).

(** Reading a [result] back. *)
Definition is_ok {A} (r : result A) : bool :=
  match r with Ok _ => true | Raise _ => false end.

Definition get_ok {A} (d : A) (r : result A) : A :=
  match r with Ok a => a | Raise _ => d end.

(** ** Sample inputs

    Four entities and one relation. The frames hold the known-true triples
    [(0,0,1)] and [(0,0,2)]; the query is [(0,0,1)]. *)

Definition sample_scores : list (list Qc) :=
  [[qn 1; qn 5; qn 9; qn 2];
   [qn 3; qn 7; qn 1; qn 1];
   [qn 2; qn 0; qn 4; qn 1];
   [qn 1; qn 0; qn 2; qn 6]].

(** In evaluation mode the score of [(s, p, o)] is the entry [s], [o] of the
    table; in training mode every score is shifted. *)
Definition sample_score (shift : Qc) (training : bool) (s p o : nat) : Qc :=
  let x := default 0 (sample_scores !! s ≫= λ row, row !! o) in
  if training then x + shift else x.

Definition sample_model_with (shift : Qc) (mode : bool) : model :=
  {| training := mode;
     score_triple := λ b s p o, Fin (sample_score shift b s p o);
     score_k_vs_all_rel :=
       λ b s p, (λ o, Fin (sample_score shift b s p o)) <$> seq 0 4;
     score_k_vs_all_e2 :=
       λ b s o, (λ p, Fin (sample_score shift b s p o)) <$> seq 0 1 |}.

Definition sample_model : model := sample_model_with (qn 100) true.

Definition sample_storage : storage :=
  {| idx_train_df := Some [(0, 0, 1)%nat];
     idx_valid_df := Some [(0, 0, 2)%nat];
     idx_test_df := None |}.

Definition sample_data : list triple := [(0, 0, 1)%nat; (0, 0, 2)%nat].

Definition sample_query : triple := (0, 0, 1)%nat.

(** Two entities and one relation, and a model that gives the triple
    [(0, 0, 1)] the score [-inf] (the logarithm of a probability of zero,
    say). Both [(0, 0, 0)] and [(0, 0, 1)] are known to be true; the query
    is [(0, 0, 1)]. *)
Definition neg_inf_scores : list (list score) :=
  [[Fin (qn 3); NegInf];
   [Fin (qn 1); Fin (qn 2)]].

Definition neg_inf_score (s p o : nat) : score :=
  default (Fin 0) (neg_inf_scores !! s ≫= λ row, row !! o).

Definition neg_inf_model : model :=
  {| training := false;
     score_triple := λ b s p o, neg_inf_score s p o;
     score_k_vs_all_rel := λ b s p, (λ o, neg_inf_score s p o) <$> seq 0 2;
     score_k_vs_all_e2 := λ b s o, (λ p, neg_inf_score s p o) <$> seq 0 1 |}.

Definition neg_inf_data : list triple := [(0, 0, 0)%nat; (0, 0, 1)%nat].

Definition neg_inf_storage : storage :=
  {| idx_train_df := Some neg_inf_data;
     idx_valid_df := None;
     idx_test_df := None |}.

Definition neg_inf_query : triple := (0, 0, 1)%nat.

(** ** Training: what an epoch computes

    The losses of the batches of one epoch on the worker of rank [rank],
    starting after [step] optimizer steps from the parameters [sd], and the
    parameters the epoch ends with. *)
Fixpoint epoch_batch_losses `{Backend} (rank step : nat) (sd : list Qc)
    (batches : list (batch_input * tensor)) : list Qc :=
  match batches with
  | [] => []
  | (source, targets) :: batches =>
      loss_item rank step sd source targets
      :: epoch_batch_losses rank (S step)
           (optimizer_step rank step sd source targets) batches
  end.

Fixpoint epoch_final_state `{Backend} (rank step : nat) (sd : list Qc)
    (batches : list (batch_input * tensor)) : list Qc :=
  match batches with
  | [] => sd
  | (source, targets) :: batches =>
      epoch_final_state rank (S step)
        (optimizer_step rank step sd source targets) batches
  end.

(** Everything of a trainer but its model's parameters and bookkeeping is
    fixed at construction. *)
Definition same_setup (self self' : ddp_trainer) : Prop :=
  gpu_id self' = gpu_id self
  ∧ train_dataset_loader self' = train_dataset_loader self
  ∧ callbacks self' = callbacks self
  ∧ num_epochs self' = num_epochs self
  ∧ trainer_loss_history self' = trainer_loss_history self
  ∧ module_device (module (trainer_model self'))
    = module_device (module (trainer_model self)).

(** A backend to run examples with: every step adds one to each parameter,
    and the loss of a batch is the sum of the parameters before the step
    plus the rank. *)
Definition sample_backend : Backend :=
  {| optimizer_step := λ rank step sd source targets, (λ x, x + 1) <$> sd;
     loss_item := λ rank step sd source targets, qsum sd + qn rank |}.

Definition sample_tensor : tensor := {| values := [1]; on_device := Cpu |}.

(** Two batches per epoch for every rank: one of two tensors and one of
    three. *)
Definition sample_loader : data_loader :=
  {| batches_for := λ rank epoch,
       [[sample_tensor; sample_tensor];
        [sample_tensor; sample_tensor; sample_tensor]] |}.

Definition sample_module : nn_module :=
  {| state_dict := [1; 1]; loss_history := []; module_device := Cpu |}.

Definition sample_trainer (rank : nat) : ddp_trainer :=
  ddp_trainer_init sample_module sample_loader rank ["callback"] 2.

Definition sample_coordinator : torch_ddp_trainer :=
  {| attributes_num_nodes := 1;
     attributes_num_epochs := 2;
     fit_callbacks := ["callback"];
     cuda_device_count := 2 |}.

(** A call of [fit] on the sample model with no file in the working
    directory, and the process of rank 0 that it spawns. *)
Definition sample_fit : result (nn_module * files) :=
  fit (H := sample_backend) sample_coordinator sample_module sample_loader ∅.

Definition sample_worker : result (ddp_trainer * files) :=
  distributed_training (H := sample_backend) 0 2 sample_module sample_loader
    ["callback"] 2 ∅.

(** ** Well-formed queries and competing candidates *)

Global Instance Qc_inhabited : Inhabited Qc := populate 0.

(** A query triple that the k-vs-all evaluator can rank: its target (the
    relation under relation labelling, the object otherwise) and every id
    of its filter index into the score vector. *)
Definition kvsall_query_ok (m : model) (data : list triple)
    (form_of_labelling : string) (q : triple) : Prop :=
  if decide (form_of_labelling = "RelationPrediction") then
    let n := length (forward_k_vs_all_e2 m (subject q) (object q)) in
    (relation q < n)%nat
    ∧ Forall (λ i, (i < n)%nat) (relations_of data (subject q) (object q))
  else
    let n := length (forward_k_vs_all_rel m (subject q) (relation q)) in
    (object q < n)%nat
    ∧ Forall (λ i, (i < n)%nat) (objects_of data (subject q) (relation q)).

Global Instance kvsall_query_ok_dec m data form q :
  Decision (kvsall_query_ok m data form q).
Proof. unfold kvsall_query_ok. case_decide; apply _. Defined.



(** The known-true alternatives of a ranking step: the ids of the filter
    other than the target, each once. *)
Definition alternatives (filt : list nat) (target : nat) : list nat :=
  remove_dups (filter (λ j, j ≠ target) filt).

(** ** Batches a worker can unpack *)

(** A batch of two or three tensors. *)
Definition well_shaped (z : list tensor) : Prop :=
  length z = 2%nat ∨ length z = 3%nat.

(** Every batch the loader yields to the worker in an epoch is well
    shaped. *)
Definition epoch_well_shaped (loader : data_loader) (rank epoch : nat)
    : Prop :=
  Forall well_shaped (batches_for loader rank epoch).

(** A loader that hands rank 1 a batch of one tensor in epoch 1, and two
    well-shaped batches otherwise. *)
Definition faulty_loader : data_loader :=
  {| batches_for := λ rank epoch,
       if decide (rank = 1%nat ∧ epoch = 1%nat)
       then [[sample_tensor; sample_tensor]; [sample_tensor]]
       else [[sample_tensor; sample_tensor];
             [sample_tensor; sample_tensor; sample_tensor]] |}.

(** A loader over an empty training set. *)
Definition empty_loader : data_loader :=
  {| batches_for := λ rank epoch, [] |}.

(** Every batch of every epoch of a worker is well shaped. *)
Definition worker_well_shaped (loader : data_loader) (epochs rank : nat)
    : Prop :=
  Forall (epoch_well_shaped loader rank) (seq 0 epochs).

(** The number of processes [fit] spawns. *)
Definition world_size_of (self : torch_ddp_trainer) : nat :=
  attributes_num_nodes self * cuda_device_count self.

(** A coordinator on a machine without a CUDA device. *)
Definition cpu_coordinator : torch_ddp_trainer :=
  {| attributes_num_nodes := 1;
     attributes_num_epochs := 2;
     fit_callbacks := ["callback"];
     cuda_device_count := 0 |}.

(** ** Target rows of a batch *)

(** The row that has a one at every index of [cols] and a zero
    elsewhere. *)
Definition multi_hot (output_dim : nat) (cols : list nat) : list Qc :=
  (λ j, if decide (j ∈ cols) then 1 else 0) <$> seq 0 output_dim.

(** Every pair of the batch is a key of the vocabulary, and the indices
    listed for it are below [output_dim]. *)
Definition complete_vocab (er_vocab : gmap (nat * nat) (list nat))
    (output_dim : nat) (batch : list (nat * nat)) : Prop :=
  Forall (λ p, ∃ cols, er_vocab !! p = Some cols
                       ∧ Forall (λ j, (j < output_dim)%nat) cols) batch.

Definition sample_er_vocab : gmap (nat * nat) (list nat) :=
  {[ (0%nat, 0%nat) := [1%nat; 2%nat]; (1%nat, 0%nat) := [0%nat] ]}.

Definition sample_execute : execute :=
  {| batch_size := 2; model_name := "Keci"; train_set := sample_data;
     scoring_technique := "KvsAll"; neg_ratio := None |}.

(** ** Calls and endings of a training run *)

(** Every call of [trainer.fit] satisfies [Q], and an exception that ends
    the run satisfies [P]. *)
Definition exec_inv {A} (Q : event → Prop) (P : py_exn → Prop) (x : exec A)
    : Prop :=
  Forall Q (calls x) ∧ ∀ e, ending x = Raises e → P e.

(** The negative-sample ratio a call of [trainer.fit] was given. *)
Definition fit_neg_sample_ratio (ev : event) : option Z :=
  match ev with Fit _ _ dataset => neg_sample_ratio dataset end.

(** The trainer of a call of [trainer.fit]. *)
Definition fit_trainer (ev : event) : pl_trainer :=
  match ev with Fit t _ _ => t end.

(** The data module that the two training methods build. *)
Definition data_module_of (self : executor) (form_of_labelling : string)
    : standard_data_module :=
  {| train_set_idx := train_set (kge self);
     valid_set_idx := dataset_valid_set self;
     test_set_idx := dataset_test_set self;
     form := form_of_labelling;
     neg_sample_ratio := neg_ratio (kge self);
     dm_batch_size := batch_size (kge self) |}.

(** Whether a training method evaluates the fitted model at least once. *)
Definition evaluates (self : executor) : bool :=
  args_eval self
  && (bool_decide (dataset_valid_set self ≠ [])
      || bool_decide (dataset_test_set self ≠ [])).

(** The run takes the path without cross-validation. *)
Definition trains_directly (self : executor) : Prop :=
  dataset_is_valid_test_available self = true
  ∨ (args_num_folds_for_cv self < 2)%Z.

(** Externals to run examples with: every model is the sample model, named
    after [args.model]; fitting leaves the model as it is; the folds are
    the two halves of a training set of two triples. *)
Definition sample_lightning : Lightning :=
  {| select_model := λ args_model n, (sample_model, "EntityPrediction");
     name := λ m, "Keci";
     trainer_fit := λ t m dataset, m;
     kf_split := λ n_splits train_set,
       Ok [([1%nat], [0%nat]); ([0%nat], [1%nat])] |}.

Definition sample_executor (technique : string) (ratio : option Z)
    (available : bool) (folds : Z) : executor :=
  {| kge := {| batch_size := 2; model_name := "Keci";
               train_set := sample_data; scoring_technique := technique;
               neg_ratio := ratio |};
     dataset_valid_set := [sample_query];
     dataset_test_set := [];
     dataset_num_entities := 4;
     dataset_is_valid_test_available := available;
     args_eval := true;
     args_gpus := true;
     args_num_folds_for_cv := folds;
     storage_path := sample_storage;
     trainer := None |}.

(** The data module that a round of cross-validation builds. *)
Definition fold_data_module (self : executor) (form_of_labelling : string)
    (train_rows : list triple) : standard_data_module :=
  {| train_set_idx := train_rows;
     valid_set_idx := dataset_valid_set self;
     test_set_idx := dataset_test_set self;
     form := form_of_labelling;
     neg_sample_ratio := neg_ratio (kge self);
     dm_batch_size := batch_size (kge self) |}.

(** The exceptions that a k-vs-all run never ends with once the
    configuration has been checked. *)
Definition configuration_error (e : py_exn) : Prop :=
  match e with
  | AssertionError | TypeError _ | AttributeError _ | UnboundLocalError _ =>
      True
  | _ => False
  end.

(** * Proofs *)

(** ** The error monad *)

Lemma bind_Ok {A B} (f : A → result B) (r : result A) (b : B) :
  r ≫= f = Ok b ↔ ∃ a, r = Ok a ∧ f a = Ok b.
Proof.
  destruct r as [a|e]; simpl.
  - split; [intros Hf; exists a; done | intros (a' & [= <-] & Hf); done].
  - split; [done | intros (a' & [=] & _)].
Qed.

Lemma ok_of_is_ok {A} (d : A) (r : result A) :
  is_ok r = true → r = Ok (get_ok d r).
Proof. destruct r; [done | discriminate]. Qed.



(** ** Tensors *)

Lemma tensor_get_Ok {A} (t : list A) i x :
  tensor_get t i = Ok x ↔ t !! i = Some x.
Proof.
  unfold tensor_get. destruct (t !! i); split; intros [=]; by subst.
Qed.

Lemma index_fill_Ok {A} (t : list A) idxs v t' :
  index_fill t idxs v = Ok t' →
  Forall (λ i, (i < length t)%nat) idxs ∧ length t' = length t
  ∧ ∀ j, t' !! j = if decide (j ∈ idxs) then (λ _, v) <$> t !! j else t !! j.
Proof.
  revert t. induction idxs as [|i idxs IH]; intros t; simpl.
  - intros [= <-]. split; [constructor|]. done.
  - case_decide as Hi; [|done]. intros Hfill.
    apply IH in Hfill as (Hall & Hlen & Hlook).
    rewrite length_insert in Hall, Hlen.
    split; [by constructor|]. split; [done|].
    intros j. rewrite Hlook.
    destruct (decide (j = i)) as [->|Hne].
    + rewrite list_lookup_insert_eq by done.
      rewrite (decide_True (P := i ∈ i :: idxs)) by left.
      destruct (lookup_lt_is_Some_2 t i Hi) as [x ->].
      by case_decide.
    + rewrite list_lookup_insert_ne by done.
      destruct (decide (j ∈ idxs)) as [Hin|Hnin].
      * by rewrite decide_True by (by right).
      * rewrite decide_False; [done|]. by intros [?|?]%elem_of_cons.
Qed.

Lemma index_fill_total {A} (t : list A) idxs v :
  Forall (λ i, (i < length t)%nat) idxs → is_ok (index_fill t idxs v) = true.
Proof.
  revert t. induction idxs as [|i idxs IH]; intros t Hall; simpl; [done|].
  apply Forall_cons in Hall as [Hi Hall].
  rewrite decide_True by done. apply IH. by rewrite length_insert.
Qed.

Lemma where_first_Ok l x i :
  where_first l x = Ok i ↔
  l !! i = Some x ∧ ∀ j, (j < i)%nat → l !! j ≠ Some x.
Proof.
  unfold where_first. destruct (list_find _ l) as [[i' y]|] eqn:Hfind.
  - apply list_find_Some in Hfind as (Hi' & -> & Hmin). split.
    + intros [= <-]. split; [done|]. intros j Hj Hlj. by eapply Hmin.
    + intros [Hi Hfirst]. f_equal.
      destruct (Nat.lt_trichotomy i i') as [Hlt|[->|Hgt]]; [|done|].
      * by destruct (Hmin _ _ Hi Hlt).
      * by destruct (Hfirst _ Hgt).
  - apply list_find_None in Hfind. split; [done|]. intros [Hi _].
    apply list_elem_of_lookup_2 in Hi.
    by destruct (proj1 (Forall_forall _ _) Hfind _ Hi).
Qed.

Lemma where_first_total l x : x ∈ l → is_ok (where_first l x) = true.
Proof.
  intros Hin. unfold where_first.
  destruct (list_find_elem_of (λ y, y = x) l x Hin eq_refl) as [[i y] ->].
  done.
Qed.

(** ** The order on scores *)

Global Instance score_le_trans : Transitive score_le.
Proof.
  intros [|x| |] [|y| |] [|z| |]; simpl; try lia. apply Qcle_trans.
Qed.

Global Instance score_le_total : Total score_le.
Proof.
  intros [|x| |] [|y| |]; simpl; try lia. apply Qc_le_total.
Qed.

Lemma score_lt_not_le a b : score_lt a b → ¬ score_le b a.
Proof.
  destruct a as [|x| |], b as [|y| |]; simpl; intros Hlt Hle; try lia.
  by apply (Qclt_not_le _ _ Hlt).
Qed.

Lemma score_lt_NegInf x : x ≠ NegInf → score_lt NegInf x.
Proof. destruct x; simpl; [done|lia..]. Qed.

(** ** Merge sort is a [TorchSort] *)

Global Instance ge_at_trans t : Transitive (ge_at t).
Proof. intros a b c Hab Hbc. unfold ge_at in *. by etrans. Qed.

Global Instance ge_at_total t : Total (ge_at t).
Proof.
  intros a b. unfold ge_at.
  destruct (total score_le (t !!! a) (t !!! b)); auto.
Qed.

Lemma StronglySorted_lookup_lt {A} (R : A → A → Prop) l i j a b :
  StronglySorted R l → (i < j)%nat → l !! i = Some a → l !! j = Some b →
  R a b.
Proof.
  intros Hsorted. revert i j.
  induction Hsorted as [|x l Hsorted IH Hall]; intros i j Hij Hi Hj; [done|].
  destruct j as [|j]; [lia|]. simpl in Hj.
  destruct i as [|i]; simpl in Hi.
  - injection Hi as ->. apply list_elem_of_lookup_2 in Hj.
    by apply (proj1 (Forall_forall _ _) Hall).
  - apply (IH i j); [lia|done..].
Qed.

Lemma merge_argsort_perm t : merge_argsort t ≡ₚ seq 0 (length t).
Proof. apply merge_sort_Permutation. Qed.

Lemma merge_argsort_sorted t i j a b x y :
  (i < j)%nat →
  merge_argsort t !! i = Some a → merge_argsort t !! j = Some b →
  t !! a = Some x → t !! b = Some y →
  score_le y x.
Proof.
  intros Hij Hi Hj Ha Hb.
  pose proof (StronglySorted_merge_sort (ge_at t) (seq 0 (length t)))
    as Hsorted.
  pose proof (StronglySorted_lookup_lt _ _ _ _ _ _ Hsorted Hij Hi Hj) as Hge.
  unfold ge_at in Hge.
  by rewrite (list_lookup_total_correct _ _ _ Ha),
    (list_lookup_total_correct _ _ _ Hb) in Hge.
Qed.

Definition merge_torch_sort : TorchSort :=
  {| argsort_desc := merge_argsort;
     argsort_desc_perm := merge_argsort_perm;
     argsort_desc_sorted := merge_argsort_sorted |}.

(** ** Filtering and ranking *)

Section ranking.
Context `{TorchSort}.

Lemma argsort_desc_length t : length (argsort_desc t) = length t.
Proof.
  rewrite (Permutation_length (argsort_desc_perm t)). apply length_seq.
Qed.

Lemma argsort_desc_elem t a : a ∈ argsort_desc t ↔ (a < length t)%nat.
Proof. rewrite (argsort_desc_perm t), elem_of_seq. lia. Qed.

Lemma mask_scores_Ok predictions filt target masked :
  mask_scores predictions filt target = Ok masked →
  ∃ x, predictions !! target = Some x
    ∧ Forall (λ i, (i < length predictions)%nat) filt
    ∧ length masked = length predictions
    ∧ masked !! target = Some x
    ∧ (∀ j, j ≠ target → j ∈ filt → (j < length predictions)%nat →
         masked !! j = Some NegInf)
    ∧ (∀ j, j ≠ target → j ∉ filt → masked !! j = predictions !! j).
Proof.
  unfold mask_scores. intros (x & Hx%tensor_get_Ok & Hrest)%bind_Ok.
  apply bind_Ok in Hrest as (filled & Hfill & [= <-]).
  apply index_fill_Ok in Hfill as (Hall & Hlen & Hlook).
  pose proof (lookup_lt_Some _ _ _ Hx) as Htarget.
  exists x. repeat split; [done..| | | |].
  - by rewrite length_insert.
  - apply list_lookup_insert_eq. by rewrite Hlen.
  - intros j Hne Hin Hj. rewrite list_lookup_insert_ne by done.
    rewrite Hlook, decide_True by done.
    by destruct (lookup_lt_is_Some_2 _ _ Hj) as [y ->].
  - intros j Hne Hnin. rewrite list_lookup_insert_ne by done.
    by rewrite Hlook, decide_False by done.
Qed.

Lemma mask_scores_total predictions filt target :
  (target < length predictions)%nat →
  Forall (λ i, (i < length predictions)%nat) filt →
  is_ok (mask_scores predictions filt target) = true.
Proof.
  intros Htarget Hall. unfold mask_scores.
  destruct (lookup_lt_is_Some_2 _ _ Htarget) as [x Hx].
  apply tensor_get_Ok in Hx. rewrite Hx. simpl.
  pose proof (index_fill_total predictions filt NegInf Hall) as Hfill.
  by destruct (index_fill predictions filt NegInf).
Qed.

Lemma filtered_rank_Ok predictions filt target rank :
  filtered_rank predictions filt target = Ok rank →
  ∃ masked, mask_scores predictions filt target = Ok masked
    ∧ where_first (argsort_desc masked) target = Ok rank.
Proof. unfold filtered_rank. intros (masked & ? & ?)%bind_Ok. eauto. Qed.

(** A rank is a position in a permutation of the candidates. *)
Lemma filtered_rank_bound predictions filt target rank :
  filtered_rank predictions filt target = Ok rank →
  (rank < length predictions)%nat.
Proof.
  intros (masked & Hmask & Hwhere)%filtered_rank_Ok.
  apply mask_scores_Ok in Hmask as (x & _ & _ & Hlen & _).
  apply where_first_Ok in Hwhere as [Hrank _].
  apply lookup_lt_Some in Hrank.
  by rewrite argsort_desc_length, Hlen in Hrank.
Qed.

Lemma filtered_rank_total predictions filt target :
  (target < length predictions)%nat →
  Forall (λ i, (i < length predictions)%nat) filt →
  is_ok (filtered_rank predictions filt target) = true.
Proof.
  intros Htarget Hall. unfold filtered_rank.
  pose proof (mask_scores_total _ _ _ Htarget Hall) as Hok.
  destruct (mask_scores predictions filt target) as [masked|] eqn:Hmask;
    [|done].
  simpl. apply where_first_total, argsort_desc_elem.
  apply mask_scores_Ok in Hmask as (x & _ & _ & Hlen & _).
  by rewrite Hlen.
Qed.

(** A target whose score beats every other score left after masking is
    sorted to the front. *)
Lemma filtered_rank_top predictions filt target masked x :
  mask_scores predictions filt target = Ok masked →
  masked !! target = Some x →
  (∀ j y, j ≠ target → masked !! j = Some y → score_lt y x) →
  filtered_rank predictions filt target = Ok 0%nat.
Proof.
  intros Hmask Hx Hbeats. unfold filtered_rank. rewrite Hmask. simpl.
  pose proof (lookup_lt_Some _ _ _ Hx) as Htarget.
  pose proof (where_first_total (argsort_desc masked) target
                (proj2 (argsort_desc_elem _ _) Htarget)) as Hok.
  destruct (where_first (argsort_desc masked) target) as [i|] eqn:Hwhere;
    [|done].
  destruct i as [|i]; [done|]. exfalso.
  apply where_first_Ok in Hwhere as [Hi Hfirst].
  assert (0 < length (argsort_desc masked))%nat as Hlen
    by (apply lookup_lt_Some in Hi; lia).
  destruct (lookup_lt_is_Some_2 _ _ Hlen) as [a Ha].
  assert (a ≠ target) as Hne.
  { intros ->. by apply (Hfirst 0%nat); [lia|]. }
  assert (a < length masked)%nat as Halt.
  { apply argsort_desc_elem. by eapply list_elem_of_lookup_2. }
  destruct (lookup_lt_is_Some_2 _ _ Halt) as [y Hy].
  assert (score_le x y) as Hle.
  { eapply (argsort_desc_sorted masked 0 (S i)); [lia|done..]. }
  by apply (score_lt_not_le _ _ (Hbeats _ _ Hne Hy)).
Qed.
End ranking.

(** ** Score tensors and selections *)

Lemma forward_triples_tails m n s p :
  forward_triples m (replicate n s) (replicate n p) (seq 0 n)
  = (λ e, score_triple m (training m) s p e) <$> seq 0 n.
Proof.
  unfold forward_triples. apply list_eq. intros i.
  rewrite !lookup_zip_with, list_lookup_fmap.
  destruct (decide (i < n)%nat) as [Hi|Hi].
  - by rewrite !lookup_replicate_2, lookup_seq_lt by done.
  - rewrite lookup_seq_ge by lia.
    assert (replicate n s !! i = None) as ->; [|done].
    apply lookup_replicate_None. lia.
Qed.

Lemma forward_triples_heads m n p o :
  forward_triples m (seq 0 n) (replicate n p) (replicate n o)
  = (λ e, score_triple m (training m) e p o) <$> seq 0 n.
Proof.
  unfold forward_triples. apply list_eq. intros i.
  rewrite !lookup_zip_with, list_lookup_fmap.
  destruct (decide (i < n)%nat) as [Hi|Hi].
  - by rewrite !lookup_replicate_2, lookup_seq_lt by done.
  - by rewrite lookup_seq_ge by lia.
Qed.

Lemma predictions_tails_length m n s p :
  length (predictions_tails m n s p) = n.
Proof.
  unfold predictions_tails. rewrite forward_triples_tails.
  by rewrite !length_fmap, length_seq.
Qed.

Lemma predictions_heads_length m n p o :
  length (predictions_heads m n p o) = n.
Proof.
  unfold predictions_heads. rewrite forward_triples_heads.
  by rewrite !length_fmap, length_seq.
Qed.



Lemma elem_of_objects_of data s p e :
  e ∈ objects_of data s p ↔ (s, p, e) ∈ data.
Proof.
  unfold objects_of. rewrite list_elem_of_fmap. split.
  - intros ([[s' p'] e'] & -> & [[Hs Hp] Hin]%list_elem_of_filter).
    unfold subject, relation in *. simpl in *. by subst.
  - intros Hin. exists (s, p, e). split; [done|].
    by apply list_elem_of_filter.
Qed.

Lemma elem_of_subjects_of data p o e :
  e ∈ subjects_of data p o ↔ (e, p, o) ∈ data.
Proof.
  unfold subjects_of. rewrite list_elem_of_fmap. split.
  - intros ([[s' p'] e'] & -> & [[Hs Hp] Hin]%list_elem_of_filter).
    unfold object, relation in *. simpl in *. by subst.
  - intros Hin. exists (e, p, o). split; [done|].
    by apply list_elem_of_filter.
Qed.

Lemma elem_of_relations_of data s o r :
  r ∈ relations_of data s o ↔ (s, r, o) ∈ data.
Proof.
  unfold relations_of. rewrite list_elem_of_fmap. split.
  - intros ([[s' p'] e'] & -> & [[Hs Hp] Hin]%list_elem_of_filter).
    unfold object, subject in *. simpl in *. by subst.
  - intros Hin. exists (s, r, o). split; [done|].
    by apply list_elem_of_filter.
Qed.

Lemma objects_of_in_vocab ne nr data s p :
  table_in_vocab ne nr data →
  Forall (λ i, (i < ne)%nat) (objects_of data s p).
Proof.
  intros Htable. apply Forall_forall. intros e Hin%elem_of_objects_of.
  by destruct (proj1 (Forall_forall _ _) Htable _ Hin) as (_ & _ & ?).
Qed.

Lemma subjects_of_in_vocab ne nr data p o :
  table_in_vocab ne nr data →
  Forall (λ i, (i < ne)%nat) (subjects_of data p o).
Proof.
  intros Htable. apply Forall_forall. intros e Hin%elem_of_subjects_of.
  by destruct (proj1 (Forall_forall _ _) Htable _ Hin) as (? & _ & _).
Qed.

Lemma relations_of_in_vocab ne nr data s o :
  table_in_vocab ne nr data →
  Forall (λ i, (i < nr)%nat) (relations_of data s o).
Proof.
  intros Htable. apply Forall_forall. intros e Hin%elem_of_relations_of.
  by destruct (proj1 (Forall_forall _ _) Htable _ Hin) as (_ & ? & _).
Qed.

(** ** Ranks of one query triple *)

Section query_ranks.
Context `{TorchSort}.

Lemma filtering_property_holds (raw : list score) filt target :
  (target < length raw)%nat →
  Forall (λ i, (i < length raw)%nat) filt →
  ∃ rank, filtered_rank raw filt target = Ok rank
    ∧ filtering_property raw filt target rank.
Proof.
  intros Htarget Hall.
  pose proof (filtered_rank_total raw filt target Htarget Hall) as Hok.
  destruct (filtered_rank raw filt target) as [rank|] eqn:Hrank; [|done].
  exists rank. split; [done|].
  destruct (filtered_rank_Ok _ _ _ _ Hrank) as (masked & Hmask & Hwhere).
  destruct (mask_scores_Ok _ _ _ _ Hmask)
    as (x & Hx & _ & Hmlen & Hmt & Hfilt & Hkeep).
  exists masked, x. repeat split; [done..| | done | done |].
  - intros j Hin Hne. apply Hfilt; [done..|].
    by apply (proj1 (Forall_forall _ _) Hall).
  - intros Hfinite Hbest.
    assert (filtered_rank raw filt target = Ok 0%nat) as Hzero.
    { apply (filtered_rank_top _ _ _ masked x); [done..|].
      intros j y Hne Hj.
      destruct (decide (j ∈ filt)) as [Hin|Hnin].
      - rewrite Hfilt in Hj; [|done..|].
        + injection Hj as <-. by apply score_lt_NegInf.
        + by apply (proj1 (Forall_forall _ _) Hall).
      - rewrite Hkeep in Hj by done.
        by destruct (Hbest j y Hj Hne Hnin) as (_ & _ & Hlt). }
    congruence.
Qed.

Lemma lp_ranks_Ok m data n data_point h t :
  lp_ranks m data n data_point = Ok (h, t) ↔
  ∃ rh rt,
    filtered_rank (predictions_tails m n (subject data_point)
                     (relation data_point))
      (objects_of data (subject data_point) (relation data_point))
      (object data_point) = Ok rt
    ∧ filtered_rank (predictions_heads m n (relation data_point)
                       (object data_point))
        (subjects_of data (relation data_point) (object data_point))
        (subject data_point) = Ok rh
    ∧ h = S rh ∧ t = S rt.
Proof.
  unfold lp_ranks. rewrite bind_Ok. split.
  - intros (rt & Hrt & (rh & Hrh & [= <- <-])%bind_Ok).
    exists rh, rt. repeat split; [done..|lia|lia].
  - intros (rh & rt & Hrt & Hrh & -> & ->).
    exists rt. split; [done|]. rewrite Hrh. simpl.
    do 2 f_equal; lia.
Qed.

Lemma lp_ranks_total ne nr m data data_point :
  table_in_vocab ne nr data → in_vocab ne nr data_point →
  is_ok (lp_ranks m data ne data_point) = true.
Proof.
  intros Htable (Hs & Hp & Ho). unfold lp_ranks.
  pose proof (filtered_rank_total
    (predictions_tails m ne (subject data_point) (relation data_point))
    (objects_of data (subject data_point) (relation data_point))
    (object data_point)) as Htails.
  rewrite predictions_tails_length in Htails.
  specialize (Htails Ho (objects_of_in_vocab _ _ _ _ _ Htable)).
  destruct (filtered_rank (predictions_tails _ _ _ _) _ _); [|done]. simpl.
  pose proof (filtered_rank_total
    (predictions_heads m ne (relation data_point) (object data_point))
    (subjects_of data (relation data_point) (object data_point))
    (subject data_point)) as Hheads.
  rewrite predictions_heads_length in Hheads.
  specialize (Hheads Hs (subjects_of_in_vocab _ _ _ _ _ Htable)).
  by destruct (filtered_rank (predictions_heads _ _ _ _) _ _).
Qed.

(** Both ranks of a triple are positions among the entities, counted
    from one. *)
Lemma lp_ranks_bounds m data n data_point h t :
  lp_ranks m data n data_point = Ok (h, t) →
  (1 ≤ h ≤ n)%nat ∧ (1 ≤ t ≤ n)%nat.
Proof.
  intros (rh & rt & Hrt & Hrh & -> & ->)%lp_ranks_Ok.
  apply filtered_rank_bound in Hrt, Hrh.
  rewrite predictions_tails_length in Hrt.
  rewrite predictions_heads_length in Hrh. lia.
Qed.

(** The prediction vector the k-vs-all evaluator ranks, its filter and its
    target. *)
Lemma kvsall_rank_relation m data i :
  kvsall_rank m data "RelationPrediction" i
  = filtered_rank (forward_k_vs_all_e2 m (subject i) (object i))
      (relations_of data (subject i) (object i)) (relation i).
Proof. done. Qed.

Lemma kvsall_rank_entity m data form i :
  form ≠ "RelationPrediction" →
  kvsall_rank m data form i
  = filtered_rank (forward_k_vs_all_rel m (subject i) (relation i))
      (objects_of data (subject i) (relation i)) (object i).
Proof. intros Hform. unfold kvsall_rank. by rewrite decide_False. Qed.

End query_ranks.

(** ** Counting and exact arithmetic *)

Lemma qn_0 : qn 0 = 0.
Proof. apply Z2Qc_inj_0. Qed.

Lemma qn_add a b : qn (a + b) = qn a + qn b.
Proof. unfold qn. by rewrite Nat2Z.inj_add, Z2Qc_inj_add. Qed.

Lemma qn_le a b : (a ≤ b)%nat → qn a ≤ qn b.
Proof. intros Hab. unfold qn. apply (proj1 (Z2Qc_inj_le _ _)). lia. Qed.

Lemma qn_pos n : (0 < n)%nat → 0 < qn n.
Proof.
  intros Hn. unfold qn. rewrite <-Z2Qc_inj_0.
  apply (proj1 (Z2Qc_inj_lt _ _)). lia.
Qed.

Lemma qn_nonzero n : (0 < n)%nat → qn n ≠ 0.
Proof.
  intros Hn Hq. rewrite <-qn_0 in Hq. apply Z2Qc_inj in Hq. lia.
Qed.

Lemma Qcdiv_le_mono x y d : 0 < d → x ≤ y → x / d ≤ y / d.
Proof.
  intros Hd Hxy. apply (Qcmult_lt_0_le_reg_r _ _ d Hd).
  assert (d ≠ 0) as Hne by (intros ->; by apply (Qclt_not_eq 0 0)).
  by rewrite !test_field.
Qed.

Lemma Qcdiv_0_l d : 0 / d = 0.
Proof. unfold Qcdiv. apply Qcmult_0_l. Qed.

Lemma qsum_app l1 l2 : qsum (l1 ++ l2) = qsum l1 + qsum l2.
Proof.
  unfold qsum. induction l1 as [|x l1 IH]; simpl.
  - by rewrite Qcplus_0_l.
  - by rewrite IH, Qcplus_assoc.
Qed.

Lemma count_le_nil k : count_le k [] = 0%nat.
Proof. done. Qed.

Lemma count_le_cons k r rs :
  count_le k (r :: rs)
  = ((if decide (r ≤ k)%nat then 1 else 0) + count_le k rs)%nat.
Proof. unfold count_le. rewrite filter_cons. by case_decide. Qed.

Lemma count_le_mono k k' rs :
  (k ≤ k')%nat → (count_le k rs ≤ count_le k' rs)%nat.
Proof.
  intros Hk. induction rs as [|r rs IH]; [done|].
  rewrite !count_le_cons. repeat case_decide; lia.
Qed.


(** ** Loops that collect one value per element *)

Lemma mapM_result_cons {A B} (f : A → result B) x xs :
  mapM f (x :: xs) = y ← f x; k ← mapM f xs; Ok (y :: k).
Proof. done. Qed.

Lemma mapM_result_length {A B} (f : A → result B) xs ys :
  mapM f xs = Ok ys → length ys = length xs.
Proof.
  revert ys. induction xs as [|x xs IH]; intros ys.
  - by intros [= <-].
  - rewrite mapM_result_cons.
    intros (y & _ & (k & Hk & [= <-])%bind_Ok)%bind_Ok.
    simpl. f_equal. by apply IH.
Qed.

Lemma mapM_result_Forall2 {A B} (f : A → result B) xs ys :
  mapM f xs = Ok ys → Forall2 (λ x y, f x = Ok y) xs ys.
Proof.
  revert ys. induction xs as [|x xs IH]; intros ys.
  - intros [= <-]. constructor.
  - rewrite mapM_result_cons.
    intros (y & Hy & (k & Hk & [= <-])%bind_Ok)%bind_Ok.
    constructor; [done|]. by apply IH.
Qed.

Lemma mapM_result_total {A B} (f : A → result B) xs :
  Forall (λ x, is_ok (f x) = true) xs → is_ok (mapM f xs) = true.
Proof.
  induction 1 as [|x xs Hx _ IH]; [done|].
  rewrite mapM_result_cons.
  destruct (f x); [|done]. simpl. by destruct (mapM f xs).
Qed.

Lemma mapM_result_ext {A B} (f g : A → result B) xs :
  (∀ x, f x = g x) → mapM f xs = mapM g xs.
Proof.
  intros Hfg. induction xs as [|x xs IH]; [done|].
  by rewrite !mapM_result_cons, Hfg, IH.
Qed.

Lemma for_each_mapM {A B S} (f : A → result B) (g : S → B → S) xs acc :
  for_each (λ acc x, b ← f x; Ok (g acc b)) xs acc
  = bs ← mapM f xs; Ok (foldl g acc bs).
Proof.
  revert acc. induction xs as [|x xs IH]; intros acc; [done|].
  rewrite mapM_result_cons. simpl.
  destruct (f x) as [b|e]; simpl; [|done].
  rewrite IH. by destruct (mapM f xs).
Qed.

(** ** The accumulators of [evaluate_lp] *)

Lemma count_le_pair k h t :
  count_le k [h; t]
  = ((if decide (h ≤ k)%nat then 1 else 0)
     + (if decide (t ≤ k)%nat then 1 else 0))%nat.
Proof. rewrite !count_le_cons, count_le_nil. lia. Qed.

Lemma sum_list_snoc l x : sum_list (l ++ [x]) = (sum_list l + x)%nat.
Proof. induction l as [|y l IH]; simpl; lia. Qed.

Lemma hits_add_sum h t (hits : gmap nat (list nat)) level k :
  sum_list (default [] (hits_add h t hits level !! k))
  = (sum_list (default [] (hits !! k))
     + (if decide (k = level) then count_le k [h; t] else 0))%nat.
Proof.
  unfold hits_add. rewrite <-count_le_pair.
  destruct (decide (k = level)) as [->|Hne].
  - case_decide as HI.
    + rewrite lookup_insert_eq. simpl. apply sum_list_snoc.
    + lia.
  - case_decide as HI; [|lia].
    rewrite lookup_insert_ne by done. lia.
Qed.

Lemma hits_fold_sum h t levels (hits : gmap nat (list nat)) k :
  NoDup levels →
  sum_list (default [] (foldl (hits_add h t) hits levels !! k))
  = (sum_list (default [] (hits !! k))
     + (if decide (k ∈ levels) then count_le k [h; t] else 0))%nat.
Proof.
  intros Hnodup. revert hits.
  induction Hnodup as [|level levels Hnotin Hnodup IH]; intros hits;
    cbn [foldl].
  - rewrite decide_False by apply not_elem_of_nil. lia.
  - rewrite IH, hits_add_sum.
    destruct (decide (k = level)) as [->|Hne].
    + rewrite (decide_False (P := level ∈ levels)) by done.
      rewrite decide_True by left. lia.
    + destruct (decide (k ∈ levels)) as [Hin|Hnin].
      * rewrite decide_True by (by right). lia.
      * rewrite decide_False; [lia|]. by intros [?|?]%elem_of_cons.
Qed.

Lemma lp_fold_sum pairs acc k :
  k ∈ seq 1 10 →
  sum_list (default []
    (hits (foldl (λ acc ht, lp_update acc ht.1 ht.2) acc pairs) !! k))
  = (sum_list (default [] (hits acc !! k))
     + (count_le k pairs.*1 + count_le k pairs.*2))%nat.
Proof.
  intros Hk. revert acc.
  induction pairs as [|[h t] pairs IH]; intros acc; cbn [foldl].
  - rewrite !fmap_nil, !count_le_nil. lia.
  - rewrite IH, !fmap_cons.
    change (hits (lp_update acc (h, t).1 (h, t).2))
      with (foldl (hits_add h t) (hits acc) (seq 1 10)).
    rewrite hits_fold_sum by apply NoDup_seq.
    rewrite decide_True by done.
    rewrite count_le_pair, !count_le_cons. cbn [fst snd]. lia.
Qed.

Lemma lp_fold_reciprocal_ranks pairs acc :
  reciprocal_ranks (foldl (λ acc ht, lp_update acc ht.1 ht.2) acc pairs)
  = reciprocal_ranks acc ++ ((λ ht, 1 / qn ht.1 + 1 / qn ht.2) <$> pairs).
Proof.
  revert acc. induction pairs as [|[h t] pairs IH]; intros acc; simpl.
  - by rewrite app_nil_r.
  - rewrite IH. simpl. by rewrite <-app_assoc.
Qed.

Lemma lp_hit_sum (hits : gmap nat (list nat)) k denom :
  lp_hit hits k denom = qn (sum_list (default [] (hits !! k))) / denom.
Proof.
  unfold lp_hit. destruct (hits !! k); simpl; [done|].
  by rewrite qn_0, Qcdiv_0_l.
Qed.

(** [evaluate_lp] computes what the specification asks of entity
    ranking. *)
Lemma evaluate_lp_spec `{TorchSort} st num_entities m triple_idx :
  evaluate_lp st num_entities m triple_idx
  = (eval m, spec_entity_ranking st num_entities m triple_idx).
Proof.
  unfold evaluate_lp, spec_entity_ranking. f_equal.
  destruct (deserialize_index_data st) as [data|e]; simpl; [|done].
  unfold lp_body. rewrite for_each_mapM.
  destruct (mapM _ triple_idx) as [pairs|e] eqn:Hpairs; simpl; [|done].
  apply mapM_result_length in Hpairs. rewrite <-Hpairs.
  unfold lp_aggregate, py_div.
  destruct pairs as [|ht pairs].
  - rewrite (decide_True (P := qn _ = _)) by apply qn_0.
    by rewrite decide_True by done.
  - rewrite (decide_False (P := qn _ = _)) by (apply qn_nonzero; simpl; lia).
    rewrite (decide_False (P := _ = [])) by done.
    simpl. set (ps := ht :: pairs).
    assert (∀ k, k ∈ seq 1 10 →
      lp_hit (hits (foldl (λ acc ht, lp_update acc ht.1 ht.2)
                      {| hits := ∅; reciprocal_ranks := [] |} ps))
        k (qn (S (length pairs) * 2))
      = spec_hits_entity k ps) as Hhits.
    { intros k Hk. rewrite lp_hit_sum, lp_fold_sum by done. simpl.
      rewrite lookup_empty. simpl. unfold spec_hits_entity.
      do 2 f_equal. subst ps. simpl. lia. }
    rewrite !Hhits by (apply elem_of_seq; lia).
    rewrite lp_fold_reciprocal_ranks. simpl.
    unfold spec_mrr_entity. do 3 f_equal. subst ps. simpl. f_equal. lia.
Qed.

(** ** The accumulators of [evaluate_lp_k_vs_all] *)

Lemma hits_append_fold rank levels (hits : list (list Qc)) k :
  NoDup levels →
  foldl (hits_append rank) hits levels !! k
  = if decide (k ∈ levels ∧ (rank ≤ k)%nat)
    then (λ l, l ++ [1]) <$> hits !! k
    else hits !! k.
Proof.
  intros Hnodup. revert hits.
  induction Hnodup as [|level levels Hnotin Hnodup IH]; intros hits;
    cbn [foldl].
  - rewrite decide_False; [done|]. by intros [?%not_elem_of_nil _].
  - rewrite IH. unfold hits_append.
    destruct (decide (k = level)) as [->|Hne].
    + rewrite (decide_False (P := level ∈ levels ∧ _)) by (by intros [? _]).
      destruct (decide (rank ≤ level)%nat) as [Hle|Hgt].
      * rewrite decide_True by (split; [left|done]).
        apply list_lookup_alter_eq.
      * rewrite decide_False; [done|]. by intros [_ ?].
    + assert ((if decide (rank ≤ level)%nat
               then alter (λ l, l ++ [1]) level hits else hits) !! k
              = hits !! k) as ->.
      { destruct (decide (rank ≤ level)%nat); [|done].
        by rewrite list_lookup_alter_ne by congruence. }
      destruct (decide (k ∈ levels ∧ (rank ≤ k)%nat)) as [[Hin Hle]|Hn].
      * by rewrite decide_True by (split; [by right|done]).
      * rewrite decide_False; [done|].
        intros [[?|?]%elem_of_cons ?]; [done|]. by apply Hn.
Qed.

Lemma kvsall_fold_hits rs acc k l :
  k ∈ seq 0 10 →
  hits_lists acc !! k = Some l →
  ∃ l', hits_lists (foldl kvsall_update acc rs) !! k = Some l'
    ∧ qsum l' = qsum l + qn (count_le k rs).
Proof.
  intros Hk. revert acc l.
  induction rs as [|r rs IH]; intros acc l Hl; cbn [foldl].
  - exists l. split; [done|]. by rewrite count_le_nil, qn_0, Qcplus_0_r.
  - assert (hits_lists (kvsall_update acc r) !! k
            = Some (if decide (r ≤ k)%nat then l ++ [1] else l)) as Hstep.
    { unfold kvsall_update. cbn [hits_lists].
      rewrite hits_append_fold by apply NoDup_seq. rewrite Hl.
      destruct (decide (r ≤ k)%nat) as [Hle|Hgt].
      - by rewrite decide_True by done.
      - rewrite decide_False; [done|]. by intros [_ ?]. }
    destruct (IH _ _ Hstep) as (l' & Hl' & Hsum).
    exists l'. split; [done|]. rewrite Hsum, count_le_cons.
    case_decide.
    + rewrite qsum_app, qn_add. unfold qsum at 2. cbn [foldr].
      by rewrite Qcplus_0_r, <-Qcplus_assoc, <-Z2Qc_inj_1.
    + by rewrite qn_add, qn_0, Qcplus_0_l.
Qed.

Lemma kvsall_fold_ranks rs acc :
  ranks (foldl kvsall_update acc rs)
  = ranks acc ++ ((λ r, (r + 1)%nat) <$> rs).
Proof.
  revert acc. induction rs as [|r rs IH]; intros acc; cbn [foldl].
  - by rewrite fmap_nil, app_nil_r.
  - rewrite IH, fmap_cons. unfold kvsall_update. cbn [ranks].
    by rewrite <-app_assoc.
Qed.

Lemma count_le_succ k rs :
  count_le (S k) ((λ r, (r + 1)%nat) <$> rs) = count_le k rs.
Proof.
  induction rs as [|r rs IH]; [done|].
  rewrite fmap_cons, !count_le_cons, IH. repeat case_decide; lia.
Qed.

(** [evaluate_lp_k_vs_all] ranks once per triple. *)
Lemma evaluate_lp_k_vs_all_spec `{TorchSort} st m triple_idx form :
  evaluate_lp_k_vs_all st m triple_idx form
  = (eval m, spec_single_ranking st m triple_idx form).
Proof.
  unfold evaluate_lp_k_vs_all, spec_single_ranking. f_equal.
  destruct (deserialize_index_data st) as [data|e]; simpl; [|done].
  unfold kvsall_body. rewrite for_each_mapM.
  destruct (mapM _ triple_idx) as [rs|e] eqn:Hrs; simpl; [|done].
  apply mapM_result_length in Hrs. rewrite <-Hrs.
  unfold kvsall_aggregate, py_div.
  destruct rs as [|r rs].
  - by rewrite (decide_True (P := qn _ = _)) by apply qn_0.
  - rewrite !(decide_False (P := qn _ = _))
      by (apply qn_nonzero; simpl; lia).
    set (rs' := r :: rs). set (acc0 := {| hits_lists := _; ranks := _ |}).
    assert (∀ k, k ∈ seq 0 10 →
      qsum (hits_lists (foldl kvsall_update acc0 rs') !!! k)
        / qn (length rs')
      = spec_hits_single (S k) ((λ r, (r + 1)%nat) <$> rs')) as Hhits.
    { intros k Hk.
      destruct (kvsall_fold_hits rs' acc0 k [] Hk) as (l' & Hl' & Hsum).
      { change (hits_lists acc0) with (replicate 10 ([] : list Qc)).
        apply lookup_replicate_2. apply elem_of_seq in Hk. lia. }
      rewrite (list_lookup_total_correct _ _ _ Hl'), Hsum.
      unfold spec_hits_single. simpl qsum.
      by rewrite Qcplus_0_l, count_le_succ, length_fmap. }
    simpl. rewrite !Hhits by (apply elem_of_seq; lia).
    unfold np_mean_reciprocal. by rewrite kvsall_fold_ranks.
Qed.

(** ** The filtering property *)

Lemma predictions_tails_eval m n s p :
  predictions_tails (eval m) n s p
  = (λ e, score_triple m false s p e) <$> seq 0 n.
Proof. unfold predictions_tails. by rewrite forward_triples_tails. Qed.

Lemma predictions_heads_eval m n p o :
  predictions_heads (eval m) n p o
  = (λ e, score_triple m false e p o) <$> seq 0 n.
Proof. unfold predictions_heads. by rewrite forward_triples_heads. Qed.

(** C1, as the code has it. In filtered evaluation of a query triple
    [(s, p, o)] whose ids lie in the vocabulary, the filters are the
    known-true completions retrieved from the train+valid+test frame by the
    fixed pair. Both rankings of [evaluate_lp] (tails with [(s, p)] fixed,
    heads with [(p, o)] fixed) and both rankings of [evaluate_lp_k_vs_all]
    (objects with [(s, p)] fixed, relations with [(s, o)] fixed) return a
    rank and have the filtering property: before sorting, every known-true
    alternative holds [-inf] and the true answer holds its raw score,
    whatever float that is; and the true answer is ranked first (reported
    rank 1) whenever its raw score is not [-inf] and is strictly above every
    other candidate that is not filtered, however many alternatives the
    frame holds. *)
Theorem filtered_true_answer_ranks_first `{TorchSort} st num_entities
    num_relations m data s p o :
  deserialize_index_data st = Ok data →
  table_in_vocab num_entities num_relations data →
  in_vocab num_entities num_relations (s, p, o) →
  (∀ e, e ∈ objects_of data s p ↔ (s, p, e) ∈ data)
  ∧ (∀ e, e ∈ subjects_of data p o ↔ (e, p, o) ∈ data)
  ∧ (∀ r, r ∈ relations_of data s o ↔ (s, r, o) ∈ data)
  ∧ (∃ head_position tail_position,
       lp_ranks (eval m) data num_entities (s, p, o)
       = Ok (S head_position, S tail_position)
       ∧ filtering_property
           ((λ e, score_triple m false s p e) <$> seq 0 num_entities)
           (objects_of data s p) o tail_position
       ∧ filtering_property
           ((λ e, score_triple m false e p o) <$> seq 0 num_entities)
           (subjects_of data p o) s head_position)
  ∧ (∀ form_of_labelling,
       form_of_labelling ≠ "RelationPrediction" →
       length (score_k_vs_all_rel m false s p) = num_entities →
       ∃ position,
         kvsall_rank (eval m) data form_of_labelling (s, p, o) = Ok position
         ∧ filtering_property (score_k_vs_all_rel m false s p)
             (objects_of data s p) o position)
  ∧ (length (score_k_vs_all_e2 m false s o) = num_relations →
     ∃ position,
       kvsall_rank (eval m) data "RelationPrediction" (s, p, o) = Ok position
       ∧ filtering_property (score_k_vs_all_e2 m false s o)
           (relations_of data s o) p position).
Proof.
  intros _ Htable (Hs & Hp & Ho). unfold subject, relation, object in *.
  simpl in Hs, Hp, Ho.
  split; [apply elem_of_objects_of|]. split; [apply elem_of_subjects_of|].
  split; [apply elem_of_relations_of|].
  pose proof (objects_of_in_vocab _ _ _ s p Htable) as Hobjects.
  pose proof (subjects_of_in_vocab _ _ _ p o Htable) as Hsubjects.
  pose proof (relations_of_in_vocab _ _ _ s o Htable) as Hrelations.
  split; [|split].
  - destruct (filtering_property_holds
      ((λ e, score_triple m false s p e) <$> seq 0 num_entities)
      (objects_of data s p) o) as (rt & Hrt & Hpt);
      [by rewrite length_fmap, length_seq..|].
    destruct (filtering_property_holds
      ((λ e, score_triple m false e p o) <$> seq 0 num_entities)
      (subjects_of data p o) s) as (rh & Hrh & Hph);
      [by rewrite length_fmap, length_seq..|].
    exists rh, rt. split; [|done].
    apply lp_ranks_Ok. exists rh, rt.
    unfold subject, relation, object. simpl.
    by rewrite predictions_tails_eval, predictions_heads_eval.
  - intros form Hform Hlen.
    destruct (filtering_property_holds (score_k_vs_all_rel m false s p)
      (objects_of data s p) o) as (r & Hr & Hpr); [by rewrite Hlen..|].
    exists r. split; [|done]. by rewrite kvsall_rank_entity.
  - intros Hlen.
    destruct (filtering_property_holds (score_k_vs_all_e2 m false s o)
      (relations_of data s o) p) as (r & Hr & Hpr); [by rewrite Hlen..|].
    exists r. split; [|done]. by rewrite kvsall_rank_relation.
Qed.

Lemma filtered_true_answer_ranks_first_witness :
  deserialize_index_data sample_storage = Ok sample_data
  ∧ table_in_vocab 4 1 sample_data
  ∧ in_vocab 4 1 sample_query
  ∧ ∃ head_position tail_position,
      lp_ranks (H := merge_torch_sort) (eval sample_model) sample_data 4
        sample_query
      = Ok (S head_position, S tail_position)
      ∧ filtering_property (H := merge_torch_sort)
          ((λ e, score_triple sample_model false 0 0 e) <$> seq 0 4)
          (objects_of sample_data 0 0) 1 tail_position.
Proof.
  assert (table_in_vocab 4 1 sample_data) as Htable.
  { unfold table_in_vocab, sample_data, in_vocab, subject, relation, object.
    repeat constructor; simpl; lia. }
  assert (in_vocab 4 1 sample_query) as Hquery.
  { unfold sample_query, in_vocab, subject, relation, object.
    repeat split; simpl; lia. }
  split; [reflexivity|]. split; [exact Htable|]. split; [exact Hquery|].
  destruct (filtered_true_answer_ranks_first (H := merge_torch_sort)
              sample_storage 4 1 sample_model sample_data 0 0 1
              eq_refl Htable Hquery)
    as (_ & _ & _ & (rh & rt & Hranks & Htail & _) & _).
  exists rh, rt. split; [exact Hranks | exact Htail].
Defined.

(** C1 as stated fails for a true answer whose raw score is [-inf]. On the
    query [(0, 0, 1)] the tail scores are [3] for entity 0 and [-inf] for
    the true answer 1, and entity 0 is a known-true alternative. No other
    candidate is left unfiltered, so the true answer is strictly maximal
    among the candidates that are not filtered. The mask writes [-inf] over
    the score of entity 0 and writes the raw [-inf] of the true answer
    back: the two tie, the sort keeps entity 0 in front, and both
    evaluators report the tail rank 2, not 1. *)
Lemma raw_neg_inf_answer_ranked_second :
  deserialize_index_data neg_inf_storage = Ok neg_inf_data
  ∧ table_in_vocab 2 1 neg_inf_data
  ∧ in_vocab 2 1 neg_inf_query
  ∧ (λ e, score_triple neg_inf_model false 0 0 e) <$> seq 0 2
    = [Fin (qn 3); NegInf]
  ∧ objects_of neg_inf_data 0 0 = [0; 1]%nat
  ∧ strictly_maximal [Fin (qn 3); NegInf] [0; 1]%nat 1 NegInf
  ∧ mask_scores (predictions_tails (eval neg_inf_model) 2 0 0)
      (objects_of neg_inf_data 0 0) 1
    = Ok [NegInf; NegInf]
  ∧ (∃ h, lp_ranks (H := merge_torch_sort) (eval neg_inf_model)
            neg_inf_data 2 neg_inf_query = Ok (h, 2%nat))
  ∧ ranks
      <$> for_each (kvsall_body (H := merge_torch_sort) (eval neg_inf_model)
                      neg_inf_data "EntityPrediction") [neg_inf_query]
            {| hits_lists := replicate 10 []; ranks := [] |}
    = Ok [2%nat].
Proof.
  split; [reflexivity|]. split.
  { unfold table_in_vocab, neg_inf_data, in_vocab, subject, relation, object.
    repeat constructor; simpl; lia. }
  split.
  { unfold neg_inf_query, in_vocab, subject, relation, object.
    repeat split; simpl; lia. }
  split; [apply (bool_decide_unpack _); by vm_compute|].
  split; [reflexivity|]. split.
  { intros j y Hj Hne Hnin. exfalso. apply Hnin.
    destruct j as [|[|j]]; [by left|by right; left|done]. }
  split; [apply (bool_decide_unpack _); by vm_compute|].
  split; [exists 2%nat; by vm_compute|].
  by vm_compute.
Qed.

(** The scenario of the specification: entity 2 scores highest for
    [(0, 0, ?)] but is a known-true alternative, so the true answer 1, best
    among the entities 0, 1 and 3, gets tail rank 1 from both evaluators;
    its head rank is 2. *)
Example scenario_filtered_rank :
  lp_ranks (H := merge_torch_sort) (eval sample_model) sample_data 4
    sample_query = Ok (2%nat, 1%nat)
  ∧ kvsall_rank (H := merge_torch_sort) (eval sample_model) sample_data
      "EntityPrediction" sample_query = Ok 0%nat
  ∧ mask_scores (predictions_tails (eval sample_model) 4 0 0)
      (objects_of sample_data 0 0) 1
    = Ok [Fin (qn 1); Fin (qn 5); NegInf; Fin (qn 2)].
Proof. by vm_compute. Qed.

(** ** Bounds on the ranks *)





(** ** Aggregate metrics *)

Lemma spec_entity_ranking_Ok `{TorchSort} st num_entities m triple_idx r :
  spec_entity_ranking st num_entities m triple_idx = Ok r →
  ∃ data pairs,
    deserialize_index_data st = Ok data
    ∧ mapM (lp_ranks (eval m) data num_entities) triple_idx = Ok pairs
    ∧ length pairs = length triple_idx
    ∧ pairs ≠ []
    ∧ r = {| H_at_1 := spec_hits_entity 1 pairs;
             H_at_3 := spec_hits_entity 3 pairs;
             H_at_10 := spec_hits_entity 10 pairs;
             MRR := spec_mrr_entity pairs |}.
Proof.
  unfold spec_entity_ranking.
  intros (data & Hdata & (pairs & Hpairs & Hr)%bind_Ok)%bind_Ok.
  exists data, pairs. case_decide as Hne; [done|]. injection Hr as <-.
  repeat split; [done..| |done]. by eapply mapM_result_length.
Qed.

Lemma spec_single_ranking_Ok `{TorchSort} st m triple_idx form r :
  spec_single_ranking st m triple_idx form = Ok r →
  ∃ data positions,
    deserialize_index_data st = Ok data
    ∧ mapM (kvsall_rank (eval m) data form) triple_idx = Ok positions
    ∧ length positions = length triple_idx
    ∧ positions ≠ []
    ∧ r = {| H_at_1 := spec_hits_single 1 ((λ r, (r + 1)%nat) <$> positions);
             H_at_3 := spec_hits_single 3 ((λ r, (r + 1)%nat) <$> positions);
             H_at_10 :=
               spec_hits_single 10 ((λ r, (r + 1)%nat) <$> positions);
             MRR := spec_mrr_single ((λ r, (r + 1)%nat) <$> positions) |}.
Proof.
  unfold spec_single_ranking.
  intros (data & Hdata & (rs & Hrs & Hr)%bind_Ok)%bind_Ok.
  exists data, rs. simpl in Hr. case_decide as Hne; [done|].
  injection Hr as <-.
  split; [done|]. split; [done|].
  split; [by eapply mapM_result_length|]. split; [|done].
  intros ->. by apply Hne.
Qed.

Lemma spec_hits_entity_mono k k' pairs :
  (k ≤ k')%nat → pairs ≠ [] →
  spec_hits_entity k pairs ≤ spec_hits_entity k' pairs.
Proof.
  intros Hk Hne. unfold spec_hits_entity. apply Qcdiv_le_mono.
  - apply qn_pos. destruct pairs; [done|]. simpl. lia.
  - apply qn_le.
    pose proof (count_le_mono k k' pairs.*1 Hk).
    pose proof (count_le_mono k k' pairs.*2 Hk). lia.
Qed.

Lemma spec_hits_single_mono k k' rs :
  (k ≤ k')%nat → rs ≠ [] →
  spec_hits_single k rs ≤ spec_hits_single k' rs.
Proof.
  intros Hk Hne. unfold spec_hits_single. apply Qcdiv_le_mono.
  - apply qn_pos. destruct rs; [done|]. simpl. lia.
  - apply qn_le. by apply count_le_mono.
Qed.

(** On a well-formed input the evaluators return: some frame is stored, the
    frames and the query triples have their ids in the vocabulary, there is
    at least one query triple, and (for the k-vs-all evaluator) the score
    vectors have one entry per candidate. *)
Lemma evaluate_lp_total `{TorchSort} st num_entities num_relations m data
    triple_idx :
  deserialize_index_data st = Ok data →
  table_in_vocab num_entities num_relations data →
  Forall (in_vocab num_entities num_relations) triple_idx →
  triple_idx ≠ [] →
  is_ok (snd (evaluate_lp st num_entities m triple_idx)) = true.
Proof.
  intros Hdata Htable Hqueries Hne. rewrite evaluate_lp_spec. simpl.
  unfold spec_entity_ranking. rewrite Hdata. simpl.
  pose proof (mapM_result_total (lp_ranks (eval m) data num_entities)
                triple_idx) as Hok.
  destruct (mapM _ triple_idx) as [pairs|e] eqn:Hpairs; simpl.
  - apply mapM_result_length in Hpairs.
    rewrite decide_False; [done|].
    intros ->. by destruct triple_idx.
  - apply Hok. eapply Forall_impl; [exact Hqueries|].
    intros q Hq. by eapply lp_ranks_total.
Qed.

Lemma evaluate_lp_k_vs_all_total `{TorchSort} st num_entities num_relations
    m data triple_idx form_of_labelling :
  deserialize_index_data st = Ok data →
  table_in_vocab num_entities num_relations data →
  Forall (in_vocab num_entities num_relations) triple_idx →
  triple_idx ≠ [] →
  Forall (λ q,
            length (score_k_vs_all_rel m false (subject q) (relation q))
            = num_entities
            ∧ length (score_k_vs_all_e2 m false (subject q) (object q))
              = num_relations) triple_idx →
  is_ok (snd (evaluate_lp_k_vs_all st m triple_idx form_of_labelling))
  = true.
Proof.
  intros Hdata Htable Hqueries Hne Hlens.
  rewrite evaluate_lp_k_vs_all_spec. simpl.
  unfold spec_single_ranking. rewrite Hdata. simpl.
  pose proof (mapM_result_total
                (kvsall_rank (eval m) data form_of_labelling) triple_idx)
    as Hok.
  destruct (mapM _ triple_idx) as [rs|e] eqn:Hrs; simpl.
  - apply mapM_result_length in Hrs.
    rewrite decide_False; [done|].
    intros Hnil%fmap_nil_inv. subst rs. by destruct triple_idx.
  - apply Hok. apply Forall_forall. intros q Hin.
    destruct (proj1 (Forall_forall _ _) Hqueries _ Hin) as (Hs & Hp & Ho).
    destruct (proj1 (Forall_forall _ _) Hlens _ Hin) as [Hrel He2].
    unfold kvsall_rank. case_decide.
    + apply filtered_rank_total.
      * by unfold forward_k_vs_all_e2; simpl; rewrite He2.
      * unfold forward_k_vs_all_e2. simpl.
        rewrite He2. by eapply relations_of_in_vocab.
    + apply filtered_rank_total.
      * by unfold forward_k_vs_all_rel; simpl; rewrite Hrel.
      * unfold forward_k_vs_all_rel. simpl.
        rewrite Hrel. by eapply objects_of_in_vocab.
Qed.

(** C6. Whatever an evaluator returns, from either entry point and under
    either labelling, satisfies H@1 <= H@3 <= H@10. *)
Theorem hits_monotone `{TorchSort} st num_entities m triple_idx
    form_of_labelling r :
  snd (evaluate_lp st num_entities m triple_idx) = Ok r
  ∨ snd (evaluate_lp_k_vs_all st m triple_idx form_of_labelling) = Ok r →
  H_at_1 r ≤ H_at_3 r ∧ H_at_3 r ≤ H_at_10 r.
Proof.
  intros [Hr|Hr].
  - rewrite evaluate_lp_spec in Hr. simpl in Hr.
    apply spec_entity_ranking_Ok in Hr
      as (data & pairs & _ & _ & _ & Hne & ->).
    simpl. split; apply spec_hits_entity_mono; (lia || done).
  - rewrite evaluate_lp_k_vs_all_spec in Hr. simpl in Hr.
    apply spec_single_ranking_Ok in Hr
      as (data & rs & _ & _ & _ & Hne & ->).
    simpl. split; apply spec_hits_single_mono;
      (lia || by destruct rs).
Qed.

Lemma hits_monotone_witness :
  ∃ r,
    snd (evaluate_lp (H := merge_torch_sort) sample_storage 4 sample_model
           [sample_query]) = Ok r
    ∧ H_at_1 r ≤ H_at_3 r ∧ H_at_3 r ≤ H_at_10 r.
Proof.
  assert (is_ok (snd (evaluate_lp (H := merge_torch_sort) sample_storage 4
                        sample_model [sample_query])) = true) as Hok.
  { vm_compute. reflexivity. }
  apply (ok_of_is_ok (Results 0 0 0 0)) in Hok.
  eexists. split; [exact Hok|].
  apply (hits_monotone (H := merge_torch_sort) sample_storage 4 sample_model
           [sample_query] "EntityPrediction").
  left. exact Hok.
Defined.

(** C2, as the code has it. [evaluate_lp] computes a head rank and a tail
    rank for every query triple, counts both in every Hits@K and divides by
    twice the number of triples. [evaluate_lp_k_vs_all] computes one rank per
    query triple under either labelling (in entity mode the rank of the
    object with [(s, p)] fixed; no head rank), counts it once and divides by
    the number of triples. *)
Theorem hits_tallies_and_denominators `{TorchSort} st num_entities m
    triple_idx form_of_labelling :
  (∀ r, snd (evaluate_lp st num_entities m triple_idx) = Ok r →
     ∃ data pairs,
       deserialize_index_data st = Ok data
       ∧ Forall2 (λ q ht, lp_ranks (eval m) data num_entities q = Ok ht)
           triple_idx pairs
       ∧ H_at_1 r = qn (count_le 1 pairs.*1 + count_le 1 pairs.*2)
                    / qn (2 * length triple_idx)
       ∧ H_at_3 r = qn (count_le 3 pairs.*1 + count_le 3 pairs.*2)
                    / qn (2 * length triple_idx)
       ∧ H_at_10 r = qn (count_le 10 pairs.*1 + count_le 10 pairs.*2)
                     / qn (2 * length triple_idx))
  ∧ (∀ r,
       snd (evaluate_lp_k_vs_all st m triple_idx form_of_labelling) = Ok r →
       ∃ data positions,
         deserialize_index_data st = Ok data
         ∧ Forall2 (λ q position,
                      kvsall_rank (eval m) data form_of_labelling q
                      = Ok position)
             triple_idx positions
         ∧ H_at_1 r = qn (count_le 1 ((λ r, (r + 1)%nat) <$> positions))
                      / qn (length triple_idx)
         ∧ H_at_3 r = qn (count_le 3 ((λ r, (r + 1)%nat) <$> positions))
                      / qn (length triple_idx)
         ∧ H_at_10 r = qn (count_le 10 ((λ r, (r + 1)%nat) <$> positions))
                       / qn (length triple_idx)).
Proof.
  split; intros r Hr.
  - rewrite evaluate_lp_spec in Hr. simpl in Hr.
    apply spec_entity_ranking_Ok in Hr
      as (data & pairs & Hdata & Hpairs & Hlen & _ & ->).
    exists data, pairs. unfold spec_hits_entity. rewrite Hlen. simpl.
    repeat split; [done|by apply mapM_result_Forall2].
  - rewrite evaluate_lp_k_vs_all_spec in Hr. simpl in Hr.
    apply spec_single_ranking_Ok in Hr
      as (data & rs & Hdata & Hrs & Hlen & _ & ->).
    exists data, rs. unfold spec_hits_single.
    rewrite length_fmap, Hlen. simpl.
    repeat split; [done|by apply mapM_result_Forall2].
Qed.

Lemma hits_tallies_and_denominators_witness :
  ∃ r data pairs,
    snd (evaluate_lp (H := merge_torch_sort) sample_storage 4 sample_model
           [sample_query]) = Ok r
    ∧ deserialize_index_data sample_storage = Ok data
    ∧ Forall2 (λ q ht, lp_ranks (H := merge_torch_sort) (eval sample_model)
                         data 4 q = Ok ht)
        [sample_query] pairs
    ∧ H_at_1 r = qn (count_le 1 pairs.*1 + count_le 1 pairs.*2) / qn 2.
Proof.
  assert (is_ok (snd (evaluate_lp (H := merge_torch_sort) sample_storage 4
                        sample_model [sample_query])) = true) as Hok.
  { vm_compute. reflexivity. }
  apply (ok_of_is_ok (Results 0 0 0 0)) in Hok.
  destruct (hits_tallies_and_denominators (H := merge_torch_sort)
              sample_storage 4 sample_model [sample_query]
              "EntityPrediction") as [Hlp _].
  destruct (Hlp _ Hok) as (data & pairs & Hdata & Hpairs & H1 & _).
  eexists _, data, pairs. split; [exact Hok|].
  split; [exact Hdata|]. split; [exact Hpairs|]. exact H1.
Defined.

(** C2 as stated fails for the entity ranking of [evaluate_lp_k_vs_all]: on
    the sample query the tail rank is 1 and the head rank is 2, so the
    specification's Hits@1 is 1/2, while the k-vs-all evaluator, which
    tallies the tail rank alone over one triple, returns 1. *)
Lemma kvsall_entity_hits_differ :
  ∃ r r',
    snd (evaluate_lp_k_vs_all (H := merge_torch_sort) sample_storage
           sample_model [sample_query] "EntityPrediction") = Ok r
    ∧ spec_entity_ranking (H := merge_torch_sort) sample_storage 4
        sample_model [sample_query] = Ok r'
    ∧ H_at_1 r = 1
    ∧ H_at_1 r' = 1 / qn 2
    ∧ H_at_1 r ≠ H_at_1 r'.
Proof.
  eexists _, _.
  split; [apply (ok_of_is_ok (Results 0 0 0 0)); vm_compute; reflexivity|].
  split; [apply (ok_of_is_ok (Results 0 0 0 0)); vm_compute; reflexivity|].
  split; [apply Qc_is_canon; vm_compute; reflexivity|].
  split; [apply Qc_is_canon; vm_compute; reflexivity|].
  intros Heq. apply (f_equal this) in Heq. vm_compute in Heq. discriminate.
Qed.

(** C5, as the code has it. The MRR of [evaluate_lp] is the sum over the
    query triples of [1/head_rank + 1/tail_rank] divided by twice their
    number. The MRR of [evaluate_lp_k_vs_all] is, under either labelling,
    the arithmetic mean over the query triples of the reciprocal of the one
    rank it records per triple (the relation rank in relation mode, the tail
    rank in entity mode). *)
Theorem mean_reciprocal_rank_formula `{TorchSort} st num_entities m
    triple_idx form_of_labelling :
  (∀ r, snd (evaluate_lp st num_entities m triple_idx) = Ok r →
     ∃ data pairs,
       deserialize_index_data st = Ok data
       ∧ Forall2 (λ q ht, lp_ranks (eval m) data num_entities q = Ok ht)
           triple_idx pairs
       ∧ MRR r = qsum ((λ ht, 1 / qn ht.1 + 1 / qn ht.2) <$> pairs)
                 / qn (2 * length triple_idx))
  ∧ (∀ r,
       snd (evaluate_lp_k_vs_all st m triple_idx form_of_labelling) = Ok r →
       ∃ data positions,
         deserialize_index_data st = Ok data
         ∧ Forall2 (λ q position,
                      kvsall_rank (eval m) data form_of_labelling q
                      = Ok position)
             triple_idx positions
         ∧ MRR r = qsum ((λ position, 1 / qn (position + 1)) <$> positions)
                   / qn (length triple_idx)).
Proof.
  split; intros r Hr.
  - rewrite evaluate_lp_spec in Hr. simpl in Hr.
    apply spec_entity_ranking_Ok in Hr
      as (data & pairs & Hdata & Hpairs & Hlen & _ & ->).
    exists data, pairs. unfold spec_mrr_entity. rewrite Hlen. simpl.
    repeat split; [done|by apply mapM_result_Forall2].
  - rewrite evaluate_lp_k_vs_all_spec in Hr. simpl in Hr.
    apply spec_single_ranking_Ok in Hr
      as (data & rs & Hdata & Hrs & Hlen & _ & ->).
    exists data, rs. unfold spec_mrr_single.
    rewrite length_fmap, Hlen, <-list_fmap_compose. simpl.
    repeat split; [done|by apply mapM_result_Forall2].
Qed.

Lemma mean_reciprocal_rank_formula_witness :
  ∃ r data pairs,
    snd (evaluate_lp (H := merge_torch_sort) sample_storage 4 sample_model
           [sample_query]) = Ok r
    ∧ deserialize_index_data sample_storage = Ok data
    ∧ Forall2 (λ q ht, lp_ranks (H := merge_torch_sort) (eval sample_model)
                         data 4 q = Ok ht)
        [sample_query] pairs
    ∧ MRR r = qsum ((λ ht, 1 / qn ht.1 + 1 / qn ht.2) <$> pairs) / qn 2.
Proof.
  assert (is_ok (snd (evaluate_lp (H := merge_torch_sort) sample_storage 4
                        sample_model [sample_query])) = true) as Hok.
  { vm_compute. reflexivity. }
  apply (ok_of_is_ok (Results 0 0 0 0)) in Hok.
  destruct (mean_reciprocal_rank_formula (H := merge_torch_sort)
              sample_storage 4 sample_model [sample_query]
              "EntityPrediction") as [Hlp _].
  destruct (Hlp _ Hok) as (data & pairs & Hdata & Hpairs & Hmrr).
  eexists _, data, pairs. split; [exact Hok|].
  split; [exact Hdata|]. split; [exact Hpairs|]. exact Hmrr.
Defined.

(** C5 as stated fails for the entity ranking of [evaluate_lp_k_vs_all]: on
    the sample query (tail rank 1, head rank 2) the specification's MRR is
    (1/2 + 1/1) / 2 = 3/4, while the k-vs-all evaluator returns the mean of
    the reciprocal tail rank alone, 1. *)
Lemma kvsall_entity_mrr_differs :
  ∃ r r',
    snd (evaluate_lp_k_vs_all (H := merge_torch_sort) sample_storage
           sample_model [sample_query] "EntityPrediction") = Ok r
    ∧ spec_entity_ranking (H := merge_torch_sort) sample_storage 4
        sample_model [sample_query] = Ok r'
    ∧ MRR r = 1
    ∧ MRR r' = qn 3 / qn 4
    ∧ MRR r ≠ MRR r'.
Proof.
  eexists _, _.
  split; [apply (ok_of_is_ok (Results 0 0 0 0)); vm_compute; reflexivity|].
  split; [apply (ok_of_is_ok (Results 0 0 0 0)); vm_compute; reflexivity|].
  split; [apply Qc_is_canon; vm_compute; reflexivity|].
  split; [apply Qc_is_canon; vm_compute; reflexivity|].
  intros Heq. apply (f_equal this) in Heq. vm_compute in Heq. discriminate.
Qed.

(** ** Determinism *)

Lemma lp_ranks_eval_equivalent `{TorchSort} m1 m2 data n q :
  eval_equivalent m1 m2 →
  lp_ranks (eval m1) data n q = lp_ranks (eval m2) data n q.
Proof.
  intros (Htriple & _ & _). unfold lp_ranks.
  rewrite !predictions_tails_eval, !predictions_heads_eval.
  assert (∀ s p, (λ e, score_triple m1 false s p e) <$> seq 0 n
                 = (λ e, score_triple m2 false s p e) <$> seq 0 n) as ->.
  { intros s p. apply list_fmap_ext. intros _ e _. apply Htriple. }
  assert (∀ p o, (λ e, score_triple m1 false e p o) <$> seq 0 n
                 = (λ e, score_triple m2 false e p o) <$> seq 0 n) as ->.
  { intros p o. apply list_fmap_ext. intros _ e _. apply Htriple. }
  done.
Qed.

Lemma kvsall_rank_eval_equivalent `{TorchSort} m1 m2 data form q :
  eval_equivalent m1 m2 →
  kvsall_rank (eval m1) data form q = kvsall_rank (eval m2) data form q.
Proof.
  intros (_ & Hrel & He2). unfold kvsall_rank, forward_k_vs_all_e2,
    forward_k_vs_all_rel. simpl. by rewrite Hrel, He2.
Qed.

(** C8. The evaluators are functions of the frames, the query triples and
    the scores the model gives in evaluation mode: two models that score
    alike in evaluation mode get the same per-triple ranks and the same
    metrics, whatever mode they were in and however they score in training
    mode. In particular a second run, on the model as the first run left
    it, returns the same metrics and leaves the model as it found it. *)
Theorem evaluation_deterministic `{TorchSort} st num_entities m1 m2
    triple_idx form_of_labelling :
  eval_equivalent m1 m2 →
  (∀ data q,
     lp_ranks (eval m1) data num_entities q
     = lp_ranks (eval m2) data num_entities q
     ∧ kvsall_rank (eval m1) data form_of_labelling q
       = kvsall_rank (eval m2) data form_of_labelling q)
  ∧ snd (evaluate_lp st num_entities m1 triple_idx)
    = snd (evaluate_lp st num_entities m2 triple_idx)
  ∧ snd (evaluate_lp_k_vs_all st m1 triple_idx form_of_labelling)
    = snd (evaluate_lp_k_vs_all st m2 triple_idx form_of_labelling)
  ∧ evaluate_lp st num_entities
      (fst (evaluate_lp st num_entities m1 triple_idx)) triple_idx
    = evaluate_lp st num_entities m1 triple_idx
  ∧ evaluate_lp_k_vs_all st
      (fst (evaluate_lp_k_vs_all st m1 triple_idx form_of_labelling))
      triple_idx form_of_labelling
    = evaluate_lp_k_vs_all st m1 triple_idx form_of_labelling.
Proof.
  intros Heq. split; [|split; [|split; [|split]]].
  - intros data q. split.
    + by apply lp_ranks_eval_equivalent.
    + by apply kvsall_rank_eval_equivalent.
  - rewrite !evaluate_lp_spec. simpl. unfold spec_entity_ranking.
    destruct (deserialize_index_data st) as [data|]; [|done]. simpl.
    by rewrite (mapM_result_ext _ _ _
                  (λ q, lp_ranks_eval_equivalent m1 m2 data _ q Heq)).
  - rewrite !evaluate_lp_k_vs_all_spec. simpl. unfold spec_single_ranking.
    destruct (deserialize_index_data st) as [data|]; [|done]. simpl.
    by rewrite (mapM_result_ext _ _ _
                  (λ q, kvsall_rank_eval_equivalent m1 m2 data _ q Heq)).
  - done.
  - done.
Qed.

Lemma evaluation_deterministic_witness :
  eval_equivalent (sample_model_with (qn 100) true)
    (sample_model_with (qn 7) false)
  ∧ snd (evaluate_lp (H := merge_torch_sort) sample_storage 4
           (sample_model_with (qn 100) true) [sample_query])
    = snd (evaluate_lp (H := merge_torch_sort) sample_storage 4
             (sample_model_with (qn 7) false) [sample_query]).
Proof.
  assert (eval_equivalent (sample_model_with (qn 100) true)
            (sample_model_with (qn 7) false)) as Heq.
  { split; [|split]; reflexivity. }
  split; [exact Heq|].
  destruct (evaluation_deterministic (H := merge_torch_sort) sample_storage 4
              (sample_model_with (qn 100) true)
              (sample_model_with (qn 7) false) [sample_query]
              "EntityPrediction" Heq) as (_ & Hlp & _).
  exact Hlp.
Defined.

(** ** The configuration check *)

(** C9. The check is a total function: no path of it raises. A batch size
    above the number of training triples is replaced by that number, any
    other batch size is kept, and the training set is not touched. *)
Theorem batch_size_clamped self :
  let self' := config_kge_sanity_checking self in
  train_set self' = train_set self
  ∧ batch_size self'
    = Z.min (batch_size self) (Z.of_nat (length (train_set self)))
  ∧ ((batch_size self > Z.of_nat (length (train_set self)))%Z →
     batch_size self' = Z.of_nat (length (train_set self)))
  ∧ ((batch_size self ≤ Z.of_nat (length (train_set self)))%Z →
     batch_size self' = batch_size self).
Proof.
  unfold config_kge_sanity_checking.
  destruct (decide (batch_size self > _)%Z) as [Hgt|Hle];
    repeat (case_decide; simpl); repeat split; intros; lia.
Qed.

Example batch_size_clamped_example :
  batch_size (config_kge_sanity_checking
                {| batch_size := 1024; model_name := "Shallom";
                   train_set := sample_data; scoring_technique := "NegSample";
                   neg_ratio := Some 1%Z |}) = 2%Z
  ∧ batch_size (config_kge_sanity_checking
                  {| batch_size := 1; model_name := "Shallom";
                     train_set := sample_data;
                     scoring_technique := "NegSample";
                     neg_ratio := Some 1%Z |}) = 1%Z.
Proof. by vm_compute. Qed.

(** ** Unpacking a batch *)

Lemma load_global_batch : load_global "batch" = Raise (NameError "batch").
Proof. by vm_compute. Qed.

(** C10. A batch of two or three tensors is unpacked and moved to the
    device. A batch of any other length raises, and what is raised is the
    [NameError] of the unbound name [batch] in [print(len(batch))]: the
    [ValueError] of the next line is never raised, for any batch. *)
Theorem extract_input_outputs_errors gpu_id z :
  (length z ≠ 2%nat → length z ≠ 3%nat →
   extract_input_outputs gpu_id z = Raise (NameError "batch"))
  ∧ (∀ msg, extract_input_outputs gpu_id z ≠ Raise (ValueError msg))
  ∧ (∀ x_batch y_batch,
       z = [x_batch; y_batch] →
       extract_input_outputs gpu_id z
       = Ok (Plain (tensor_to x_batch gpu_id), tensor_to y_batch gpu_id))
  ∧ (∀ x_batch y_idx_batch y_batch,
       z = [x_batch; y_idx_batch; y_batch] →
       extract_input_outputs gpu_id z
       = Ok (WithIndex (tensor_to x_batch gpu_id)
               (tensor_to y_idx_batch gpu_id),
             tensor_to y_batch gpu_id)).
Proof.
  split; [|split; [|split]].
  - intros H2 H3.
    destruct z as [|a [|b [|c [|d z]]]]; simpl in *;
      try done; by rewrite load_global_batch.
  - intros msg.
    destruct z as [|a [|b [|c [|d z]]]]; simpl;
      try done; by rewrite load_global_batch.
  - by intros x y ->.
  - by intros x yi y ->.
Qed.

Lemma extract_input_outputs_errors_witness :
  length [sample_tensor] ≠ 2%nat
  ∧ length [sample_tensor] ≠ 3%nat
  ∧ extract_input_outputs 0 [sample_tensor] = Raise (NameError "batch").
Proof.
  assert (length [sample_tensor] ≠ 2%nat) as H2 by (simpl; lia).
  assert (length [sample_tensor] ≠ 3%nat) as H3 by (simpl; lia).
  split; [exact H2|]. split; [exact H3|].
  exact (proj1 (extract_input_outputs_errors 0 [sample_tensor]) H2 H3).
Defined.

(** ** The epoch loop *)

Section training.
Context `{Backend}.

Lemma same_setup_refl self : same_setup self self.
Proof. by repeat split. Qed.

Lemma same_setup_trans self1 self2 self3 :
  same_setup self1 self2 → same_setup self2 self3 → same_setup self1 self3.
Proof.
  intros (? & ? & ? & ? & ? & ?) (? & ? & ? & ? & ? & ?).
  repeat split; congruence.
Qed.


(** What the loop of [_run_epoch] leaves behind, from any starting index. *)
Lemma epoch_loop batches k self acc i0 self' acc' i' :
  for_each epoch_body (zip (seq k (length batches)) batches) (self, acc, i0)
  = Ok (self', acc', i') →
  ∃ unpacked,
    mapM (extract_input_outputs (gpu_id self)) batches = Ok unpacked
    ∧ same_setup self self'
    ∧ hook_calls self' = hook_calls self
    ∧ loss_history (module (trainer_model self'))
      = loss_history (module (trainer_model self))
    ∧ steps_done self' = (steps_done self + length unpacked)%nat
    ∧ state_dict (module (trainer_model self'))
      = epoch_final_state (gpu_id self) (steps_done self)
          (state_dict (module (trainer_model self))) unpacked
    ∧ acc' = acc + qsum (epoch_batch_losses (gpu_id self) (steps_done self)
                           (state_dict (module (trainer_model self)))
                           unpacked)
    ∧ (i' + 1)%nat
      = (if decide (batches = []) then i0 + 1 else k + length batches)%nat.
Proof.
  revert k self acc i0.
  induction batches as [|z batches IH]; intros k self acc i0.
  - intros [= <- <- <-]. exists []. simpl.
    split; [done|]. split; [apply same_setup_refl|].
    rewrite Qcplus_0_r. repeat split; lia.
  - cbn [length seq zip_with for_each]. intros Hloop.
    apply bind_Ok in Hloop as ([[self1 acc1] i1] & Hbody & Hloop).
    unfold epoch_body in Hbody.
    apply bind_Ok in Hbody as ([source targets] & Hextract & Hbody).
    simpl in Hbody. injection Hbody as <- <- <-.
    apply IH in Hloop
      as (unpacked & Hunpacked & Hsetup & Hhooks & Hhist & Hsteps & Hsd
          & Hacc & Hi).
    simpl in Hunpacked, Hsetup, Hhooks, Hhist, Hsteps, Hsd, Hacc.
    exists ((source, targets) :: unpacked).
    rewrite mapM_result_cons, Hextract. simpl. rewrite Hunpacked. simpl.
    split; [done|]. split.
    { eapply same_setup_trans; [|exact Hsetup]. by repeat split. }
    split; [done|]. split; [done|]. split; [lia|]. split; [done|].
    split.
    + rewrite Hacc. unfold qsum at 2. cbn [foldr].
      by rewrite Qcplus_assoc.
    + rewrite Hi. case_decide; subst; simpl; lia.
Qed.

Lemma run_epoch_Ok self epoch self' epoch_loss :
  _run_epoch self epoch = Ok (self', epoch_loss) →
  ∃ unpacked,
    mapM (extract_input_outputs (gpu_id self))
      (batches_for (train_dataset_loader self) (gpu_id self) epoch)
    = Ok unpacked
    ∧ same_setup self self'
    ∧ hook_calls self' = hook_calls self
    ∧ loss_history (module (trainer_model self'))
      = loss_history (module (trainer_model self))
    ∧ state_dict (module (trainer_model self'))
      = epoch_final_state (gpu_id self) (steps_done self)
          (state_dict (module (trainer_model self))) unpacked
    ∧ (unpacked ≠ [] →
       epoch_loss
       = qsum (epoch_batch_losses (gpu_id self) (steps_done self)
                 (state_dict (module (trainer_model self))) unpacked)
         / qn (length unpacked)).
Proof.
  unfold _run_epoch, enumerate.
  intros ([[self1 loss1] i1] & Hloop & [= <- <-])%bind_Ok.
  apply epoch_loop in Hloop
    as (unpacked & Hunpacked & Hsetup & Hhooks & Hhist & _ & Hsd & Hacc
        & Hi).
  exists unpacked. do 5 (split; [done|]).
  intros Hne. rewrite Hacc, Qcplus_0_l, Hi.
  apply mapM_result_length in Hunpacked.
  rewrite decide_False; [by rewrite Hunpacked|].
  intros Hnil. rewrite Hnil in Hunpacked. by destruct unpacked.
Qed.

Lemma train_epoch_Ok self epoch self' :
  train_epoch self epoch = Ok self' →
  ∃ unpacked,
    mapM (extract_input_outputs (gpu_id self))
      (batches_for (train_dataset_loader self) (gpu_id self) epoch)
    = Ok unpacked
    ∧ same_setup self self'
    ∧ (gpu_id self = 0%nat →
       (∃ mean_loss,
          loss_history (module (trainer_model self'))
          = loss_history (module (trainer_model self)) ++ [mean_loss]
          ∧ (unpacked ≠ [] →
             mean_loss
             = qsum (epoch_batch_losses (gpu_id self) (steps_done self)
                       (state_dict (module (trainer_model self))) unpacked)
               / qn (length unpacked)))
       ∧ hook_calls self'
         = hook_calls self
           ++ ((λ c, OnTrainEpochEnd c None (module (trainer_model self')))
                 <$> callbacks self))
    ∧ (gpu_id self ≠ 0%nat →
       loss_history (module (trainer_model self'))
       = loss_history (module (trainer_model self))
       ∧ hook_calls self' = hook_calls self).
Proof.
  unfold train_epoch.
  intros ([self1 epoch_loss] & Hepoch & Hend)%bind_Ok.
  apply run_epoch_Ok in Hepoch
    as (unpacked & Hunpacked & Hsetup & Hhooks & Hhist & Hsd & Hmean).
  exists unpacked. split; [done|].
  destruct Hsetup as (Hgpu & Hloader & Hcallbacks & Hepochs & Htl & Hdev).
  rewrite Hgpu in Hend.
  destruct (decide (gpu_id self = 0%nat)) as [Hzero|Hnonzero].
  - injection Hend as <-. simpl. split; [by repeat split|]. split; [|done].
    intros _. split.
    + exists epoch_loss. by rewrite Hhist.
    + by rewrite Hhooks, Hcallbacks.
  - injection Hend as <-. split; [by repeat split|]. split; [done|].
    by intros _.
Qed.

(** Over a whole run a worker of non-zero rank keeps no books. *)
Lemma train_loop_nonzero_rank epochs self self' :
  for_each train_epoch epochs self = Ok self' →
  gpu_id self ≠ 0%nat →
  same_setup self self'
  ∧ loss_history (module (trainer_model self'))
    = loss_history (module (trainer_model self))
  ∧ hook_calls self' = hook_calls self.
Proof.
  revert self. induction epochs as [|epoch epochs IH]; intros self.
  - intros [= <-] _. split; [apply same_setup_refl|done].
  - cbn [for_each]. intros (self1 & Hepoch & Hloop)%bind_Ok Hrank.
    apply train_epoch_Ok in Hepoch as (_ & _ & Hsetup & _ & Hkeep).
    destruct (Hkeep Hrank) as [Hhist Hhooks].
    pose proof Hsetup as (Hgpu & _).
    apply IH in Hloop as (Hsetup' & Hhist' & Hhooks'); [|congruence].
    split; [by eapply same_setup_trans|]. split; congruence.
Qed.

(** Over a whole run the worker of rank 0 appends once per epoch and calls
    every callback once per epoch. *)
Lemma train_loop_rank_zero epochs self self' :
  for_each train_epoch epochs self = Ok self' →
  gpu_id self = 0%nat →
  same_setup self self'
  ∧ (∃ appended,
       loss_history (module (trainer_model self'))
       = loss_history (module (trainer_model self)) ++ appended
       ∧ length appended = length epochs)
  ∧ (∃ calls,
       hook_calls self' = hook_calls self ++ calls
       ∧ length calls = (length epochs * length (callbacks self))%nat).
Proof.
  revert self. induction epochs as [|epoch epochs IH]; intros self.
  - intros [= <-] _. split; [apply same_setup_refl|].
    split; exists []; by rewrite app_nil_r.
  - cbn [for_each]. intros (self1 & Hepoch & Hloop)%bind_Ok Hrank.
    apply train_epoch_Ok in Hepoch as (unpacked & _ & Hsetup & Hbook & _).
    destruct (Hbook Hrank) as [(mean_loss & Hhist & _) Hhooks].
    pose proof Hsetup as (Hgpu & _ & Hcallbacks & _).
    apply IH in Hloop
      as (Hsetup' & (appended & Hhist' & Hlen) & (calls & Hhooks' & Hcalls));
      [|congruence].
    split; [by eapply same_setup_trans|]. split.
    + exists (mean_loss :: appended). rewrite Hhist', Hhist, <-app_assoc.
      split; [done|]. simpl. by rewrite Hlen.
    + eexists (_ ++ calls). rewrite Hhooks', Hhooks, <-app_assoc.
      split; [done|].
      rewrite length_app, length_fmap, Hcalls, Hcallbacks. simpl. lia.
Qed.
End training.

(** ** Bookkeeping at the end of an epoch *)

(** C7. At the end of an epoch that a worker completes, the worker of rank 0
    appends one value to the model's loss history, the mean of the losses of
    the batches it ran in that epoch (their sum divided by their number),
    and then invokes [on_train_epoch_end] of every registered callback, in
    order, with [None] and the unwrapped module. A worker of any other rank
    leaves the loss history and the record of hook calls as they were. Over
    a whole run, rank 0 appends once per epoch and calls every callback once
    per epoch; the other ranks append nothing and call nothing. *)
Theorem epoch_end_bookkeeping `{Backend} self :
  (∀ epoch self',
     train_epoch self epoch = Ok self' →
     ∃ unpacked,
       mapM (extract_input_outputs (gpu_id self))
         (batches_for (train_dataset_loader self) (gpu_id self) epoch)
       = Ok unpacked
       ∧ (gpu_id self = 0%nat →
          (∃ mean_loss,
             loss_history (module (trainer_model self'))
             = loss_history (module (trainer_model self)) ++ [mean_loss]
             ∧ (unpacked ≠ [] →
                mean_loss
                = qsum (epoch_batch_losses (gpu_id self) (steps_done self)
                          (state_dict (module (trainer_model self)))
                          unpacked)
                  / qn (length unpacked)))
          ∧ hook_calls self'
            = hook_calls self
              ++ ((λ c, OnTrainEpochEnd c None (module (trainer_model self')))
                    <$> callbacks self))
       ∧ (gpu_id self ≠ 0%nat →
          loss_history (module (trainer_model self'))
          = loss_history (module (trainer_model self))
          ∧ hook_calls self' = hook_calls self))
  ∧ (∀ self',
       train self = Ok self' →
       (gpu_id self = 0%nat →
        (∃ appended,
           loss_history (module (trainer_model self'))
           = loss_history (module (trainer_model self)) ++ appended
           ∧ length appended = num_epochs self)
        ∧ (∃ calls,
             hook_calls self' = hook_calls self ++ calls
             ∧ length calls
               = (num_epochs self * length (callbacks self))%nat))
       ∧ (gpu_id self ≠ 0%nat →
          loss_history (module (trainer_model self'))
          = loss_history (module (trainer_model self))
          ∧ hook_calls self' = hook_calls self)).
Proof.
  split.
  - intros epoch self' Hepoch.
    apply train_epoch_Ok in Hepoch as (unpacked & Hunpacked & _ & Hbook).
    by exists unpacked.
  - intros self' Htrain. unfold train in Htrain. split; intros Hrank.
    + apply train_loop_rank_zero in Htrain as (_ & Hhist & Hcalls); [|done].
      by rewrite length_seq in Hhist, Hcalls.
    + by apply train_loop_nonzero_rank in Htrain as (_ & ? & ?).
Qed.

Lemma epoch_end_bookkeeping_witness :
  ∃ self' mean_loss,
    train_epoch (H := sample_backend) (sample_trainer 0) 0 = Ok self'
    ∧ loss_history (module (trainer_model self')) = [mean_loss]
    ∧ hook_calls self'
      = [OnTrainEpochEnd "callback" None (module (trainer_model self'))].
Proof.
  assert (is_ok (train_epoch (H := sample_backend) (sample_trainer 0) 0)
          = true) as Hok.
  { vm_compute. reflexivity. }
  apply (ok_of_is_ok (sample_trainer 0)) in Hok.
  destruct (proj1 (epoch_end_bookkeeping (H := sample_backend)
                     (sample_trainer 0)) 0%nat _ Hok)
    as (unpacked & _ & Hzero & _).
  destruct (Hzero eq_refl) as [(mean_loss & Hhist & _) Hhooks].
  eexists _, mean_loss. split; [exact Hok|].
  split; [exact Hhist | exact Hhooks].
Defined.

(** Two epochs of two batches each on the sample backend: rank 0 records
    the means 3 and 7 and calls the callback twice, rank 1 records
    nothing. *)
Example bookkeeping_by_rank :
  (loss_history ∘ module ∘ trainer_model)
    <$> train (H := sample_backend) (sample_trainer 0)
  = Ok [qn 3; qn 7]
  ∧ (length ∘ hook_calls) <$> train (H := sample_backend) (sample_trainer 0)
    = Ok 2%nat
  ∧ (loss_history ∘ module ∘ trainer_model)
      <$> train (H := sample_backend) (sample_trainer 1)
    = Ok []
  ∧ hook_calls <$> train (H := sample_backend) (sample_trainer 1) = Ok [].
Proof.
  split; [|by vm_compute].
  apply (bool_decide_unpack _). by vm_compute.
Qed.

(** ** The coordinator *)

Section coordinator.
Context `{Backend}.

Lemma distributed_training_Ok rank world_size model loader cbs epochs
    (fs : files) trainer fs' :
  distributed_training rank world_size model loader cbs epochs fs
  = Ok (trainer, fs') →
  ∃ trained,
    train (ddp_trainer_init model loader rank cbs epochs) = Ok trained
    ∧ module (trainer_model trainer) = module (trainer_model trained)
    ∧ (rank = 0%nat →
       fs' = <["model.pt" := state_dict (module (trainer_model trained))]> fs
       ∧ wrapper_loss_history (trainer_model trainer)
         = Some (trainer_loss_history trained))
    ∧ (rank ≠ 0%nat → fs' = fs).
Proof.
  unfold distributed_training. intros (trained & Htrain & Hend)%bind_Ok.
  exists trained. split; [done|].
  case_decide as Hrank; injection Hend as <- <-; by repeat split.
Qed.

(** Workers of non-zero rank leave the files alone. *)
Lemma spawn_nonzero_ranks world_size model loader cbs epochs k n
    (fs fs' : files) :
  (0 < k)%nat →
  for_each (λ fs rank,
              match snd <$> distributed_training rank world_size model
                              loader cbs epochs fs with
              | Ok fs => Ok fs
              | Raise e => Raise (ProcessRaisedException rank e)
              end) (seq k n) fs = Ok fs' →
  fs' = fs.
Proof.
  revert k fs. induction n as [|n IH]; intros k fs Hk; cbn [seq for_each].
  - by intros [= <-].
  - intros (fs1 & Hstep & Hrest)%bind_Ok.
    apply IH in Hrest as ->; [|lia].
    destruct (distributed_training k world_size model loader cbs epochs fs)
      as [[trainer fs2]|e] eqn:Hworker; simpl in Hstep; [|done].
    injection Hstep as <-.
    apply distributed_training_Ok in Hworker as (_ & _ & _ & _ & Hkeep).
    apply Hkeep. lia.
Qed.

Lemma spawn_Ok world_size model loader cbs epochs n (fs fs' : files) :
  spawn (λ rank fs,
           snd <$> distributed_training rank world_size model loader cbs
                     epochs fs) n fs = Ok fs' →
  (0 < n)%nat →
  ∃ trained,
    train (ddp_trainer_init model loader 0 cbs epochs) = Ok trained
    ∧ fs' = <["model.pt" := state_dict (module (trainer_model trained))]> fs.
Proof.
  unfold spawn. intros Hspawn Hn.
  destruct n as [|n]; [lia|]. cbn [seq for_each] in Hspawn.
  apply bind_Ok in Hspawn as (fs1 & Hstep & Hrest).
  apply spawn_nonzero_ranks in Hrest as ->; [|lia].
  destruct (distributed_training 0 world_size model loader cbs epochs fs)
    as [[trainer fs2]|e] eqn:Hworker; simpl in Hstep; [|done].
  injection Hstep as <-.
  apply distributed_training_Ok in Hworker
    as (trained & Htrain & _ & Hsave & _).
  exists trained. split; [done|]. by destruct (Hsave eq_refl).
Qed.

(** When [fit] returns, the caller's model holds the parameters rank 0
    saved and the checkpoint is gone; its loss history is the one it had
    before the call. *)
Lemma fit_Ok self model loader (fs : files) model' fs' :
  fit self model loader fs = Ok (model', fs') →
  (0 < attributes_num_nodes self * cuda_device_count self)%nat →
  ∃ trained,
    train (ddp_trainer_init model loader 0 (fit_callbacks self)
             (attributes_num_epochs self)) = Ok trained
    ∧ state_dict model' = state_dict (module (trainer_model trained))
    ∧ fs' !! "model.pt" = None
    ∧ loss_history model' = loss_history model.
Proof.
  unfold fit. intros (fs1 & Hspawn & Hload)%bind_Ok Hworld.
  apply spawn_Ok in Hspawn as (trained & Htrain & ->); [|done].
  unfold torch_load in Hload. rewrite lookup_insert_eq in Hload.
  simpl in Hload. injection Hload as <- <-.
  exists trained. split; [done|]. split; [done|].
  split; [apply lookup_delete_eq|done].
Qed.
End coordinator.

(** C3, on a run with two workers, two epochs and one callback. [fit]
    returns; the caller's model holds the parameters that rank 0 saved to
    [model.pt], and the file is gone. The worker of rank 0 accumulated the
    losses 3 and 7 of its two epochs in the loss history of its own copy of
    the module, and set the wrapper's [loss_history] to the trainer's own
    list, which is empty. The caller's model has the loss history it had
    before the call, the empty list: the accumulated losses are not
    attached to it. *)
Theorem fit_loss_history_not_attached :
  (* the parameters of the caller's model are those rank 0 saved *)
  Some ∘ state_dict ∘ fst <$> sample_fit
  = (λ w, w.2 !! "model.pt") <$> sample_worker
  (* the checkpoint is deleted *)
  ∧ (λ r, r.2 !! "model.pt") <$> sample_fit = Ok None
  (* what rank 0 accumulated, and what it set on the wrapper *)
  ∧ loss_history ∘ module ∘ trainer_model ∘ fst <$> sample_worker
    = Ok [qn 3; qn 7]
  ∧ wrapper_loss_history ∘ trainer_model ∘ fst <$> sample_worker
    = Ok (Some [])
  (* what the caller's model carries *)
  ∧ loss_history ∘ fst <$> sample_fit = Ok [].
Proof.
  split; [|split; [|split; [|split]]];
    apply (bool_decide_unpack _); by vm_compute.
Qed.

(** * Further properties *)

(** ** The known-true frame *)

(** The frame the evaluators filter with is the concatenation of the stored
    frames in the order train, valid, test. A missing frame is skipped
    without an error; only when none is stored does loading raise, with the
    [ValueError] of [pd.concat]. *)
Theorem deserialize_index_data_frames st :
  (idx_train_df st = None ∧ idx_valid_df st = None ∧ idx_test_df st = None →
   deserialize_index_data st = Raise (ValueError "No objects to concatenate"))
  ∧ (¬ (idx_train_df st = None ∧ idx_valid_df st = None
        ∧ idx_test_df st = None) →
     deserialize_index_data st
     = Ok (default [] (idx_train_df st) ++ default [] (idx_valid_df st)
           ++ default [] (idx_test_df st))).
Proof.
  unfold deserialize_index_data.
  destruct (idx_train_df st) as [train|], (idx_valid_df st) as [valid|],
    (idx_test_df st) as [test|]; simpl; split;
    try (by intros (? & ? & ?)); try (intros Hnot; by destruct Hnot);
    intros _; by rewrite ?app_nil_r.
Qed.

Lemma deserialize_index_data_frames_witness :
  ¬ (idx_train_df sample_storage = None ∧ idx_valid_df sample_storage = None
     ∧ idx_test_df sample_storage = None)
  ∧ deserialize_index_data sample_storage = Ok [(0, 0, 1)%nat; (0, 0, 2)%nat].
Proof.
  assert (¬ (idx_train_df sample_storage = None
             ∧ idx_valid_df sample_storage = None
             ∧ idx_test_df sample_storage = None)) as Hsome.
  { intros (Htrain & _). discriminate Htrain. }
  split; [exact Hsome|].
  exact (proj2 (deserialize_index_data_frames sample_storage) Hsome).
Defined.

(** ** Failure modes of the evaluators *)

Lemma index_fill_Raise {A} (t : list A) idxs v e :
  index_fill t idxs v = Raise e →
  e = IndexError ∧ ¬ Forall (λ i, (i < length t)%nat) idxs.
Proof.
  revert t. induction idxs as [|i idxs IH]; intros t; simpl; [done|].
  case_decide as Hi.
  - intros [-> Hnot]%IH. split; [done|].
    rewrite length_insert in Hnot. by intros [_ ?]%Forall_cons.
  - intros [= <-]. split; [done|]. by intros [? _]%Forall_cons.
Qed.

(** The shared ranking steps raise nothing but [IndexError], and raise it
    exactly when the target or an id of the filter lies outside the
    tensor. *)
Lemma filtered_rank_Raise `{TorchSort} predictions filt target e :
  filtered_rank predictions filt target = Raise e →
  e = IndexError
  ∧ ¬ ((target < length predictions)%nat
       ∧ Forall (λ i, (i < length predictions)%nat) filt).
Proof.
  intros Hraise. split.
  - unfold filtered_rank, mask_scores, tensor_get in Hraise.
    destruct (predictions !! target) as [x|]; simpl in Hraise;
      [|by injection Hraise as <-].
    destruct (index_fill predictions filt NegInf) as [filled|e'] eqn:Hfill;
      simpl in Hraise.
    + unfold where_first in Hraise.
      destruct (list_find _ _) as [[i y]|]; [done|]. by injection Hraise as <-.
    + injection Hraise as <-. by apply index_fill_Raise in Hfill as [-> _].
  - intros [Htarget Hall].
    pose proof (filtered_rank_total _ _ _ Htarget Hall) as Hok.
    by rewrite Hraise in Hok.
Qed.

Lemma kvsall_rank_cases `{TorchSort} m data form q :
  (kvsall_query_ok m data form q → is_ok (kvsall_rank m data form q) = true)
  ∧ (¬ kvsall_query_ok m data form q →
     kvsall_rank m data form q = Raise IndexError).
Proof.
  unfold kvsall_query_ok, kvsall_rank. case_decide; split.
  - intros [Htarget Hall]. by apply filtered_rank_total.
  - intros Hnot. destruct (filtered_rank _ _ _) as [r|e] eqn:Hrank.
    + destruct Hnot. apply filtered_rank_Ok in Hrank as (masked & Hmask & _).
      apply mask_scores_Ok in Hmask as (x & Hx & Hall & _).
      split; [|done]. by apply lookup_lt_Some in Hx.
    + by apply filtered_rank_Raise in Hrank as [-> _].
  - intros [Htarget Hall]. by apply filtered_rank_total.
  - intros Hnot. destruct (filtered_rank _ _ _) as [r|e] eqn:Hrank.
    + destruct Hnot. apply filtered_rank_Ok in Hrank as (masked & Hmask & _).
      apply mask_scores_Ok in Hmask as (x & Hx & Hall & _).
      split; [|done]. by apply lookup_lt_Some in Hx.
    + by apply filtered_rank_Raise in Hrank as [-> _].
Qed.

Lemma mapM_result_Raise {A B} (f : A → result B) (P : A → Prop)
    `{∀ x, Decision (P x)} e xs :
  (∀ x, P x → is_ok (f x) = true) →
  (∀ x, ¬ P x → f x = Raise e) →
  ¬ Forall P xs → mapM f xs = Raise e.
Proof.
  intros Hok Hraise. induction xs as [|x xs IH]; intros Hnot.
  - destruct Hnot. constructor.
  - rewrite mapM_result_cons.
    destruct (f x) as [y|e'] eqn:Hfx; simpl.
    + rewrite IH; [done|]. intros Hall. apply Hnot. constructor; [|done].
      destruct (decide (P x)) as [HP|HnP]; [done|].
      by rewrite (Hraise _ HnP) in Hfx.
    + destruct (decide (P x)) as [HP|HnP].
      * specialize (Hok _ HP). by rewrite Hfx in Hok.
      * rewrite (Hraise _ HnP) in Hfx. by injection Hfx as <-.
Qed.

(** The k-vs-all evaluator fails in three ways and no other: loading the
    frame raises (no frame is stored), a query triple cannot be ranked and
    the run ends with [IndexError] (the metrics of the triples before it are
    lost), or there is no query triple and the division by their number
    raises [ZeroDivisionError]. In every other case it returns metrics. *)
Theorem kvsall_failure_modes `{TorchSort} st m triple_idx form_of_labelling
    data :
  deserialize_index_data st = Ok data →
  (¬ Forall (kvsall_query_ok (eval m) data form_of_labelling) triple_idx →
   snd (evaluate_lp_k_vs_all st m triple_idx form_of_labelling)
   = Raise IndexError)
  ∧ (triple_idx = [] →
     snd (evaluate_lp_k_vs_all st m triple_idx form_of_labelling)
     = Raise ZeroDivisionError)
  ∧ (Forall (kvsall_query_ok (eval m) data form_of_labelling) triple_idx →
     triple_idx ≠ [] →
     is_ok (snd (evaluate_lp_k_vs_all st m triple_idx form_of_labelling))
     = true).
Proof.
  intros Hdata. rewrite evaluate_lp_k_vs_all_spec. simpl.
  unfold spec_single_ranking. rewrite Hdata. simpl.
  split; [|split].
  - intros Hnot.
    rewrite (mapM_result_Raise _
               (kvsall_query_ok (eval m) data form_of_labelling) IndexError);
      [done| | |done]; intros q; apply kvsall_rank_cases.
  - by intros ->.
  - intros Hall Hne.
    pose proof (mapM_result_total
                  (kvsall_rank (eval m) data form_of_labelling) triple_idx)
      as Hok.
    destruct (mapM _ triple_idx) as [rs|e] eqn:Hrs; simpl.
    + apply mapM_result_length in Hrs. rewrite decide_False; [done|].
      intros Hnil%fmap_nil_inv. subst rs. by destruct triple_idx.
    + apply Hok. eapply Forall_impl; [exact Hall|].
      intros q. apply kvsall_rank_cases.
Qed.

(** A query for entity 7 among four entities. *)
Lemma kvsall_failure_modes_witness :
  deserialize_index_data sample_storage = Ok sample_data
  ∧ snd (evaluate_lp_k_vs_all (H := merge_torch_sort) sample_storage
           sample_model [sample_query; (0, 0, 7)%nat] "EntityPrediction")
    = Raise IndexError.
Proof.
  split; [reflexivity|].
  apply (kvsall_failure_modes (H := merge_torch_sort) sample_storage
           sample_model [sample_query; (0, 0, 7)%nat] "EntityPrediction"
           sample_data eq_refl).
  intros Hall. apply Forall_cons in Hall as [_ Hall].
  apply Forall_cons in Hall as [Hbad _].
  unfold kvsall_query_ok in Hbad. simpl in Hbad. destruct Hbad as [Hlt _].
  vm_compute in Hlt. lia.
Defined.

(** With no query triple both evaluators raise [ZeroDivisionError] once the
    frame is loaded; when the frame cannot be loaded they raise its error
    instead, whatever the query triples. The callers only evaluate sets of
    positive length. *)
Theorem evaluators_on_empty_query_set `{TorchSort} st num_entities m
    form_of_labelling :
  (∀ data,
     deserialize_index_data st = Ok data →
     snd (evaluate_lp st num_entities m []) = Raise ZeroDivisionError
     ∧ snd (evaluate_lp_k_vs_all st m [] form_of_labelling)
       = Raise ZeroDivisionError)
  ∧ (∀ e triple_idx,
       deserialize_index_data st = Raise e →
       snd (evaluate_lp st num_entities m triple_idx) = Raise e
       ∧ snd (evaluate_lp_k_vs_all st m triple_idx form_of_labelling)
         = Raise e).
Proof.
  split.
  - intros data Hdata. unfold evaluate_lp, evaluate_lp_k_vs_all. simpl.
    by rewrite Hdata.
  - intros e triple_idx Hdata. unfold evaluate_lp, evaluate_lp_k_vs_all.
    simpl. by rewrite Hdata.
Qed.

(** ** The range of the metrics *)

Lemma count_le_length k rs : (count_le k rs ≤ length rs)%nat.
Proof.
  induction rs as [|r rs IH]; [done|].
  rewrite count_le_cons. simpl. case_decide; lia.
Qed.

Lemma qn_nonneg n : 0 ≤ qn n.
Proof. rewrite <-qn_0. apply qn_le. lia. Qed.

Lemma qn_1 : qn 1 = 1.
Proof. apply Z2Qc_inj_1. Qed.

Lemma Qcdiv_self d : d ≠ 0 → d / d = 1.
Proof. intros Hd. unfold Qcdiv. by apply Qcmult_inv_r. Qed.

Lemma Qcdiv_unit_interval a d : 0 ≤ a → a ≤ d → 0 < d → 0 ≤ a / d ∧ a / d ≤ 1.
Proof.
  intros Ha Had Hd.
  assert (d ≠ 0) as Hne by (intros ->; by apply (Qclt_not_eq 0 0)).
  split.
  - rewrite <-(Qcdiv_0_l d). by apply Qcdiv_le_mono.
  - rewrite <-(Qcdiv_self d Hne). by apply Qcdiv_le_mono.
Qed.

Lemma reciprocal_rank_bounds r : (1 ≤ r)%nat → 0 < 1 / qn r ∧ 1 / qn r ≤ 1.
Proof.
  intros Hr. assert (0 < qn r) as Hpos by (apply qn_pos; lia). split.
  - unfold Qcdiv. rewrite Qcmult_1_l. by apply Qcinv_pos.
  - apply Qcdiv_unit_interval; [done| |done].
    rewrite <-qn_1. by apply qn_le.
Qed.

Lemma qsum_bounds c l :
  Forall (λ x, 0 < x ∧ x ≤ c) l → l ≠ [] →
  0 < qsum l ∧ qsum l ≤ c * qn (length l).
Proof.
  intros Hall. induction Hall as [|x l [Hx Hxc] Hall IH]; [done|].
  intros _. unfold qsum. cbn [foldr length]. fold (qsum l).
  destruct l as [|y l].
  - simpl. rewrite Qcplus_0_r, qn_1, Qcmult_1_r. done.
  - destruct IH as [Hpos Hle]; [done|]. split.
    + by apply Qcplus_pos_pos.
    + replace (S (length (y :: l))) with (1 + length (y :: l))%nat by done.
      rewrite qn_add, qn_1, Qcmult_plus_distr_r, Qcmult_1_r.
      by apply Qcplus_le_compat.
Qed.

(** Every metric an evaluator returns lies in the unit interval, and the
    mean reciprocal rank is positive. *)
Theorem metrics_in_unit_interval `{TorchSort} st num_entities m triple_idx
    form_of_labelling r :
  snd (evaluate_lp st num_entities m triple_idx) = Ok r
  ∨ snd (evaluate_lp_k_vs_all st m triple_idx form_of_labelling) = Ok r →
  (0 ≤ H_at_1 r ∧ H_at_1 r ≤ 1)
  ∧ (0 ≤ H_at_3 r ∧ H_at_3 r ≤ 1)
  ∧ (0 ≤ H_at_10 r ∧ H_at_10 r ≤ 1)
  ∧ (0 < MRR r ∧ MRR r ≤ 1).
Proof.
  intros [Hr|Hr].
  - rewrite evaluate_lp_spec in Hr. simpl in Hr.
    apply spec_entity_ranking_Ok in Hr
      as (data & pairs & _ & Hpairs & _ & Hne & ->).
    assert (0 < qn (2 * length pairs)) as Hden.
    { apply qn_pos. destruct pairs; [done|]. simpl. lia. }
    assert (∀ k, 0 ≤ spec_hits_entity k pairs
                 ∧ spec_hits_entity k pairs ≤ 1) as Hhits.
    { intros k. unfold spec_hits_entity.
      apply Qcdiv_unit_interval; [apply qn_nonneg| |done].
      apply qn_le.
      pose proof (count_le_length k pairs.*1).
      pose proof (count_le_length k pairs.*2).
      rewrite !length_fmap in *. lia. }
    simpl. do 3 (split; [apply Hhits|]).
    unfold spec_mrr_entity.
    destruct (qsum_bounds 2 ((λ ht, 1 / qn ht.1 + 1 / qn ht.2) <$> pairs))
      as [Hpos Hle].
    { apply Forall_fmap, Forall_forall. intros [h t] Hin. simpl.
      apply mapM_result_Forall2 in Hpairs.
      apply list_elem_of_lookup in Hin as [i Hi].
      destruct (Forall2_lookup_r _ _ _ _ _ Hpairs Hi) as (q & _ & Hq).
      apply lp_ranks_bounds in Hq as [Hh Ht].
      destruct (reciprocal_rank_bounds h) as [Hh0 Hh1]; [lia|].
      destruct (reciprocal_rank_bounds t) as [Ht0 Ht1]; [lia|].
      split; [by apply Qcplus_pos_pos|].
      by apply (Qcplus_le_compat _ 1 _ 1). }
    { by destruct pairs. }
    rewrite length_fmap in Hle.
    assert (2 * qn (length pairs) = qn (2 * length pairs)) as Htwo.
    { replace (2 * length pairs)%nat with (length pairs + length pairs)%nat
        by lia. rewrite qn_add. ring. }
    rewrite Htwo in Hle.
    destruct (Qcdiv_unit_interval _ _ (Qclt_le_weak _ _ Hpos) Hle Hden)
      as [_ Hone].
    split; [|done]. unfold Qcdiv. apply Qcmult_pos_pos; [done|].
    by apply Qcinv_pos.
  - rewrite evaluate_lp_k_vs_all_spec in Hr. simpl in Hr.
    apply spec_single_ranking_Ok in Hr
      as (data & rs & _ & _ & _ & Hne & ->).
    set (ranks := (λ r, (r + 1)%nat) <$> rs).
    assert (0 < qn (length ranks)) as Hden.
    { apply qn_pos. unfold ranks. rewrite length_fmap.
      destruct rs; [done|]. simpl. lia. }
    assert (∀ k, 0 ≤ spec_hits_single k ranks
                 ∧ spec_hits_single k ranks ≤ 1) as Hhits.
    { intros k. unfold spec_hits_single.
      apply Qcdiv_unit_interval; [apply qn_nonneg| |done].
      apply qn_le, count_le_length. }
    simpl. do 3 (split; [apply Hhits|]).
    unfold spec_mrr_single.
    destruct (qsum_bounds 1 ((λ r, 1 / qn r) <$> ranks)) as [Hpos Hle].
    { apply Forall_fmap, Forall_forall. intros r Hin. simpl.
      apply list_elem_of_fmap in Hin as (r0 & -> & _).
      apply reciprocal_rank_bounds. lia. }
    { unfold ranks. by destruct rs. }
    rewrite length_fmap, Qcmult_1_l in Hle.
    destruct (Qcdiv_unit_interval _ _ (Qclt_le_weak _ _ Hpos) Hle Hden)
      as [_ Hone].
    split; [|done]. unfold Qcdiv. apply Qcmult_pos_pos; [done|].
    by apply Qcinv_pos.
Qed.

Lemma metrics_in_unit_interval_witness :
  ∃ r,
    snd (evaluate_lp (H := merge_torch_sort) sample_storage 4 sample_model
           [sample_query]) = Ok r
    ∧ (0 < MRR r ∧ MRR r ≤ 1).
Proof.
  assert (is_ok (snd (evaluate_lp (H := merge_torch_sort) sample_storage 4
                        sample_model [sample_query])) = true) as Hok.
  { vm_compute. reflexivity. }
  apply (ok_of_is_ok (Results 0 0 0 0)) in Hok.
  eexists. split; [exact Hok|].
  apply (metrics_in_unit_interval (H := merge_torch_sort) sample_storage 4
           sample_model [sample_query] "EntityPrediction").
  left. exact Hok.
Defined.

(** ** Where the true answer lands in the sorted order *)

Section rank_order.
Context `{TorchSort}.



(** What the masked tensor holds, entry by entry. *)
Lemma masked_entries (raw : list score) filt target masked :
  mask_scores raw filt target = Ok masked →
  ∃ x, raw !! target = Some x
    ∧ length masked = length raw
    ∧ masked !! target = Some x
    ∧ (∀ j, j ≠ target → j ∈ filt → masked !! j = Some NegInf)
    ∧ (∀ j, j ≠ target → j ∉ filt → (j < length raw)%nat →
         masked !! j = Some (raw !!! j)).
Proof.
  intros Hmask.
  apply mask_scores_Ok in Hmask
    as (x & Hx & Hall & Hlen & Hmt & Hfilt & Hkeep).
  exists x. split; [done|]. split; [done|]. split; [done|]. split.
  - intros j Hne Hin. apply Hfilt; [done..|].
    by apply (proj1 (Forall_forall _ _) Hall).
  - intros j Hne Hnin Hj. rewrite Hkeep by done.
    destruct (lookup_lt_is_Some_2 _ _ Hj) as [y Hy].
    by rewrite Hy, (list_lookup_total_correct _ _ _ Hy).
Qed.

(** Every known-true alternative is sorted behind a true answer whose raw
    score is not [-inf]. *)
Lemma alternatives_after_target (raw : list score) filt target masked rank j
    pj :
  raw !! target ≠ Some NegInf →
  mask_scores raw filt target = Ok masked →
  where_first (argsort_desc masked) target = Ok rank →
  j ∈ filt → j ≠ target →
  argsort_desc masked !! pj = Some j →
  (rank < pj)%nat.
Proof.
  intros Hfinite Hmask Hwhere Hin Hne Hpj.
  apply masked_entries in Hmask as (x & Hx & Hlen & Hmt & Hfilt & _).
  apply where_first_Ok in Hwhere as [Hrank _].
  destruct (Nat.lt_trichotomy pj rank) as [Hlt|[->|Hgt]]; [|congruence|done].
  exfalso.
  assert (score_le x NegInf) as Hle.
  { by apply (argsort_desc_sorted masked pj rank j target NegInf x);
      [done..|by apply Hfilt|done]. }
  apply (score_lt_not_le NegInf x); [|done].
  apply score_lt_NegInf. intros ->. by apply Hfinite.
Qed.

Lemma rank_plus_alternatives (raw : list score) filt target rank :
  raw !! target ≠ Some NegInf →
  filtered_rank raw filt target = Ok rank →
  (rank + 1 + length (alternatives filt target) ≤ length raw)%nat.
Proof.
  intros Hfinite (masked & Hmask & Hwhere)%filtered_rank_Ok.
  pose proof Hmask as Hall. apply mask_scores_Ok in Hall as (_ & _ & Hall & _).
  pose proof Hmask as Hlen.
  apply masked_entries in Hlen as (_ & _ & Hlen & _).
  pose proof Hwhere as Hrank. apply where_first_Ok in Hrank as [Hrank _].
  apply lookup_lt_Some in Hrank. rewrite argsort_desc_length, Hlen in Hrank.
  assert (alternatives filt target
          ⊆+ drop (S rank) (argsort_desc masked)) as Hsub.
  { apply NoDup_submseteq; [apply NoDup_remove_dups|].
    intros j [Hne Hin]%elem_of_remove_dups%list_elem_of_filter.
    assert (j ∈ argsort_desc masked) as [pj Hpj]%list_elem_of_lookup.
    { apply argsort_desc_elem. rewrite Hlen.
      by apply (proj1 (Forall_forall _ _) Hall). }
    pose proof (alternatives_after_target _ _ _ _ _ _ _
                  Hfinite Hmask Hwhere Hin Hne Hpj) as Hafter.
    apply list_elem_of_lookup. exists (pj - S rank)%nat.
    rewrite lookup_drop. by replace (S rank + (pj - S rank))%nat with pj
      by lia. }
  apply submseteq_length in Hsub.
  rewrite length_drop, argsort_desc_length, Hlen in Hsub. lia.
Qed.


(** The entry of the target in the score tensors of [evaluate_lp] is the
    score of the query triple. *)
Lemma predictions_tails_target m n s p o x :
  predictions_tails m n s p !! o = Some x →
  x = score_triple m (training m) s p o.
Proof.
  unfold predictions_tails.
  rewrite forward_triples_tails, list_lookup_fmap.
  destruct (seq 0 n !! o) as [o'|] eqn:Ho; [|done].
  apply lookup_seq in Ho as [-> _]. by intros [= <-].
Qed.

Lemma predictions_heads_target m n p o s x :
  predictions_heads m n p o !! s = Some x →
  x = score_triple m (training m) s p o.
Proof.
  unfold predictions_heads.
  rewrite forward_triples_heads, list_lookup_fmap.
  destruct (seq 0 n !! s) as [s'|] eqn:Hs; [|done].
  apply lookup_seq in Hs as [-> _]. by intros [= <-].
Qed.
End rank_order.

(** A known-true alternative never outranks a true answer whose raw score
    is not [-inf]: every id of the filter other than the target is sorted
    behind it. So a reported rank plus the number of distinct alternatives
    is at most the number of candidates, in both rankings of [evaluate_lp]
    and in the ranking of [evaluate_lp_k_vs_all] under either labelling.
    (A true answer that the model scores [-inf] ties with the masked
    alternatives, and the sort may put them first.) *)
Theorem alternatives_never_outrank `{TorchSort} m data num_entities
    form_of_labelling q :
  (∀ h t,
     score_triple m (training m) (subject q) (relation q) (object q)
     ≠ NegInf →
     lp_ranks m data num_entities q = Ok (h, t) →
     (t + length (alternatives (objects_of data (subject q) (relation q))
                    (object q)) ≤ num_entities)%nat
     ∧ (h + length (alternatives (subjects_of data (relation q) (object q))
                      (subject q)) ≤ num_entities)%nat)
  ∧ (∀ rank,
       kvsall_rank m data form_of_labelling q = Ok rank →
       if decide (form_of_labelling = "RelationPrediction")
       then forward_k_vs_all_e2 m (subject q) (object q) !! relation q
            ≠ Some NegInf →
            (rank + 1
             + length (alternatives
                         (relations_of data (subject q) (object q))
                         (relation q))
             ≤ length (forward_k_vs_all_e2 m (subject q) (object q)))%nat
       else forward_k_vs_all_rel m (subject q) (relation q) !! object q
            ≠ Some NegInf →
            (rank + 1
             + length (alternatives
                         (objects_of data (subject q) (relation q))
                         (object q))
             ≤ length (forward_k_vs_all_rel m (subject q) (relation q)))%nat).
Proof.
  split.
  - intros h t Hfinite (rh & rt & Hrt & Hrh & -> & ->)%lp_ranks_Ok.
    apply rank_plus_alternatives in Hrt, Hrh.
    + rewrite predictions_tails_length in Hrt.
      rewrite predictions_heads_length in Hrh. lia.
    + intros Heq%predictions_heads_target. congruence.
    + intros Heq%predictions_tails_target. congruence.
  - intros rank Hrank. unfold kvsall_rank in Hrank.
    case_decide; intros Hfinite; by apply rank_plus_alternatives in Hrank.
Qed.

(** On the sample query the frame holds one alternative tail, entity 2, so
    the tail rank is at most 3 of 4. *)
Lemma alternatives_never_outrank_witness :
  ∃ h t,
    lp_ranks (H := merge_torch_sort) (eval sample_model) sample_data 4
      sample_query = Ok (h, t)
    ∧ (t + 1 ≤ 4)%nat.
Proof.
  assert (is_ok (lp_ranks (H := merge_torch_sort) (eval sample_model)
                   sample_data 4 sample_query) = true) as Hok.
  { vm_compute. reflexivity. }
  destruct (lp_ranks (H := merge_torch_sort) (eval sample_model) sample_data
              4 sample_query) as [[h t]|] eqn:Hranks; [|discriminate Hok].
  exists h, t. split; [reflexivity|].
  exact (proj1 (proj1 (alternatives_never_outrank (H := merge_torch_sort)
                         (eval sample_model) sample_data 4
                         "EntityPrediction" sample_query) h t
                  ltac:(discriminate) Hranks)).
Defined.



(** ** When training returns *)

Section training_outcome.
Context `{Backend}.

Lemma extract_input_outputs_cases gpu z :
  (well_shaped z → is_ok (extract_input_outputs gpu z) = true)
  ∧ (¬ well_shaped z →
     extract_input_outputs gpu z = Raise (NameError "batch")).
Proof.
  unfold well_shaped.
  destruct z as [|a [|b [|c [|d z]]]]; simpl; split;
    try done; try (intros [?|?]; simpl in *; lia);
    try (intros _; by rewrite load_global_batch);
    intros Hnot; destruct Hnot; auto.
Qed.

Lemma epoch_loop_cases batches k st :
  (Forall well_shaped batches →
   is_ok (for_each epoch_body (zip (seq k (length batches)) batches) st)
   = true)
  ∧ (¬ Forall well_shaped batches →
     for_each epoch_body (zip (seq k (length batches)) batches) st
     = Raise (NameError "batch")).
Proof.
  revert k st. induction batches as [|z batches IH]; intros k st.
  - split; [done|]. intros Hnot. destruct Hnot. constructor.
  - cbn [length seq zip_with for_each].
    destruct st as [[self acc] i0]. unfold epoch_body at 2 4.
    destruct (extract_input_outputs_cases (gpu_id self) z) as [Hok Hraise].
    destruct (decide (well_shaped z)) as [Hz|Hz].
    + specialize (Hok Hz).
      destruct (extract_input_outputs (gpu_id self) z)
        as [[source targets]|] eqn:Hextract; [|done]. simpl.
      destruct (IH (S k) ((_run_batch self source targets).1,
                          acc + (_run_batch self source targets).2, k))
        as [IHok IHraise].
      split.
      * intros [_ Hall]%Forall_cons. by apply IHok.
      * intros Hnot. apply IHraise. intros Hall. apply Hnot.
        by constructor.
    + rewrite (Hraise Hz). simpl. split; [|done].
      by intros [? _]%Forall_cons.
Qed.

Lemma train_epoch_cases self epoch :
  (epoch_well_shaped (train_dataset_loader self) (gpu_id self) epoch →
   is_ok (train_epoch self epoch) = true)
  ∧ (¬ epoch_well_shaped (train_dataset_loader self) (gpu_id self) epoch →
     train_epoch self epoch = Raise (NameError "batch")).
Proof.
  unfold epoch_well_shaped, train_epoch, _run_epoch, enumerate.
  destruct (epoch_loop_cases
              (batches_for (train_dataset_loader self) (gpu_id self) epoch)
              0 (self, 0, 0%nat)) as [Hok Hraise].
  split.
  - intros Hall. specialize (Hok Hall).
    destruct (for_each _ _ _) as [[[self1 loss1] i1]|]; [|done].
    simpl. by case_decide.
  - intros Hnot. by rewrite (Hraise Hnot).
Qed.

Lemma train_loop_cases epochs self :
  (Forall (epoch_well_shaped (train_dataset_loader self) (gpu_id self))
     epochs →
   is_ok (for_each train_epoch epochs self) = true)
  ∧ (¬ Forall (epoch_well_shaped (train_dataset_loader self) (gpu_id self))
         epochs →
     for_each train_epoch epochs self = Raise (NameError "batch")).
Proof.
  revert self. induction epochs as [|epoch epochs IH]; intros self.
  - split; [done|]. intros Hnot. destruct Hnot. constructor.
  - cbn [for_each].
    destruct (train_epoch_cases self epoch) as [Hok Hraise].
    destruct (decide (epoch_well_shaped (train_dataset_loader self)
                        (gpu_id self) epoch)) as [He|He].
    + specialize (Hok He).
      destruct (train_epoch self epoch) as [self1|] eqn:Hepoch; [|done].
      simpl.
      apply train_epoch_Ok in Hepoch
        as (_ & _ & (Hgpu & Hloader & _) & _).
      destruct (IH self1) as [IHok IHraise].
      rewrite Hgpu, Hloader in IHok, IHraise. split.
      * intros [_ Hall]%Forall_cons. by apply IHok.
      * intros Hnot. apply IHraise. intros Hall. apply Hnot.
        by constructor.
    + rewrite (Hraise He). simpl. split; [|done].
      by intros [? _]%Forall_cons.
Qed.
End training_outcome.

(** A worker's training returns exactly when every batch its loader yields
    in every epoch has two or three tensors. Otherwise it stops at the first
    batch of another length with the [NameError] of the unbound name
    [batch]; it raises nothing else. *)
Theorem train_returns_iff_batches_well_shaped `{Backend} self :
  (Forall (epoch_well_shaped (train_dataset_loader self) (gpu_id self))
     (seq 0 (num_epochs self)) →
   is_ok (train self) = true)
  ∧ (¬ Forall (epoch_well_shaped (train_dataset_loader self) (gpu_id self))
         (seq 0 (num_epochs self)) →
     train self = Raise (NameError "batch")).
Proof. apply train_loop_cases. Qed.

Lemma train_returns_iff_batches_well_shaped_witness :
  ¬ Forall (epoch_well_shaped faulty_loader 1) (seq 0 2)
  ∧ train (H := sample_backend)
      (ddp_trainer_init sample_module faulty_loader 1 ["callback"] 2)
    = Raise (NameError "batch").
Proof.
  assert (¬ Forall (epoch_well_shaped faulty_loader 1) (seq 0 2)) as Hbad.
  { intros Hall. apply Forall_cons in Hall as [_ Hall].
    apply Forall_cons in Hall as [Hepoch _].
    unfold epoch_well_shaped in Hepoch. simpl in Hepoch.
    apply Forall_cons in Hepoch as [_ Hepoch].
    apply Forall_cons in Hepoch as [[Hlen|Hlen] _]; simpl in Hlen; lia. }
  split; [exact Hbad|].
  exact (proj2 (train_returns_iff_batches_well_shaped (H := sample_backend)
                  (ddp_trainer_init sample_module faulty_loader 1
                     ["callback"] 2)) Hbad).
Defined.


(** ** When [fit] returns *)

Section fit_outcome.
Context `{Backend}.

Lemma distributed_training_cases rank world_size model loader cbs epochs
    (fs : files) :
  (worker_well_shaped loader epochs rank →
   ∃ trainer,
     distributed_training rank world_size model loader cbs epochs fs
     = Ok trainer)
  ∧ (¬ worker_well_shaped loader epochs rank →
     distributed_training rank world_size model loader cbs epochs fs
     = Raise (NameError "batch")).
Proof.
  unfold distributed_training, train.
  destruct (train_loop_cases (seq 0 epochs)
              (ddp_trainer_init model loader rank cbs epochs))
    as [Hok Hraise].
  split.
  - intros Hall. specialize (Hok Hall).
    change (num_epochs (ddp_trainer_init model loader rank cbs epochs))
      with epochs.
    destruct (for_each train_epoch _ _) as [trained|]; [|done].
    simpl. case_decide; eauto.
  - intros Hnot.
    change (num_epochs (ddp_trainer_init model loader rank cbs epochs))
      with epochs.
    by rewrite (Hraise Hnot).
Qed.

Lemma spawn_loop_is_ok world_size model loader cbs epochs k n (fs : files) :
  (∀ rank, (k ≤ rank < k + n)%nat → worker_well_shaped loader epochs rank) →
  is_ok
    (for_each (λ fs rank,
                 match snd <$> distributed_training rank world_size model
                                 loader cbs epochs fs with
                 | Ok fs => Ok fs
                 | Raise e => Raise (ProcessRaisedException rank e)
                 end) (seq k n) fs) = true.
Proof.
  revert k fs. induction n as [|n IH]; intros k fs Hall; [done|].
  cbn [seq for_each].
  destruct (proj1 (distributed_training_cases k world_size model loader cbs
                     epochs fs)) as [[trainer fs1] ->].
  { apply Hall. lia. }
  simpl. apply IH. intros rank Hrank. apply Hall. lia.
Qed.

Lemma spawn_loop_raises world_size model loader cbs epochs k n (fs : files)
    rank :
  (k ≤ rank < k + n)%nat →
  ¬ worker_well_shaped loader epochs rank →
  ∃ rank',
    (k ≤ rank' < k + n)%nat
    ∧ ¬ worker_well_shaped loader epochs rank'
    ∧ for_each (λ fs rank,
                  match snd <$> distributed_training rank world_size model
                                  loader cbs epochs fs with
                  | Ok fs => Ok fs
                  | Raise e => Raise (ProcessRaisedException rank e)
                  end) (seq k n) fs
      = Raise (ProcessRaisedException rank' (NameError "batch")).
Proof.
  revert k fs. induction n as [|n IH]; intros k fs Hrank Hbad; [lia|].
  cbn [seq for_each].
  destruct (distributed_training_cases k world_size model loader cbs epochs
              fs) as [Hok Hraise].
  destruct (decide (worker_well_shaped loader epochs k)) as [Hk|Hk].
  - destruct (Hok Hk) as [[trainer fs1] ->]. simpl.
    assert (rank ≠ k) by (by intros ->).
    destruct (IH (S k) fs1) as (rank' & Hrank' & Hbad' & ->); [lia|done|].
    exists rank'. split; [lia|done].
  - rewrite (Hraise Hk). simpl. exists k. split; [lia|done].
Qed.
End fit_outcome.

(** With at least one device, [fit] returns exactly when every batch of
    every worker has two or three tensors. It then hands back the caller's
    model with the parameters rank 0 ended with and everything else as it
    was, and the working directory differs from the one before the call only
    in that [model.pt] is absent. Otherwise the call fails with the
    [NameError] of a worker that met a batch of another length. *)
Theorem fit_with_devices `{Backend} self model loader (fs : files) :
  (0 < world_size_of self)%nat →
  ((∀ rank, (rank < world_size_of self)%nat →
      worker_well_shaped loader (attributes_num_epochs self) rank) →
   ∃ trained,
     train (ddp_trainer_init model loader 0 (fit_callbacks self)
              (attributes_num_epochs self)) = Ok trained
     ∧ fit self model loader fs
       = Ok (load_state_dict model
               (state_dict (module (trainer_model trained))),
             delete "model.pt" fs))
  ∧ (∀ rank, (rank < world_size_of self)%nat →
      ¬ worker_well_shaped loader (attributes_num_epochs self) rank →
      ∃ rank',
        (rank' < world_size_of self)%nat
        ∧ ¬ worker_well_shaped loader (attributes_num_epochs self) rank'
        ∧ fit self model loader fs
          = Raise (ProcessRaisedException rank' (NameError "batch"))).
Proof.
  unfold world_size_of. intros Hworld. split.
  - intros Hall.
    pose proof (spawn_loop_is_ok
                  (attributes_num_nodes self * cuda_device_count self)
                  model loader (fit_callbacks self)
                  (attributes_num_epochs self) 0
                  (attributes_num_nodes self * cuda_device_count self) fs)
      as Hok.
    specialize (Hok (λ rank Hrank, Hall rank (proj2 Hrank))).
    unfold fit, spawn.
    destruct (for_each _ _ fs) as [fs1|] eqn:Hspawn.
    + apply spawn_Ok in Hspawn as (trained & Htrain & ->); [|done].
      exists trained. split; [done|]. simpl. unfold torch_load.
      rewrite lookup_insert_eq. simpl. by rewrite delete_insert_eq.
    + done.
  - intros rank Hrank Hbad.
    destruct (spawn_loop_raises
                (attributes_num_nodes self * cuda_device_count self)
                model loader (fit_callbacks self)
                (attributes_num_epochs self) 0
                (attributes_num_nodes self * cuda_device_count self) fs rank)
      as (rank' & Hrank' & Hbad' & Hspawn); [lia|done|].
    exists rank'. split; [lia|]. split; [done|].
    unfold fit, spawn. by rewrite Hspawn.
Qed.

Lemma fit_with_devices_witness :
  (0 < world_size_of sample_coordinator)%nat
  ∧ ∃ rank',
      fit (H := sample_backend) sample_coordinator sample_module
        faulty_loader ∅
      = Raise (ProcessRaisedException rank' (NameError "batch")).
Proof.
  assert (0 < world_size_of sample_coordinator)%nat as Hworld
    by (vm_compute; lia).
  split; [exact Hworld|].
  assert (¬ worker_well_shaped faulty_loader
              (attributes_num_epochs sample_coordinator) 1) as Hbad.
  { intros Hall. apply Forall_cons in Hall as [_ Hall].
    apply Forall_cons in Hall as [Hepoch _].
    unfold epoch_well_shaped in Hepoch. simpl in Hepoch.
    apply Forall_cons in Hepoch as [_ Hepoch].
    apply Forall_cons in Hepoch as [[Hlen|Hlen] _]; simpl in Hlen; lia. }
  destruct (proj2 (fit_with_devices (H := sample_backend) sample_coordinator
                     sample_module faulty_loader ∅ Hworld) 1%nat)
    as (rank' & _ & _ & Hfit); [vm_compute; lia|exact Hbad|].
  by exists rank'.
Defined.

(** Without a device (or with zero nodes) [fit] starts no process and
    trains nothing. If the working directory holds no [model.pt] it raises
    [FileNotFoundError]; if a [model.pt] is lying there from an earlier
    run, the call loads that file into the caller's model, deletes it and
    returns. *)
Theorem fit_without_devices `{Backend} self model loader (fs : files) :
  world_size_of self = 0%nat →
  (fs !! "model.pt" = None →
   fit self model loader fs = Raise (FileNotFoundError "model.pt"))
  ∧ (∀ sd, fs !! "model.pt" = Some sd →
      fit self model loader fs
      = Ok (load_state_dict model sd, delete "model.pt" fs)).
Proof.
  unfold world_size_of, fit, spawn. intros ->. cbn [seq for_each].
  simpl. unfold torch_load. split.
  - by intros ->.
  - by intros sd ->.
Qed.

Lemma fit_without_devices_witness :
  world_size_of cpu_coordinator = 0%nat
  ∧ fit (H := sample_backend) cpu_coordinator sample_module sample_loader
      {["model.pt" := [qn 5; qn 7]]}
    = Ok (load_state_dict sample_module [qn 5; qn 7],
          delete "model.pt" {["model.pt" := [qn 5; qn 7]]}).
Proof.
  split; [reflexivity|].
  apply (proj2 (fit_without_devices (H := sample_backend) cpu_coordinator
                  sample_module sample_loader
                  {["model.pt" := [qn 5; qn 7]]} eq_refl)).
  apply lookup_singleton_eq.
Defined.


(** ** Training without batches *)

Section empty_loader.
Context `{Backend}.

Lemma train_epoch_without_batches self epoch :
  batches_for (train_dataset_loader self) (gpu_id self) epoch = [] →
  ∃ self',
    train_epoch self epoch = Ok self'
    ∧ same_setup self self'
    ∧ state_dict (module (trainer_model self'))
      = state_dict (module (trainer_model self))
    ∧ steps_done self' = steps_done self
    ∧ loss_history (module (trainer_model self'))
      = loss_history (module (trainer_model self))
        ++ (if decide (gpu_id self = 0%nat) then [0] else []).
Proof.
  intros Hempty. unfold train_epoch, _run_epoch, enumerate.
  rewrite Hempty. cbn [length seq zip_with for_each mbind result_mbind
                        result_bind].
  rewrite Qcdiv_0_l. case_decide.
  - eexists. split; [done|]. simpl. by repeat split.
  - exists self. split; [done|]. split; [apply same_setup_refl|].
    by rewrite app_nil_r.
Qed.

Lemma train_loop_without_batches epochs self :
  (∀ epoch,
     batches_for (train_dataset_loader self) (gpu_id self) epoch = []) →
  ∃ self',
    for_each train_epoch epochs self = Ok self'
    ∧ same_setup self self'
    ∧ state_dict (module (trainer_model self'))
      = state_dict (module (trainer_model self))
    ∧ steps_done self' = steps_done self
    ∧ loss_history (module (trainer_model self'))
      = loss_history (module (trainer_model self))
        ++ (if decide (gpu_id self = 0%nat)
            then replicate (length epochs) 0 else []).
Proof.
  revert self. induction epochs as [|epoch epochs IH]; intros self Hempty.
  - exists self. split; [done|]. split; [apply same_setup_refl|].
    case_decide; by rewrite app_nil_r.
  - cbn [for_each].
    destruct (train_epoch_without_batches self epoch (Hempty epoch))
      as (self1 & -> & Hsetup & Hsd & Hsteps & Hhist).
    pose proof Hsetup as (Hgpu & Hloader & _).
    destruct (IH self1) as (self' & Hloop & Hsetup' & Hsd' & Hsteps' & Hhist').
    { intros e. rewrite Hgpu, Hloader. apply Hempty. }
    exists self'. simpl. split; [done|].
    split; [by eapply same_setup_trans|].
    split; [congruence|]. split; [congruence|].
    rewrite Hhist', Hhist, Hgpu, <-app_assoc. by destruct (decide (gpu_id self = 0%nat)).
Qed.
End empty_loader.

(** A worker whose loader yields no batch in any epoch still completes its
    run: no step is taken and the parameters stay as they are, and rank 0
    records a mean loss of zero for every epoch (the epoch's sum, zero,
    divided by one) while other ranks record nothing. *)
Theorem train_without_batches `{Backend} self :
  (∀ epoch,
     batches_for (train_dataset_loader self) (gpu_id self) epoch = []) →
  ∃ self',
    train self = Ok self'
    ∧ state_dict (module (trainer_model self'))
      = state_dict (module (trainer_model self))
    ∧ steps_done self' = steps_done self
    ∧ loss_history (module (trainer_model self'))
      = loss_history (module (trainer_model self))
        ++ (if decide (gpu_id self = 0%nat)
            then replicate (num_epochs self) 0 else []).
Proof.
  intros Hempty. unfold train.
  destruct (train_loop_without_batches (seq 0 (num_epochs self)) self Hempty)
    as (self' & Htrain & _ & Hsd & Hsteps & Hhist).
  rewrite length_seq in Hhist. exists self'. by repeat split.
Qed.

Lemma train_without_batches_witness :
  ∃ self',
    train (H := sample_backend)
      (ddp_trainer_init sample_module empty_loader 0 ["callback"] 2)
    = Ok self'
    ∧ state_dict (module (trainer_model self')) = [1; 1]
    ∧ loss_history (module (trainer_model self')) = [0; 0].
Proof.
  destruct (train_without_batches (H := sample_backend)
              (ddp_trainer_init sample_module empty_loader 0 ["callback"] 2)
              (λ _, eq_refl))
    as (self' & Htrain & Hsd & _ & Hhist).
  exists self'. split; [exact Htrain|]. split; [exact Hsd|exact Hhist].
Defined.

(** ** What a worker leaves behind *)

(** When the entry point of a worker returns: rank 0 has written its final
    parameters to [model.pt] and nothing else, has one mean loss per epoch
    in the loss history of its own copy of the module and has called every
    callback once per epoch, and the list it set on the wrapper is the
    trainer's own, which is empty; every other rank has left the files, the
    loss history and the callbacks alone. *)
Theorem worker_effects `{Backend} rank world_size model loader cbs epochs
    (fs : files) trainer fs' :
  distributed_training rank world_size model loader cbs epochs fs
  = Ok (trainer, fs') →
  (rank = 0%nat →
   fs' = <["model.pt" := state_dict (module (trainer_model trainer))]> fs
   ∧ wrapper_loss_history (trainer_model trainer) = Some []
   ∧ length (loss_history (module (trainer_model trainer)))
     = (length (loss_history model) + epochs)%nat
   ∧ length (hook_calls trainer) = (epochs * length cbs)%nat)
  ∧ (rank ≠ 0%nat →
     fs' = fs
     ∧ loss_history (module (trainer_model trainer)) = loss_history model
     ∧ hook_calls trainer = []).
Proof.
  unfold distributed_training, train.
  cbn [num_epochs ddp_trainer_init].
  intros (trained & Htrain & Hend)%bind_Ok. split.
  - intros Hrank. rewrite decide_True in Hend by done.
    injection Hend as <- <-.
    apply train_loop_rank_zero in Htrain
      as (Hsetup & (appended & Hhist & Hlen) & (calls & Hcalls & Hcount));
      [|done].
    destruct Hsetup as (_ & _ & _ & _ & Htl & _).
    split; [done|]. split; [simpl; by rewrite Htl|]. split.
    + cbn [trainer_model set_wrapper_loss_history module].
      rewrite Hhist, length_app, Hlen, length_seq. done.
    + cbn [hook_calls set_wrapper_loss_history].
      rewrite Hcalls. cbn [hook_calls ddp_trainer_init app].
      rewrite Hcount, length_seq. done.
  - intros Hrank. rewrite decide_False in Hend by done.
    injection Hend as <- <-.
    apply train_loop_nonzero_rank in Htrain as (_ & Hhist & Hcalls);
      [|done].
    done.
Qed.

Lemma worker_effects_witness :
  ∃ trainer fs',
    distributed_training (H := sample_backend) 0 2 sample_module
      sample_loader ["callback"] 2 ∅ = Ok (trainer, fs')
    ∧ wrapper_loss_history (trainer_model trainer) = Some []
    ∧ length (loss_history (module (trainer_model trainer))) = 2%nat.
Proof.
  destruct (distributed_training (H := sample_backend) 0 2 sample_module
              sample_loader ["callback"] 2 ∅)
    as [[trainer fs']|e] eqn:Hworker; [|by vm_compute in Hworker].
  exists trainer, fs'. split; [reflexivity|].
  destruct (proj1 (worker_effects (H := sample_backend) 0 2 sample_module
                     sample_loader ["callback"] 2 ∅ trainer fs' Hworker)
              eq_refl) as (_ & Hwrapper & Hlen & _).
  split; [exact Hwrapper|exact Hlen].
Defined.


(** ** Batches and their targets *)

Lemma py_slice_forward {A} (l : list A) (idx size : Z) :
  (0 ≤ idx)%Z → (0 ≤ size)%Z →
  py_slice l idx (idx + size) = take (Z.to_nat size) (drop (Z.to_nat idx) l).
Proof.
  intros Hidx Hsize. unfold py_slice, slice_bound.
  rewrite !decide_False by lia.
  destruct (decide (Z.of_nat (length l) ≤ idx)%Z) as [Hout|Hin].
  - rewrite !drop_ge by lia. by rewrite !take_nil.
  - replace (Z.to_nat (Z.min idx (Z.of_nat (length l)))) with (Z.to_nat idx)
      by lia.
    destruct (decide (idx + size ≤ Z.of_nat (length l))%Z) as [Hfits|Hover].
    + f_equal. lia.
    + rewrite !take_ge; [done| |]; rewrite length_drop; lia.
Qed.

Lemma index_fill_multi_hot output_dim cols :
  Forall (λ j, (j < output_dim)%nat) cols →
  index_fill (replicate output_dim 0) cols 1 = Ok (multi_hot output_dim cols).
Proof.
  intros Hall.
  pose proof (index_fill_total (replicate output_dim (0 : Qc)) cols 1) as Hok.
  rewrite length_replicate in Hok. specialize (Hok Hall).
  destruct (index_fill _ _ _) as [row|] eqn:Hfill; [|done]. f_equal.
  apply index_fill_Ok in Hfill as (_ & Hlen & Hlook).
  apply list_eq. intros j. rewrite Hlook. unfold multi_hot.
  rewrite list_lookup_fmap.
  destruct (decide (j < output_dim)%nat) as [Hj|Hj].
  - rewrite lookup_replicate_2, lookup_seq_lt by done. simpl.
    by case_decide.
  - rewrite (proj1 (lookup_replicate_None output_dim (0 : Qc) j)) by lia.
    rewrite lookup_seq_ge by lia. by case_decide.
Qed.

Lemma index_fill_zeros_Raise output_dim cols e :
  index_fill (replicate output_dim (0 : Qc)) cols 1 = Raise e →
  e = IndexError ∧ ¬ Forall (λ j, (j < output_dim)%nat) cols.
Proof.
  intros [-> Hnot]%index_fill_Raise. by rewrite length_replicate in Hnot.
Qed.

Lemma insert_middle {A} (l1 l2 : list A) x y :
  <[length l1 := y]> (l1 ++ x :: l2) = l1 ++ y :: l2.
Proof. by rewrite <-(Nat.add_0_r (length l1)), insert_app_r. Qed.

Lemma set_targets_loop er_vocab output_dim rest pre :
  complete_vocab er_vocab output_dim rest →
  for_each_outcome (set_targets er_vocab)
    (zip (seq (length pre) (length rest)) rest)
    (pre ++ np_zeros (length rest) output_dim)
  = Returns (pre ++ ((λ p, multi_hot output_dim (default [] (er_vocab !! p)))
                       <$> rest)).
Proof.
  revert pre. induction rest as [|p rest IH]; intros pre Hall; [done|].
  apply Forall_cons in Hall as [(cols & Hcols & Hbound) Hall].
  cbn [length seq zip_with for_each_outcome]. unfold set_targets at 2.
  rewrite Hcols. unfold np_zeros. cbn [replicate]. unfold tensor_get.
  rewrite list_lookup_middle by done.
  cbn [of_result mbind outcome_mbind outcome_bind].
  rewrite (index_fill_multi_hot _ _ Hbound).
  cbn [of_result mbind outcome_mbind outcome_bind].
  rewrite insert_middle.
  rewrite (cons_middle _ pre). 
  replace (S (length pre)) with (length (pre ++ [multi_hot output_dim cols]))
    by (rewrite length_app; simpl; lia).
  rewrite app_assoc. rewrite (IH _ Hall).
  by rewrite fmap_cons, Hcols, <-app_assoc.
Qed.

Lemma set_targets_loop_Raises er_vocab output_dim rest pre e :
  for_each_outcome (set_targets er_vocab)
    (zip (seq (length pre) (length rest)) rest)
    (pre ++ np_zeros (length rest) output_dim)
  = Raises e →
  (∃ p, p ∈ rest ∧ er_vocab !! p = None ∧ e = KeyError p)
  ∨ (∃ p cols, p ∈ rest ∧ er_vocab !! p = Some cols
               ∧ ¬ Forall (λ j, (j < output_dim)%nat) cols
               ∧ e = Builtin IndexError).
Proof.
  revert pre. induction rest as [|p rest IH]; intros pre; [done|].
  cbn [length seq zip_with for_each_outcome]. unfold set_targets at 2.
  destruct (er_vocab !! p) as [cols|] eqn:Hcols.
  - unfold np_zeros. cbn [replicate]. unfold tensor_get.
    rewrite list_lookup_middle by done.
    cbn [of_result mbind outcome_mbind outcome_bind].
    destruct (index_fill (replicate output_dim 0) cols 1) as [row|e']
      eqn:Hfill; cbn [of_result mbind outcome_mbind outcome_bind].
    + rewrite insert_middle.
      rewrite (cons_middle _ pre).
      replace (S (length pre)) with (length (pre ++ [row]))
        by (rewrite length_app; simpl; lia).
      rewrite app_assoc. intros Hrest.
      destruct (IH _ Hrest) as [(q & Hq & Hnone & ->)
                               |(q & qcols & Hq & Hsome & Hbad & ->)].
      * left. exists q. split; [by right|done].
      * right. exists q, qcols. split; [by right|done].
    + apply index_fill_zeros_Raise in Hfill as [-> Hbad].
      intros [= <-]. right. exists p, cols. split; [by left|done].
  - cbn [mbind outcome_mbind outcome_bind]. intros [= <-]. left.
    exists p. split; [by left|done].
Qed.

(** For a start index and a batch size that are not negative,
    [old_get_batch_1_to_N] takes the next [batch_size] pairs from position
    [idx]. When every pair of that batch is a key of the vocabulary with
    indices below [output_dim], it returns the batch with one target row
    per pair, holding a one exactly at the indices listed for the pair. It
    raises only a [KeyError] for a pair of the batch that is not a key, or
    an [IndexError] for a pair with an index outside the row. *)
Theorem old_get_batch_1_to_N_targets self er_vocab er_vocab_pairs idx
    output_dim :
  (0 ≤ idx)%Z → (0 ≤ batch_size self)%Z →
  let batch :=
    take (Z.to_nat (batch_size self)) (drop (Z.to_nat idx) er_vocab_pairs) in
  (complete_vocab er_vocab output_dim batch →
   old_get_batch_1_to_N self er_vocab er_vocab_pairs idx output_dim
   = Returns (batch,
              (λ p, multi_hot output_dim (default [] (er_vocab !! p)))
                <$> batch))
  ∧ (∀ e,
       old_get_batch_1_to_N self er_vocab er_vocab_pairs idx output_dim
       = Raises e →
       (∃ p, p ∈ batch ∧ er_vocab !! p = None ∧ e = KeyError p)
       ∨ (∃ p cols, p ∈ batch ∧ er_vocab !! p = Some cols
                    ∧ ¬ Forall (λ j, (j < output_dim)%nat) cols
                    ∧ e = Builtin IndexError)).
Proof.
  intros Hidx Hsize batch. unfold old_get_batch_1_to_N, enumerate.
  rewrite py_slice_forward by done. fold batch. split.
  - intros Hall.
    pose proof (set_targets_loop er_vocab output_dim batch [] Hall) as Hloop.
    cbn [length app] in Hloop. by rewrite Hloop.
  - intros e Hraise.
    apply (set_targets_loop_Raises er_vocab output_dim batch []).
    cbn [length app].
    destruct (for_each_outcome _ _ _) as [targets|e']; [done|].
    by injection Hraise as ->.
Qed.

Lemma old_get_batch_1_to_N_targets_witness :
  complete_vocab sample_er_vocab 3 [(1, 0); (0, 0)]%nat
  ∧ old_get_batch_1_to_N sample_execute sample_er_vocab
      [(0, 0); (1, 0); (0, 0)]%nat 1 3
    = Returns ([(1, 0); (0, 0)]%nat, [[1; 0; 0]; [0; 1; 1]]).
Proof.
  assert (complete_vocab sample_er_vocab 3 [(1, 0); (0, 0)]%nat) as Hall.
  { repeat constructor.
    - exists [0%nat]. split; [done|]. repeat constructor.
    - exists [1%nat; 2%nat]. split; [done|]. repeat constructor. }
  split; [exact Hall|].
  exact (proj1 (old_get_batch_1_to_N_targets sample_execute sample_er_vocab
                  [(0, 0); (1, 0); (0, 0)]%nat 1 3 ltac:(done) ltac:(done))
           Hall).
Defined.

(** [get_batch_1_to_N] returns only when its slice of the pairs is empty,
    and then with no pair and no row. For every other slice it ends the
    process with exit status 1 at the first pair, whatever the vocabulary
    holds: it never returns a target row and never raises a [KeyError] or
    an [IndexError]. *)
Theorem get_batch_1_to_N_exits self er_vocab er_vocab_pairs idx output_dim :
  get_batch_1_to_N self er_vocab er_vocab_pairs idx output_dim
  = match py_slice er_vocab_pairs idx (idx + batch_size self) with
    | [] => Returns ([], [])
    | _ => Raises (SystemExit 1)
    end.
Proof.
  unfold get_batch_1_to_N.
  by destruct (py_slice er_vocab_pairs idx (idx + batch_size self)).
Qed.


(** ** Training runs: calls of [trainer.fit] and endings *)

Lemma ending_bind {A B} (f : A → exec B) (x : exec A) :
  ending (x ≫= f)
  = match ending x with
    | Returns a => ending (f a)
    | Raises e => Raises e
    end.
Proof. unfold mbind, exec_mbind, exec_bind. by destruct (ending x). Qed.

Lemma calls_bind {A B} (f : A → exec B) (x : exec A) :
  calls (x ≫= f)
  = match ending x with
    | Returns a => calls x ++ calls (f a)
    | Raises e => calls x
    end.
Proof. unfold mbind, exec_mbind, exec_bind. by destruct (ending x). Qed.

Lemma ending_fmap {A B} (f : A → B) (x : exec A) :
  ending (f <$> x)
  = match ending x with
    | Returns a => Returns (f a)
    | Raises e => Raises e
    end.
Proof. unfold fmap, exec_fmap, exec_bind. by destruct (ending x). Qed.

Lemma calls_fmap {A B} (f : A → B) (x : exec A) : calls (f <$> x) = calls x.
Proof.
  unfold fmap, exec_fmap, exec_bind. destruct (ending x); simpl; [|done].
  apply app_nil_r.
Qed.

Lemma exec_inv_bind {A B} Q P (x : exec A) (f : A → exec B) :
  exec_inv Q P x →
  (∀ a, ending x = Returns a → exec_inv Q P (f a)) →
  exec_inv Q P (x ≫= f).
Proof.
  intros [Hcalls Hend] Hf. destruct x as [cs [a|e]].
  - destruct (Hf a eq_refl) as [Hcalls' Hend'].
    split; [by apply Forall_app|done].
  - split; [exact Hcalls|]. intros e0 [= <-]. by apply Hend.
Qed.

Lemma exec_inv_fmap {A B} Q P (x : exec A) (f : A → B) :
  exec_inv Q P x → exec_inv Q P (f <$> x).
Proof.
  intros [Hcalls Hend]. unfold exec_inv. rewrite calls_fmap, ending_fmap.
  split; [done|]. destruct (ending x); [done|].
  intros e0 [= <-]. by apply Hend.
Qed.

Lemma exec_inv_ret {A} Q P (a : A) : exec_inv Q P (mret a).
Proof. split; [constructor|done]. Qed.

Lemma exec_inv_raise {A} Q (P : py_exn → Prop) e :
  P e → exec_inv Q P (raise (A := A) e).
Proof. intros He. split; [constructor|]. by intros e' [= <-]. Qed.

Lemma exec_inv_lift {A} Q (P : py_exn → Prop) (r : result A) :
  (∀ e, r = Raise e → P (Builtin e)) → exec_inv Q P (lift r).
Proof.
  intros Hr. split; [constructor|]. destruct r as [a|e]; [done|].
  intros e' [= <-]. by apply Hr.
Qed.

Lemma exec_inv_fit `{Lightning} (Q : event → Prop) P t m dataset :
  Q (Fit t m dataset) → exec_inv Q P (fit_with t m dataset).
Proof. intros Hq. split; [by repeat constructor|done]. Qed.

Lemma exec_inv_for_each {A S} Q P (body : S → A → exec S) xs acc :
  (∀ acc x, x ∈ xs → exec_inv Q P (body acc x)) →
  exec_inv Q P (for_each_exec body xs acc).
Proof.
  revert acc. induction xs as [|x xs IH]; intros acc Hbody.
  - apply exec_inv_ret.
  - cbn [for_each_exec]. apply exec_inv_bind.
    + apply Hbody. by left.
    + intros acc' _. apply IH. intros acc'' y Hy. apply Hbody. by right.
Qed.

(** The evaluators as the training methods call them. *)
Lemma call_evaluate_lp_k_vs_all_run `{TorchSort} self m triple_idx form :
  call_evaluate_lp_k_vs_all self m triple_idx form
  = (λ r, (eval m, r))
      <$> lift (spec_single_ranking (storage_path self) m triple_idx form).
Proof.
  unfold call_evaluate_lp_k_vs_all. rewrite evaluate_lp_k_vs_all_spec.
  by destruct (spec_single_ranking _ _ _ _).
Qed.

Lemma call_evaluate_lp_run `{TorchSort} self m triple_idx :
  call_evaluate_lp self m triple_idx
  = (λ r, (eval m, r))
      <$> lift (spec_entity_ranking (storage_path self)
                  (dataset_num_entities self) m triple_idx).
Proof.
  unfold call_evaluate_lp. rewrite evaluate_lp_spec.
  by destruct (spec_entity_ranking _ _ _ _).
Qed.

Lemma mapM_result_Raise_inv {A B} (f : A → result B) xs e :
  mapM f xs = Raise e → ∃ x, x ∈ xs ∧ f x = Raise e.
Proof.
  induction xs as [|x xs IH]; [done|]. rewrite mapM_result_cons.
  destruct (f x) as [y|e'] eqn:Hfx; simpl.
  - destruct (mapM f xs) as [ys|e'']; simpl; [done|]. intros [= ->].
    destruct IH as (x' & Hx' & Hraise); [done|].
    exists x'. split; [by right|done].
  - intros [= ->]. exists x. split; [by left|done].
Qed.

Lemma spec_single_ranking_zero_division `{TorchSort} st m triple_idx form :
  spec_single_ranking st m triple_idx form = Raise ZeroDivisionError →
  triple_idx = [].
Proof.
  unfold spec_single_ranking, deserialize_index_data.
  destruct (option_list _ ++ _) as [|frame frames]; [done|]. simpl.
  destruct (mapM _ triple_idx) as [rs|e] eqn:Hrs; simpl.
  - case_decide as Hnil; [|done]. intros _.
    apply fmap_nil_inv in Hnil as ->.
    apply mapM_result_length in Hrs. by destruct triple_idx.
  - intros [= ->]. apply mapM_result_Raise_inv in Hrs as (q & _ & Hq).
    destruct (kvsall_rank_cases (eval m) (frame ++ concat frames) form q)
      as [Hok Hraise].
    destruct (decide (kvsall_query_ok (eval m) (frame ++ concat frames)
                        form q)) as [Hq'|Hq'].
    + apply Hok in Hq'. by rewrite Hq in Hq'.
    + apply Hraise in Hq'. by rewrite Hq in Hq'.
Qed.

Lemma lp_ranks_Raise `{TorchSort} m data num_entities q e :
  lp_ranks m data num_entities q = Raise e → e = IndexError.
Proof.
  unfold lp_ranks.
  destruct (filtered_rank (predictions_tails _ _ _ _) _ _) as [rt|e1]
    eqn:Htails; simpl.
  - destruct (filtered_rank (predictions_heads _ _ _ _) _ _) as [rh|e2]
      eqn:Hheads; simpl; [done|].
    intros [= <-]. by apply filtered_rank_Raise in Hheads as [-> _].
  - intros [= <-]. by apply filtered_rank_Raise in Htails as [-> _].
Qed.

Lemma spec_entity_ranking_zero_division `{TorchSort} st num_entities m
    triple_idx :
  spec_entity_ranking st num_entities m triple_idx = Raise ZeroDivisionError →
  triple_idx = [].
Proof.
  unfold spec_entity_ranking, deserialize_index_data.
  destruct (option_list _ ++ _) as [|frame frames]; [done|]. simpl.
  destruct (mapM _ triple_idx) as [pairs|e] eqn:Hpairs; simpl.
  - case_decide as Hnil; [|done]. intros _. subst pairs.
    apply mapM_result_length in Hpairs. by destruct triple_idx.
  - intros [= ->]. apply mapM_result_Raise_inv in Hpairs as (q & _ & Hq).
    by apply lp_ranks_Raise in Hq.
Qed.

Section guarded_evaluation.
Context `{TorchSort, Lightning}.

Let no_zero_division (e : py_exn) : Prop := e ≠ Builtin ZeroDivisionError.

Lemma guarded_evaluate_lp_k_vs_all self m triple_idx form :
  exec_inv (λ _, True) no_zero_division
    (if decide (0 < length triple_idx)%nat
     then fst <$> call_evaluate_lp_k_vs_all self m triple_idx form
     else mret m).
Proof.
  case_decide as Hlen; [|apply exec_inv_ret].
  rewrite call_evaluate_lp_k_vs_all_run. do 2 apply exec_inv_fmap.
  apply exec_inv_lift. intros e He [= ->].
  apply spec_single_ranking_zero_division in He as ->. simpl in Hlen. lia.
Qed.

Lemma guarded_evaluate_lp self m triple_idx :
  exec_inv (λ _, True) no_zero_division
    (if decide (0 < length triple_idx)%nat
     then fst <$> call_evaluate_lp self m triple_idx
     else mret m).
Proof.
  case_decide as Hlen; [|apply exec_inv_ret].
  rewrite call_evaluate_lp_run. do 2 apply exec_inv_fmap.
  apply exec_inv_lift. intros e He [= ->].
  apply spec_entity_ranking_zero_division in He as ->. simpl in Hlen. lia.
Qed.

Lemma self_trainer_fit_inv Q P self m dataset :
  (∀ t, trainer self = Some t → Q (Fit t m dataset)) →
  (∀ msg, P (AttributeError msg)) →
  exec_inv Q P (self_trainer_fit self m dataset).
Proof.
  intros Hq Hp. unfold self_trainer_fit.
  destruct (trainer self) as [t|]; [|by apply exec_inv_raise].
  apply exec_inv_fit. by apply Hq.
Qed.

Lemma training_kvsall_no_zero_division self :
  exec_inv (λ _, True) no_zero_division (training_kvsall self).
Proof.
  unfold training_kvsall.
  destruct (select_model _ _) as [m form_of_labelling].
  apply exec_inv_bind; [by apply self_trainer_fit_inv|]. intros m1 _.
  destruct (args_eval self); [|apply exec_inv_ret].
  apply exec_inv_bind; [apply guarded_evaluate_lp_k_vs_all|]. intros m2 _.
  apply exec_inv_bind; [apply guarded_evaluate_lp_k_vs_all|]. intros m3 _.
  apply exec_inv_ret.
Qed.

Lemma training_negative_sampling_no_zero_division self :
  exec_inv (λ _, True) no_zero_division (training_negative_sampling self).
Proof.
  unfold training_negative_sampling. apply exec_inv_bind.
  { unfold assert_positive. destruct (neg_ratio (kge self)) as [r|].
    - case_decide; [apply exec_inv_ret|by apply exec_inv_raise].
    - by apply exec_inv_raise. }
  intros _ _. destruct (select_model _ _) as [m form_of_labelling].
  apply exec_inv_bind; [by apply self_trainer_fit_inv|]. intros m1 _.
  destruct (args_eval self); [|apply exec_inv_ret].
  apply exec_inv_bind; [apply guarded_evaluate_lp|]. intros m2 _.
  apply exec_inv_bind; [apply guarded_evaluate_lp|]. intros m3 _.
  apply exec_inv_ret.
Qed.
End guarded_evaluation.

(** The evaluators divide by the number of query triples and raise
    [ZeroDivisionError] on an empty set; the two training methods call them
    only on a validation or test set that is not empty, so neither method
    ever ends with a [ZeroDivisionError], whatever the model, the data and
    the files are. *)
Theorem training_never_divides_by_zero `{TorchSort, Lightning} self :
  ending (training_kvsall self) ≠ Raises (Builtin ZeroDivisionError)
  ∧ ending (training_negative_sampling self)
    ≠ Raises (Builtin ZeroDivisionError).
Proof.
  split.
  - intros Hend.
    by apply (proj2 (training_kvsall_no_zero_division self) _ Hend).
  - intros Hend.
    by apply (proj2 (training_negative_sampling_no_zero_division self) _
                Hend).
Qed.


(** ** What the training methods fit and return *)

Lemma eval_steps_run (x1 : exec model) (x2 : model → exec model) fitted
    (b1 b2 : bool) :
  calls x1 = [] →
  (∀ m', ending x1 = Returns m' → m' = if b1 then eval fitted else fitted) →
  (∀ m, calls (x2 m) = []) →
  (∀ m m', ending (x2 m) = Returns m' → m' = if b2 then eval m else m) →
  calls (m ← x1; m ← x2 m; mret m) = []
  ∧ ∀ m', ending (m ← x1; m ← x2 m; mret m) = Returns m' →
          m' = if b1 || b2 then eval fitted else fitted.
Proof.
  intros Hcalls1 Hend1 Hcalls2 Hend2.
  rewrite calls_bind, ending_bind, Hcalls1.
  destruct (ending x1) as [m1|e1]; [|done].
  rewrite calls_bind, ending_bind, Hcalls2.
  specialize (Hend1 m1 eq_refl). specialize (Hend2 m1).
  destruct (ending (x2 m1)) as [m2|e2]; [|done].
  split; [done|]. intros m' [= <-].
  rewrite (Hend2 m2 eq_refl), Hend1. by destruct b1, b2.
Qed.

Section training_runs.
Context `{TorchSort, Lightning}.

Lemma guarded_evaluate_lp_k_vs_all_run self m triple_idx form :
  calls (if decide (0 < length triple_idx)%nat
         then fst <$> call_evaluate_lp_k_vs_all self m triple_idx form
         else mret m) = []
  ∧ ∀ m', ending (if decide (0 < length triple_idx)%nat
                  then fst <$> call_evaluate_lp_k_vs_all self m triple_idx
                                 form
                  else mret m) = Returns m' →
          m' = if bool_decide (triple_idx ≠ []) then eval m else m.
Proof.
  case_decide as Hlen.
  - rewrite call_evaluate_lp_k_vs_all_run, !calls_fmap, !ending_fmap.
    split; [done|]. intros m'.
    rewrite bool_decide_true by (intros ->; simpl in Hlen; lia).
    destruct (ending (lift _)); [|done]. by intros [= <-].
  - split; [done|]. intros m' [= <-].
    rewrite bool_decide_false; [done|].
    destruct triple_idx; [by intros []|simpl in Hlen; lia].
Qed.

Lemma guarded_evaluate_lp_run self m triple_idx :
  calls (if decide (0 < length triple_idx)%nat
         then fst <$> call_evaluate_lp self m triple_idx
         else mret m) = []
  ∧ ∀ m', ending (if decide (0 < length triple_idx)%nat
                  then fst <$> call_evaluate_lp self m triple_idx
                  else mret m) = Returns m' →
          m' = if bool_decide (triple_idx ≠ []) then eval m else m.
Proof.
  case_decide as Hlen.
  - rewrite call_evaluate_lp_run, !calls_fmap, !ending_fmap.
    split; [done|]. intros m'.
    rewrite bool_decide_true by (intros ->; simpl in Hlen; lia).
    destruct (ending (lift _)); [|done]. by intros [= <-].
  - split; [done|]. intros m' [= <-].
    rewrite bool_decide_false; [done|].
    destruct triple_idx; [by intros []|simpl in Hlen; lia].
Qed.

Lemma training_kvsall_run self t :
  trainer self = Some t →
  calls (training_kvsall self)
  = [Fit t (select_model (model_name (kge self)) 0).1
       (data_module_of self (select_model (model_name (kge self)) 0).2)]
  ∧ ∀ m', ending (training_kvsall self) = Returns m' →
          m' = if evaluates self
               then eval (trainer_fit t
                            (select_model (model_name (kge self)) 0).1
                            (data_module_of self
                               (select_model (model_name (kge self)) 0).2))
               else trainer_fit t
                      (select_model (model_name (kge self)) 0).1
                      (data_module_of self
                         (select_model (model_name (kge self)) 0).2).
Proof.
  intros Ht. unfold training_kvsall, self_trainer_fit, evaluates.
  rewrite Ht. destruct (select_model _ _) as [m0 form_of_labelling].
  rewrite calls_bind, ending_bind. cbn [ending calls fit_with fst snd].
  fold (data_module_of self form_of_labelling).
  destruct (args_eval self); [|split; [done|by intros m' [= <-]]].
  destruct (eval_steps_run
              (if decide (0 < length (dataset_valid_set self))%nat
               then fst <$> call_evaluate_lp_k_vs_all self
                              (trainer_fit t m0
                                 (data_module_of self form_of_labelling))
                              (dataset_valid_set self) form_of_labelling
               else mret (trainer_fit t m0
                            (data_module_of self form_of_labelling)))
              (λ m, if decide (0 < length (dataset_test_set self))%nat
                    then fst <$> call_evaluate_lp_k_vs_all self m
                                   (dataset_test_set self) form_of_labelling
                    else mret m)
              (trainer_fit t m0 (data_module_of self form_of_labelling))
              (bool_decide (dataset_valid_set self ≠ []))
              (bool_decide (dataset_test_set self ≠ [])))
    as [Hcalls Hend].
  - apply guarded_evaluate_lp_k_vs_all_run.
  - apply guarded_evaluate_lp_k_vs_all_run.
  - intros m. apply guarded_evaluate_lp_k_vs_all_run.
  - intros m. apply guarded_evaluate_lp_k_vs_all_run.
  - rewrite Hcalls. split; [done|]. exact Hend.
Qed.

Lemma training_negative_sampling_run self t z :
  trainer self = Some t →
  neg_ratio (kge self) = Some z → (0 < z)%Z →
  calls (training_negative_sampling self)
  = [Fit t (select_model (model_name (kge self)) 0).1
       (data_module_of self "NegativeSampling")]
  ∧ ∀ m', ending (training_negative_sampling self) = Returns m' →
          m' = if evaluates self
               then eval (trainer_fit t
                            (select_model (model_name (kge self)) 0).1
                            (data_module_of self "NegativeSampling"))
               else trainer_fit t
                      (select_model (model_name (kge self)) 0).1
                      (data_module_of self "NegativeSampling").
Proof.
  intros Ht Hratio Hz.
  unfold training_negative_sampling, self_trainer_fit, evaluates,
    assert_positive, data_module_of.
  rewrite Ht, Hratio, decide_True by lia.
  destruct (select_model _ _) as [m0 form_of_labelling].
  set (dataset := StandardDataModule _ _ _ _ _ _).
  rewrite calls_bind, ending_bind. cbn [ending calls mret exec_ret app].
  rewrite calls_bind, ending_bind. cbn [ending calls fit_with fst snd].
  destruct (args_eval self); [|split; [done|by intros m' [= <-]]].
  destruct (eval_steps_run
              (if decide (0 < length (dataset_valid_set self))%nat
               then fst <$> call_evaluate_lp self (trainer_fit t m0 dataset)
                              (dataset_valid_set self)
               else mret (trainer_fit t m0 dataset))
              (λ m, if decide (0 < length (dataset_test_set self))%nat
                    then fst <$> call_evaluate_lp self m
                                   (dataset_test_set self)
                    else mret m)
              (trainer_fit t m0 dataset)
              (bool_decide (dataset_valid_set self ≠ []))
              (bool_decide (dataset_test_set self ≠ [])))
    as [Hcalls Hend].
  - apply guarded_evaluate_lp_run.
  - apply guarded_evaluate_lp_run.
  - intros m. apply guarded_evaluate_lp_run.
  - intros m. apply guarded_evaluate_lp_run.
  - rewrite Hcalls. split; [done|]. exact Hend.
Qed.

Lemma training_negative_sampling_rejects self :
  (neg_ratio (kge self) = None →
   ∃ msg, training_negative_sampling self = Exec [] (Raises (TypeError msg)))
  ∧ (∀ z, neg_ratio (kge self) = Some z → (z ≤ 0)%Z →
       training_negative_sampling self = Exec [] (Raises AssertionError)).
Proof.
  unfold training_negative_sampling, assert_positive. split.
  - intros ->. by eexists.
  - intros z -> Hz. by rewrite decide_False by lia.
Qed.

(** The dispatch of [train_and_eval] on the path without
    cross-validation. *)
Lemma train_and_eval_directly self :
  trains_directly self →
  train_and_eval self
  = if decide (scoring_technique (kge self) = "NegSample")
    then Some <$> training_negative_sampling
                    (set_trainer self (PlTrainer (args_gpus self)))
    else if decide (scoring_technique (kge self) = "KvsAll")
    then Some <$> training_kvsall
                    (set_trainer self (PlTrainer (args_gpus self)))
    else raise (Builtin (ValueError ("Invalid argument: "
                                       +:+ scoring_technique (kge self)))).
Proof.
  unfold train_and_eval, trains_directly.
  cbn [dataset_is_valid_test_available args_num_folds_for_cv set_trainer kge].
  intros [Havail|Hfolds].
  - by rewrite Havail.
  - rewrite (decide_True (P := (args_num_folds_for_cv self < 2)%Z)) by done.
    by destruct (dataset_is_valid_test_available self).
Qed.
End training_runs.

(** On the path without cross-validation a call of [train_and_eval] that
    returns has called [trainer.fit] exactly once, on a fresh model, with
    the whole training set and the negative-sample ratio of the
    configuration, through a trainer that has the DDP plugin exactly when
    GPUs are configured. The labelling is the one [select_model] chose for
    k-vs-all training and ["NegativeSampling"] for negative sampling, which
    needs a positive ratio. When [args.eval] is set and the validation or
    the test set is not empty, the model it returns is the fitted model
    after [model.eval()]; otherwise it is the fitted model as [trainer.fit]
    left it, in whatever mode that is. *)
Theorem train_and_eval_fits_once `{TorchSort, Lightning} self r :
  trains_directly self →
  ending (train_and_eval self) = Returns r →
  ∃ form_of_labelling,
    (scoring_technique (kge self) = "KvsAll"
     ∧ form_of_labelling = (select_model (model_name (kge self)) 0).2
     ∨ scoring_technique (kge self) = "NegSample"
       ∧ form_of_labelling = "NegativeSampling"
       ∧ ∃ z, neg_ratio (kge self) = Some z ∧ (0 < z)%Z)
    ∧ calls (train_and_eval self)
      = [Fit (PlTrainer (args_gpus self))
           (select_model (model_name (kge self)) 0).1
           (data_module_of self form_of_labelling)]
    ∧ r = Some (if evaluates self
                then eval (trainer_fit (PlTrainer (args_gpus self))
                             (select_model (model_name (kge self)) 0).1
                             (data_module_of self form_of_labelling))
                else trainer_fit (PlTrainer (args_gpus self))
                       (select_model (model_name (kge self)) 0).1
                       (data_module_of self form_of_labelling)).
Proof.
  intros Hdirect. rewrite (train_and_eval_directly self Hdirect).
  destruct (decide (scoring_technique (kge self) = "NegSample")) as [Hneg|_];
    [|destruct (decide (scoring_technique (kge self) = "KvsAll"))
        as [Hkvs|_]; [|done]].
  - rewrite ending_fmap, calls_fmap. intros Hend.
    exists "NegativeSampling".
    destruct (neg_ratio (kge self)) as [z|] eqn:Hratio.
    + destruct (decide (0 < z)%Z) as [Hz|Hz].
      * destruct (training_negative_sampling_run
                    (set_trainer self (PlTrainer (args_gpus self)))
                    (PlTrainer (args_gpus self)) z eq_refl Hratio Hz)
          as [Hcalls Hret].
        split; [right; eauto|]. split; [exact Hcalls|].
        destruct (ending (training_negative_sampling _)) as [m'|]; [|done].
        injection Hend as <-. f_equal. exact (Hret m' eq_refl).
      * exfalso.
        rewrite (proj2 (training_negative_sampling_rejects
                          (set_trainer self (PlTrainer (args_gpus self))))
                   z Hratio ltac:(lia)) in Hend.
        done.
    + exfalso.
      destruct (proj1 (training_negative_sampling_rejects
                         (set_trainer self (PlTrainer (args_gpus self))))
                  Hratio) as [msg Hraise].
      by rewrite Hraise in Hend.
  - rewrite ending_fmap, calls_fmap. intros Hend.
    exists (select_model (model_name (kge self)) 0).2.
    destruct (training_kvsall_run
                (set_trainer self (PlTrainer (args_gpus self)))
                (PlTrainer (args_gpus self)) eq_refl) as [Hcalls Hret].
    split; [by left|]. split; [exact Hcalls|].
    destruct (ending (training_kvsall _)) as [m'|]; [|done].
    injection Hend as <-. f_equal. exact (Hret m' eq_refl).
Qed.

Lemma train_and_eval_fits_once_witness :
  ∃ r,
    ending (train_and_eval (H := merge_torch_sort) (H0 := sample_lightning)
              (sample_executor "KvsAll" None true 5)) = Returns r
    ∧ calls (train_and_eval (H := merge_torch_sort) (H0 := sample_lightning)
               (sample_executor "KvsAll" None true 5))
      = [Fit (PlTrainer true) sample_model
           (data_module_of (sample_executor "KvsAll" None true 5)
              "EntityPrediction")]
    ∧ r = Some (eval sample_model).
Proof.
  destruct (ending (train_and_eval (H := merge_torch_sort)
                      (H0 := sample_lightning)
                      (sample_executor "KvsAll" None true 5)))
    as [r|e] eqn:Hend; [|by vm_compute in Hend].
  exists r. split; [reflexivity|].
  destruct (train_and_eval_fits_once (H := merge_torch_sort)
              (H0 := sample_lightning)
              (sample_executor "KvsAll" None true 5) r
              (or_introl eq_refl) Hend)
    as (form_of_labelling & [[_ ->]|[Hneg _]] & Hcalls & Hr);
    [|discriminate Hneg].
  split; [exact Hcalls|exact Hr].
Defined.

(** On the path without cross-validation [train_and_eval] rejects a
    configuration before anything is fitted: a scoring technique other than
    ["NegSample"] and ["KvsAll"] ends in the [ValueError] that names it,
    and negative sampling ends in a [TypeError] when no ratio is set and in
    an [AssertionError] when the ratio is not positive. In each case
    [trainer.fit] has not been called. *)
Theorem train_and_eval_rejects `{TorchSort, Lightning} self :
  trains_directly self →
  (scoring_technique (kge self) ≠ "NegSample" →
   scoring_technique (kge self) ≠ "KvsAll" →
   train_and_eval self
   = Exec [] (Raises (Builtin (ValueError
                                 ("Invalid argument: "
                                    +:+ scoring_technique (kge self))))))
  ∧ (scoring_technique (kge self) = "NegSample" →
     neg_ratio (kge self) = None →
     ∃ msg, train_and_eval self = Exec [] (Raises (TypeError msg)))
  ∧ (scoring_technique (kge self) = "NegSample" →
     ∀ z, neg_ratio (kge self) = Some z → (z ≤ 0)%Z →
          train_and_eval self = Exec [] (Raises AssertionError)).
Proof.
  intros Hdirect. rewrite (train_and_eval_directly self Hdirect).
  split; [|split].
  - intros Hneg Hkvs. by rewrite !decide_False by done.
  - intros Hneg Hratio. rewrite decide_True by done.
    destruct (proj1 (training_negative_sampling_rejects
                       (set_trainer self (PlTrainer (args_gpus self))))
                Hratio) as [msg ->].
    by exists msg.
  - intros Hneg z Hratio Hz. rewrite decide_True by done.
    by rewrite (proj2 (training_negative_sampling_rejects
                         (set_trainer self (PlTrainer (args_gpus self))))
                  z Hratio Hz).
Qed.

Lemma train_and_eval_rejects_witness :
  trains_directly (sample_executor "NegSample" (Some 0%Z) true 5)
  ∧ train_and_eval (H := merge_torch_sort) (H0 := sample_lightning)
      (sample_executor "NegSample" (Some 0%Z) true 5)
    = Exec [] (Raises AssertionError).
Proof.
  split; [by left|].
  apply (proj2 (proj2 (train_and_eval_rejects (H := merge_torch_sort)
                         (H0 := sample_lightning)
                         (sample_executor "NegSample" (Some 0%Z) true 5)
                         (or_introl eq_refl)))
           eq_refl 0%Z eq_refl).
  done.
Defined.


(** ** The configuration check and the run that follows it *)

(** Case analysis on the three tests of the check, in the order in which
    the method makes them. *)
Ltac config_cases :=
  unfold config_kge_sanity_checking;
  destruct (decide (batch_size _ > _)%Z);
  cbn [batch_size model_name train_set scoring_technique neg_ratio];
  destruct (decide (_ ∧ _));
  cbn [batch_size model_name train_set scoring_technique neg_ratio];
  destruct (decide (_ = "KvsAll"));
  cbn [batch_size model_name train_set scoring_technique neg_ratio].

Lemma config_check_kvsall cfg :
  scoring_technique cfg = "KvsAll"
  ∨ (model_name cfg = "Shallom" ∧ scoring_technique cfg = "NegSample") →
  scoring_technique (config_kge_sanity_checking cfg) = "KvsAll"
  ∧ neg_ratio (config_kge_sanity_checking cfg) = None.
Proof.
  intros Hcfg. config_cases; intuition congruence.
Qed.

Lemma config_check_fields self :
  model_name (config_kge_sanity_checking self) = model_name self
  ∧ (batch_size (config_kge_sanity_checking self)
     ≤ Z.of_nat (length (train_set (config_kge_sanity_checking self))))%Z
  ∧ (scoring_technique (config_kge_sanity_checking self) = "KvsAll" ↔
     scoring_technique self = "KvsAll"
     ∨ (model_name self = "Shallom" ∧ scoring_technique self = "NegSample"))
  ∧ (scoring_technique (config_kge_sanity_checking self) = "KvsAll" →
     neg_ratio (config_kge_sanity_checking self) = None)
  ∧ (scoring_technique (config_kge_sanity_checking self) ≠ "KvsAll" →
     scoring_technique (config_kge_sanity_checking self)
     = scoring_technique self
     ∧ neg_ratio (config_kge_sanity_checking self) = neg_ratio self)
  ∧ ¬ (model_name (config_kge_sanity_checking self) = "Shallom"
       ∧ scoring_technique (config_kge_sanity_checking self) = "NegSample").
Proof.
  config_cases; (split; [done|]); (split; [lia|]); intuition congruence.
Qed.

(** A configuration that already meets what the check establishes is left
    as it is. *)
Lemma config_check_fixed self :
  (batch_size self ≤ Z.of_nat (length (train_set self)))%Z →
  ¬ (model_name self = "Shallom" ∧ scoring_technique self = "NegSample") →
  (scoring_technique self = "KvsAll" → neg_ratio self = None) →
  config_kge_sanity_checking self = self.
Proof.
  intros Hsize Hpair Hratio. destruct self as [bs mn ts st nr].
  cbn [batch_size model_name train_set scoring_technique neg_ratio] in *.
  config_cases; try lia; try done.
  by rewrite Hratio.
Qed.

(** Besides clamping the batch size the check fixes the scoring technique
    and the negative-sample ratio: the technique becomes ["KvsAll"] exactly
    when it was ["KvsAll"] or the model is Shallom with ["NegSample"], and
    is kept otherwise; with ["KvsAll"] the ratio is dropped, otherwise it is
    kept. Afterwards Shallom is never paired with negative sampling, and
    running the check a second time changes nothing. *)
Theorem config_check_postconditions self :
  model_name (config_kge_sanity_checking self) = model_name self
  ∧ (scoring_technique (config_kge_sanity_checking self) = "KvsAll" ↔
     scoring_technique self = "KvsAll"
     ∨ (model_name self = "Shallom" ∧ scoring_technique self = "NegSample"))
  ∧ (scoring_technique (config_kge_sanity_checking self) = "KvsAll" →
     neg_ratio (config_kge_sanity_checking self) = None)
  ∧ (scoring_technique (config_kge_sanity_checking self) ≠ "KvsAll" →
     scoring_technique (config_kge_sanity_checking self)
     = scoring_technique self
     ∧ neg_ratio (config_kge_sanity_checking self) = neg_ratio self)
  ∧ ¬ (model_name (config_kge_sanity_checking self) = "Shallom"
       ∧ scoring_technique (config_kge_sanity_checking self) = "NegSample")
  ∧ config_kge_sanity_checking (config_kge_sanity_checking self)
    = config_kge_sanity_checking self.
Proof.
  destruct (config_check_fields self)
    as (Hname & Hsize & Hkvs & Hratio & Hkeep & Hpair).
  do 5 (split; [assumption|]).
  by apply config_check_fixed.
Qed.

Section checked_run.
Context `{TorchSort, Lightning}.

Let no_ratio (ev : event) : Prop := fit_neg_sample_ratio ev = None.
Let sound (e : py_exn) : Prop := ¬ configuration_error e.

Lemma sound_Builtin e : sound (Builtin e).
Proof. by intros []. Qed.

Lemma call_evaluate_lp_k_vs_all_sound self m triple_idx form :
  exec_inv no_ratio sound (call_evaluate_lp_k_vs_all self m triple_idx form).
Proof.
  rewrite call_evaluate_lp_k_vs_all_run. apply exec_inv_fmap.
  apply exec_inv_lift. intros e _. apply sound_Builtin.
Qed.

Lemma training_kvsall_sound self t :
  trainer self = Some t → neg_ratio (kge self) = None →
  exec_inv no_ratio sound (training_kvsall self).
Proof.
  intros Ht Hratio. unfold training_kvsall, self_trainer_fit.
  rewrite Ht. destruct (select_model _ _) as [m form_of_labelling].
  apply exec_inv_bind; [by apply exec_inv_fit|]. intros m1 _.
  destruct (args_eval self); [|apply exec_inv_ret].
  apply exec_inv_bind.
  { case_decide; [|apply exec_inv_ret].
    apply exec_inv_fmap, call_evaluate_lp_k_vs_all_sound. }
  intros m2 _. apply exec_inv_bind; [|intros; apply exec_inv_ret].
  case_decide; [|apply exec_inv_ret].
  apply exec_inv_fmap, call_evaluate_lp_k_vs_all_sound.
Qed.

Lemma cv_body_sound self st fold :
  scoring_technique (kge self) = "KvsAll" → neg_ratio (kge self) = None →
  exec_inv no_ratio sound (cv_body self st fold).
Proof.
  intros Hkvs Hratio. unfold cv_body.
  destruct fold as [ith [train_index test_index]].
  destruct (select_model _ _) as [m form_of_labelling].
  apply exec_inv_bind.
  { apply exec_inv_lift. intros e _. apply sound_Builtin. }
  intros train_rows _. apply exec_inv_bind.
  { apply exec_inv_lift. intros e _. apply sound_Builtin. }
  intros test_rows _. apply exec_inv_bind; [by apply exec_inv_fit|].
  intros m1 _. rewrite decide_True by (by left).
  apply exec_inv_bind.
  { apply exec_inv_bind; [apply call_evaluate_lp_k_vs_all_sound|].
    intros [m2 res] _. apply exec_inv_ret. }
  intros [m2 [res|]] Hres; [apply exec_inv_ret|].
  exfalso. revert Hres. rewrite ending_bind.
  by destruct (ending (call_evaluate_lp_k_vs_all _ _ _ _)) as [[m3 res]|].
Qed.

Lemma train_and_eval_sound self :
  scoring_technique (kge self) = "KvsAll" → neg_ratio (kge self) = None →
  exec_inv no_ratio sound (train_and_eval self).
Proof.
  intros Hkvs Hratio.
  assert (exec_inv no_ratio sound
            (Some <$> training_kvsall
                        (set_trainer self (PlTrainer (args_gpus self)))))
    as Hdirect.
  { apply exec_inv_fmap. by eapply training_kvsall_sound. }
  unfold train_and_eval.
  cbn [dataset_is_valid_test_available args_num_folds_for_cv set_trainer kge].
  rewrite Hkvs.
  rewrite (decide_False (P := "KvsAll" = "NegSample")) by done.
  rewrite (decide_True (P := "KvsAll" = "KvsAll")) by done.
  destruct (dataset_is_valid_test_available self); [done|].
  case_decide; [done|]. unfold k_fold_cross_validation.
  apply exec_inv_bind.
  { apply exec_inv_lift. intros e _. apply sound_Builtin. }
  intros folds _. apply exec_inv_bind; [|intros; apply exec_inv_ret].
  apply exec_inv_for_each. intros st fold _. by apply cv_body_sound.
Qed.
End checked_run.

(** The configuration check and [train_and_eval] fit together: when the
    checked configuration asked for ["KvsAll"], or for Shallom with
    ["NegSample"], every call of [trainer.fit] of the run, with or without
    cross-validation, gets no negative-sample ratio, and the run never ends
    in the [AssertionError] or [TypeError] of the negative-sampling
    assertion, in an [AttributeError] for a missing trainer, or in an
    [UnboundLocalError]. *)
Theorem kvsall_run_after_check `{TorchSort, Lightning} self cfg :
  kge self = config_kge_sanity_checking cfg →
  scoring_technique cfg = "KvsAll"
  ∨ (model_name cfg = "Shallom" ∧ scoring_technique cfg = "NegSample") →
  Forall (λ ev, fit_neg_sample_ratio ev = None) (calls (train_and_eval self))
  ∧ ∀ e, ending (train_and_eval self) = Raises e → ¬ configuration_error e.
Proof.
  intros Hkge Hcfg.
  destruct (config_check_kvsall cfg Hcfg) as [Hkvs Hratio].
  rewrite <-Hkge in Hkvs, Hratio.
  exact (train_and_eval_sound self Hkvs Hratio).
Qed.

Lemma kvsall_run_after_check_witness :
  calls (train_and_eval (H := merge_torch_sort) (H0 := sample_lightning)
           (sample_executor "KvsAll" None false 2)) ≠ []
  ∧ Forall (λ ev, fit_neg_sample_ratio ev = None)
      (calls (train_and_eval (H := merge_torch_sort) (H0 := sample_lightning)
                (sample_executor "KvsAll" None false 2))).
Proof.
  split.
  - intros Hnil. apply (f_equal length) in Hnil. vm_compute in Hnil.
    discriminate Hnil.
  - apply (kvsall_run_after_check (H := merge_torch_sort)
             (H0 := sample_lightning)
             (sample_executor "KvsAll" None false 2)
             {| batch_size := 1024; model_name := "Keci";
                train_set := sample_data; scoring_technique := "KvsAll";
                neg_ratio := Some 1%Z |}).
    + reflexivity.
    + by left.
Defined.


(** ** Cross-validation *)

Lemma exec_bind_ret {A B} (a : A) (f : A → exec B) : mret a ≫= f = f a.
Proof. unfold mbind, exec_mbind, exec_bind. simpl. by destruct (f a). Qed.


Section cross_validation.
Context `{TorchSort, Lightning}.

(** One round that returns has fitted a fresh model on the training rows of
    its fold with a trainer without the DDP plugin, and leaves a model that
    scores as that fitted model does. *)
Lemma cv_body_Returns self st ith train_index test_index st' :
  ending (cv_body self st (ith, (train_index, test_index))) = Returns st' →
  ∃ train_rows,
    take_rows (train_set (kge self)) train_index = Ok train_rows
    ∧ calls (cv_body self st (ith, (train_index, test_index)))
      = [Fit (PlTrainer false) (select_model (model_name (kge self)) ith).1
           (fold_data_module self
              (select_model (model_name (kge self)) ith).2 train_rows)]
    ∧ ∃ m, cv_model st' = Some m
           ∧ eval m
             = eval (trainer_fit (PlTrainer false)
                       (select_model (model_name (kge self)) ith).1
                       (fold_data_module self
                          (select_model (model_name (kge self)) ith).2
                          train_rows)).
Proof.
  unfold cv_body. destruct (select_model _ _) as [m0 form_of_labelling].
  destruct (take_rows _ train_index) as [train_rows|]; [|done].
  destruct (take_rows _ test_index) as [test_rows|]; [|done].
  change (lift (Ok train_rows)) with (mret (M := exec) train_rows).
  rewrite exec_bind_ret.
  change (lift (Ok test_rows)) with (mret (M := exec) test_rows).
  rewrite exec_bind_ret.
  fold (fold_data_module self form_of_labelling train_rows).
  set (dataset := fold_data_module self form_of_labelling train_rows).
  rewrite ending_bind, calls_bind. cbn [ending calls fit_with fst snd].
  set (fitted := trainer_fit (PlTrainer false) m0 dataset).
  intros Hend. exists train_rows. split; [done|].
  rewrite ending_bind, calls_bind in *.
  destruct (decide (scoring_technique (kge self) = "KvsAll"
                    ∨ name fitted = "Shallom")) as [Hkvs|Hkvs];
    [|destruct (decide (scoring_technique (kge self) = "NegSample"))
        as [Hneg|Hneg]].
  - rewrite call_evaluate_lp_k_vs_all_run in *.
    destruct (spec_single_ranking _ _ _ _) as [res|]; [|done].
    cbn in Hend |- *. injection Hend as <-. split; [done|].
    by exists (eval fitted).
  - rewrite call_evaluate_lp_run in *.
    destruct (spec_entity_ranking _ _ _ _) as [res|]; [|done].
    cbn in Hend |- *. injection Hend as <-. split; [done|].
    by exists (eval fitted).
  - cbn in Hend |- *. destruct (cv_res st) as [res|]; [|done].
    cbn in Hend |- *. injection Hend as <-. split; [done|].
    by exists fitted.
Qed.

Lemma cv_loop self folds k st st' :
  ending (for_each_exec (cv_body self) (zip (seq k (length folds)) folds) st)
  = Returns st' →
  length (calls (for_each_exec (cv_body self)
                   (zip (seq k (length folds)) folds) st)) = length folds
  ∧ Forall (λ ev, fit_trainer ev = PlTrainer false)
      (calls (for_each_exec (cv_body self)
                (zip (seq k (length folds)) folds) st))
  ∧ (folds = [] → st' = st)
  ∧ ∀ earlier train_index test_index,
      folds = earlier ++ [(train_index, test_index)] →
      ∃ train_rows m,
        take_rows (train_set (kge self)) train_index = Ok train_rows
        ∧ cv_model st' = Some m
        ∧ eval m
          = eval (trainer_fit (PlTrainer false)
                    (select_model (model_name (kge self))
                       (k + length earlier)).1
                    (fold_data_module self
                       (select_model (model_name (kge self))
                          (k + length earlier)).2 train_rows)).
Proof.
  revert k st. induction folds as [|[train_index test_index] folds IH];
    intros k st.
  - intros [= <-]. split; [done|]. split; [constructor|]. split; [done|].
    intros earlier ? ? Hnil. by destruct earlier.
  - cbn [length seq zip_with for_each_exec].
    rewrite ending_bind, calls_bind.
    destruct (ending (cv_body self st (k, (train_index, test_index))))
      as [st1|] eqn:Hbody; [|done].
    apply cv_body_Returns in Hbody
      as (train_rows & Hrows & -> & m & Hmodel & Heval).
    intros Hrest.
    destruct (IH (S k) st1 Hrest) as (Hlen & Hplain & Hnil & Hlast).
    split; [by rewrite length_app, Hlen|].
    split; [by constructor|]. split; [done|].
    intros earlier train_index' test_index' Hsplit.
    destruct earlier as [|fold earlier].
    + injection Hsplit as <- <- ->. rewrite (Hnil eq_refl), Nat.add_0_r.
      by exists train_rows, m.
    + injection Hsplit as _ ->.
      destruct (Hlast earlier train_index' test_index' eq_refl)
        as (rows' & m' & Hrows' & Hmodel' & Heval').
      exists rows', m'. split; [done|]. split; [done|].
      rewrite Heval'. cbn [length]. by rewrite Nat.add_succ_r.
Qed.
End cross_validation.

(** A cross-validation that returns has called [trainer.fit] once per
    fold, every time through a trainer without the DDP plugin, also when
    GPUs are configured. Without folds it returns [None]; otherwise the
    model it returns scores as the fresh model fitted on the training rows
    of the last fold. *)
Theorem cross_validation_returns_last_model `{TorchSort, Lightning} self
    folds r :
  kf_split (args_num_folds_for_cv self) (train_set (kge self)) = Ok folds →
  ending (k_fold_cross_validation self) = Returns r →
  length (calls (k_fold_cross_validation self)) = length folds
  ∧ Forall (λ ev, fit_trainer ev = PlTrainer false)
      (calls (k_fold_cross_validation self))
  ∧ (folds = [] → r = None)
  ∧ ∀ earlier train_index test_index,
      folds = earlier ++ [(train_index, test_index)] →
      ∃ train_rows m,
        take_rows (train_set (kge self)) train_index = Ok train_rows
        ∧ r = Some m
        ∧ eval m
          = eval (trainer_fit (PlTrainer false)
                    (select_model (model_name (kge self))
                       (length earlier)).1
                    (fold_data_module self
                       (select_model (model_name (kge self))
                          (length earlier)).2 train_rows)).
Proof.
  intros Hsplit. unfold k_fold_cross_validation, enumerate. rewrite Hsplit.
  change (lift (Ok folds)) with (mret (M := exec) folds).
  rewrite exec_bind_ret, ending_bind, calls_bind.
  pose proof (cv_loop self folds 0
                {| cv_model := None; cv_res := None; eval_folds := [] |})
    as Hloop.
  destruct (ending (for_each_exec _ _ _)) as [st'|]; [|done].
  destruct (Hloop st' eq_refl) as (Hlen & Hplain & Hnil & Hlast).
  intros [= <-]. cbn [calls mret exec_ret]. rewrite app_nil_r.
  split; [done|]. split; [done|]. split.
  - intros Hfolds. by rewrite (Hnil Hfolds).
  - intros earlier train_index test_index Hfolds.
    destruct (Hlast earlier train_index test_index Hfolds)
      as (train_rows & m & Hrows & Hmodel & Heval).
    by exists train_rows, m.
Qed.

Lemma cross_validation_returns_last_model_witness :
  ∃ r,
    ending (k_fold_cross_validation (H := merge_torch_sort)
              (H0 := sample_lightning)
              (sample_executor "KvsAll" None false 2)) = Returns r
    ∧ length (calls (k_fold_cross_validation (H := merge_torch_sort)
                       (H0 := sample_lightning)
                       (sample_executor "KvsAll" None false 2))) = 2%nat.
Proof.
  destruct (ending (k_fold_cross_validation (H := merge_torch_sort)
                      (H0 := sample_lightning)
                      (sample_executor "KvsAll" None false 2)))
    as [r|e] eqn:Hend; [|by vm_compute in Hend].
  exists r. split; [reflexivity|].
  exact (proj1 (cross_validation_returns_last_model (H := merge_torch_sort)
                  (H0 := sample_lightning)
                  (sample_executor "KvsAll" None false 2)
                  [([1%nat], [0%nat]); ([0%nat], [1%nat])] r eq_refl Hend)).
Defined.


